(** * Workspace event backfill: a shallow embedding of
      [scripts/backfill-workspace-events.py] and its properties.

    The script pages through the GitHub events feed of every workspace
    repository, keeps the recent events of a few types and upserts them into
    the table [github_events_cache].  The embedding keeps the structure of
    the class [WorkspaceEventsBackfill]: one definition per method, the
    mutable object state ([self.stats], the database session, the console)
    threaded through a small state-and-exception monad, and the outside
    world (HTTP responses, database faults, the directory of repositories)
    given by an explicit environment. *)

From Stdlib Require Import ZArith List String Ascii Bool Arith Lia.
Import ListNotations.

Local Open Scope Z_scope.
Local Open Scope list_scope.

(* ===================================================================== *)
(** ** Python values used by the script *)
(* ===================================================================== *)

(** [str.split(sep, maxsplit)] for a one-character separator: at most
    [maxsplit] cuts, from the left; the result is never empty. *)
Fixpoint str_split (sep : ascii) (maxsplit : nat) (s : string) {struct s}
  : list string :=
  match s with
  | EmptyString => [EmptyString]
  | String c rest =>
      match maxsplit with
      | O => [s]
      | S m =>
          if Ascii.eqb c sep then EmptyString :: str_split sep m rest
          else match str_split sep maxsplit rest with
               | h :: t => String c h :: t
               | [] => [String c EmptyString]
               end
      end
  end.

(** [str.count(c)]. *)
Fixpoint str_count (sep : ascii) (s : string) : nat :=
  match s with
  | EmptyString => O
  | String c rest => ((if Ascii.eqb c sep then 1 else 0) + str_count sep rest)%nat
  end.

(** [str.startswith(p)]. *)
Fixpoint startswith (p s : string) : bool :=
  match p, s with
  | EmptyString, _ => true
  | String a p', String b s' => Ascii.eqb a b && startswith p' s'
  | String _ _, EmptyString => false
  end.

Definition slash : ascii := "/"%char.

(** JSON values, as [response.json()] delivers them and [json.dumps]
    consumes them. *)
#[local] Set Warnings "-register-all".
Inductive json : Type :=
| JNull
| JBool (b : bool)
| JNum (z : Z)
| JStr (s : string)
| JArr (items : list json)
| JObj (fields : list (string * json)).

(** A Python [dict] with string keys: insertion-ordered, keys unique. *)
Definition dict := list (string * json).

(** [d[k] = v]: replaces the value in place, or appends a new key. *)
Fixpoint dict_set (k : string) (v : json) (d : dict) : dict :=
  match d with
  | [] => [(k, v)]
  | (k', v') :: rest =>
      if String.eqb k' k then (k', v) :: rest
      else (k', v') :: dict_set k v rest
  end.

(** [d.update(other)]. *)
Definition dict_update (d other : dict) : dict :=
  fold_left (fun acc kv => dict_set (fst kv) (snd kv) acc) other d.

(** Python exceptions, by the only distinction the handlers make:
    [except Exception] catches every [Exception cls] and lets
    [KeyboardInterrupt] through. *)
Inductive exn : Type :=
| Exception (cls : string)
| KeyboardInterrupt.

Definition is_Exception (e : exn) : bool :=
  match e with Exception _ => true | KeyboardInterrupt => false end.

(* ===================================================================== *)
(** ** Data model *)
(* ===================================================================== *)

(** One row of the directory lookup. *)
Record RepositoryTarget : Type := mkTarget {
  owner : string;
  name : string;
  workspace : string
}.

Record Actor : Type := mkActor {
  actor_id : Z;
  login : string;
  avatar_url : string
}.

Record Repo : Type := mkRepo {
  repo_id : Z;
  repo_name : string;
  repo_url : string
}.

(** An event of the upstream feed, with the shape the events API gives
    it.  The keys the script reads with [event[...]] are fields; the two it
    reads defensively ([event.get("action")], ["payload" in event]) are
    optional.  What can still go wrong with a well-shaped event is kept: a
    timestamp that does not parse ([event_date] below) and a repository
    name that does not split. *)
Record RawEvent : Type := mkEvent {
  ev_id : string;
  ev_type : string;
  ev_created_at : string;
  ev_actor : Actor;
  ev_repo : Repo;
  ev_public : bool;
  ev_action : option json;
  ev_payload : option dict
}.

(** A row of [github_events_cache], with the columns the INSERT statement
    names and the one its conflict clause sets.  [payload] holds the
    dictionary that [json.dumps] serialises. *)
Record CacheRow : Type := mkRow {
  event_id : string;
  event_type : string;
  actor_login : string;
  repository_owner : string;
  repository_name : string;
  payload : dict;
  created_at : string;
  processing_notes : option string;
  processed_at : option Z
}.

Definition Table := list CacheRow.

(** The conflict target [(event_id, created_at)]. *)
Definition same_key (r1 r2 : CacheRow) : bool :=
  String.eqb (event_id r1) (event_id r2)
  && String.eqb (created_at r1) (created_at r2).

Definition has_key (id created : string) (r : CacheRow) : bool :=
  String.eqb (event_id r) id && String.eqb (created_at r) created.

Definition update_marker : string := "; Updated from workspace backfill".

(** [COALESCE(notes, '') || '; Updated from workspace backfill'] *)
Definition merged_notes (notes : option string) : string :=
  ((match notes with Some n => n | None => EmptyString end) ++ update_marker)%string.

(** The [DO UPDATE SET] clause applied to the row already stored. *)
Definition on_conflict_update (now : Z) (old : CacheRow) : CacheRow :=
  {| event_id := event_id old;
     event_type := event_type old;
     actor_login := actor_login old;
     repository_owner := repository_owner old;
     repository_name := repository_name old;
     payload := payload old;
     created_at := created_at old;
     processing_notes := Some (merged_notes (processing_notes old));
     processed_at := Some now |}.

(** [INSERT ... ON CONFLICT (event_id, created_at) DO UPDATE SET ...]:
    the stored row with the key of [row] is updated, and [row] is added
    when there is none. *)
Fixpoint upsert (now : Z) (row : CacheRow) (t : Table) : Table :=
  match t with
  | [] => [row]
  | r :: rest =>
      if same_key r row then on_conflict_update now r :: rest
      else r :: upsert now row rest
  end.

Definition count_key (id created : string) (t : Table) : nat :=
  List.length (filter (has_key id created) t).

Definition find_key (id created : string) (t : Table) : option CacheRow :=
  find (has_key id created) t.

Definition keys (t : Table) : list (string * string) :=
  map (fun r => (event_id r, created_at r)) t.

(* ===================================================================== *)
(** ** The outside world *)
(* ===================================================================== *)

(** What one [requests.get] gives back.  [rate_limit_reset] is the header
    [X-RateLimit-Reset]: [None] when absent, [Some None] when present but
    [int(...)] raises on it, [Some (Some t)] when it reads as [t].  [body]
    is [response.json()]: [None] when it raises. *)
Record Response : Type := mkResponse {
  status_code : Z;
  rate_limit_reset : option (option Z);
  body : option (list RawEvent)
}.

Inductive HttpOutcome : Type :=
| HttpRaises (e : exn)
| HttpReturns (r : Response).

(** The calls made on the psycopg2 connection and cursor. *)
Inductive DbCall : Type :=
| Connect | SelectRepositories | InsertEvent | Commit | Rollback | CountAll
| Close.

(** The environment of one run.  Every external call is answered by it:
    the [n]-th HTTP request by [requests_get], the [n]-th database call by
    [db_fault] ([None]: the call succeeds).  The three time functions stand
    for [datetime.fromisoformat(s.replace("Z", "+00:00"))] (an instant in
    milliseconds; [None] when parsing or the comparison with the aware
    cutoff raises) and for the two [isoformat()] renderings.
    [processed_at_default] is the value the table gives [processed_at] on a
    plain insert. *)
Record Env : Type := mkEnv {
  requests_get : string -> string -> nat -> nat -> nat -> HttpOutcome;
  db_fault : DbCall -> nat -> option exn;
  directory : option string -> list RepositoryTarget;
  event_date : string -> option Z;
  isoformat_utc : Z -> string;
  isoformat_local : Z -> string;
  processed_at_default : Z -> option Z
}.

(** Process environment variables read by [__init__]. *)
Record Config : Type := mkConfig {
  SUPABASE_URL : option string;
  SUPABASE_DB_PASSWORD : option string;
  GITHUB_TOKEN : option string
}.

(* ===================================================================== *)
(** ** Program state *)
(* ===================================================================== *)

(** [self.stats]. *)
Record Stats : Type := mkStats {
  repos_processed : nat;
  events_fetched : nat;
  events_inserted : nat;
  api_calls : nat;
  errors : nat
}.

(** One line per [print] of the script. *)
Inductive Line : Type :=
| LFetching (o n : string)
| LNotFound (o n : string)
| LRateLimited (o n : string)
| LWaiting (wait_time : Z)
| LHttpError (status : Z) (o n : string)
| LReachedCutoff (page : nat)
| LFetchError (o n : string) (e : exn)
| LFound (count : nat) (o n : string)
| LInsertError (id : string) (e : exn)
| LBackfilling (o n w : string)
| LNoEvents (o n : string)
| LProgress (watch : bool) (actor type : string)
| LInsertFailed (e : exn)
| LInserted (inserted total : nat)
| LFailedCount (failed : nat)
| LStarting
| LPeriod (days : Z)
| LNoRepositories
| LFoundRepos (count : nat)
| LProcessing (i total : nat) (o n : string)
| LInterrupted
| LRepoFailed (o n : string) (e : exn)
| LComplete (duration : Z)
| LReposProcessed (k : nat)
| LEventsFetched (k : nat)
| LEventsInserted (k : nat)
| LApiCalls (k : nat)
| LErrors (k : nat)
| LTotal (rows : nat)
| LScopeWorkspace (id : string)
| LScopeAll
| LFatal (e : exn).

(** A request sent and what came back. *)
Record Exchange : Type := mkExchange {
  x_owner : string;
  x_name : string;
  x_page : nat;
  x_per_page : nat;
  x_outcome : HttpOutcome
}.

(** The state the script works on: its counters, the wall clock in
    milliseconds (advanced by [time.sleep]), the HTTP exchanges so far, the
    number of database calls so far, the table as the open transaction sees
    it ([session]) and as last committed, and the console. *)
Record State : Type := mkState {
  stats : Stats;
  clock : Z;
  exchanges : list Exchange;
  db_calls : nat;
  session : Table;
  committed : Table;
  console : list Line
}.

Definition set_stats (f : Stats -> Stats) (s : State) : State :=
  mkState (f (stats s)) (clock s) (exchanges s) (db_calls s) (session s)
          (committed s) (console s).
Definition set_clock (f : Z -> Z) (s : State) : State :=
  mkState (stats s) (f (clock s)) (exchanges s) (db_calls s) (session s)
          (committed s) (console s).
Definition set_exchanges (f : list Exchange -> list Exchange) (s : State) : State :=
  mkState (stats s) (clock s) (f (exchanges s)) (db_calls s) (session s)
          (committed s) (console s).
Definition set_db_calls (f : nat -> nat) (s : State) : State :=
  mkState (stats s) (clock s) (exchanges s) (f (db_calls s)) (session s)
          (committed s) (console s).
Definition set_session (f : Table -> Table) (s : State) : State :=
  mkState (stats s) (clock s) (exchanges s) (db_calls s) (f (session s))
          (committed s) (console s).
Definition set_committed (f : Table -> Table) (s : State) : State :=
  mkState (stats s) (clock s) (exchanges s) (db_calls s) (session s)
          (f (committed s)) (console s).
Definition set_console (f : list Line -> list Line) (s : State) : State :=
  mkState (stats s) (clock s) (exchanges s) (db_calls s) (session s)
          (committed s) (f (console s)).

Definition zero_stats : Stats := mkStats 0 0 0 0 0.

Definition add_repos_processed (k : nat) (st : Stats) : Stats :=
  mkStats (repos_processed st + k) (events_fetched st) (events_inserted st)
          (api_calls st) (errors st).
Definition add_events_fetched (k : nat) (st : Stats) : Stats :=
  mkStats (repos_processed st) (events_fetched st + k) (events_inserted st)
          (api_calls st) (errors st).
Definition add_events_inserted (k : nat) (st : Stats) : Stats :=
  mkStats (repos_processed st) (events_fetched st) (events_inserted st + k)
          (api_calls st) (errors st).
Definition add_api_calls (k : nat) (st : Stats) : Stats :=
  mkStats (repos_processed st) (events_fetched st) (events_inserted st)
          (api_calls st + k) (errors st).
Definition add_errors (k : nat) (st : Stats) : Stats :=
  mkStats (repos_processed st) (events_fetched st) (events_inserted st)
          (api_calls st) (errors st + k).

(* ===================================================================== *)
(** ** The monad: state, exceptions, and running out of fuel *)
(* ===================================================================== *)

(** A computation ends with a value, ends with an exception, or is still
    running when the fuel of a loop is used up; each time in some state. *)
Inductive Outcome (A : Type) : Type :=
| Val (a : A) (s : State)
| Raised (e : exn) (s : State)
| OutOfFuel (s : State).
Arguments Val {A} a s.
Arguments Raised {A} e s.
Arguments OutOfFuel {A} s.

Definition M (A : Type) : Type := State -> Outcome A.

Definition ret {A} (a : A) : M A := fun s => Val a s.
Definition raise {A} (e : exn) : M A := fun s => Raised e s.
Definition out_of_fuel {A} : M A := fun s => OutOfFuel s.

(** The state an outcome is in. *)
Definition final {A} (o : Outcome A) : State :=
  match o with
  | Val _ s => s
  | Raised _ s => s
  | OutOfFuel s => s
  end.

Definition bind {A B} (m : M A) (k : A -> M B) : M B :=
  fun s => match m s with
           | Val a s' => k a s'
           | Raised e s' => Raised e s'
           | OutOfFuel s' => OutOfFuel s'
           end.

(** One step of a [try] block: an exception of [m] goes to the handler
    [h], built from the local variables as they are at this step; a value
    goes on to the rest of the block. *)
Definition guarded {A B} (m : M A) (h : exn -> M B) (k : A -> M B) : M B :=
  fun s => match m s with
           | Val a s' => k a s'
           | Raised e s' => h e s'
           | OutOfFuel s' => OutOfFuel s'
           end.

(** [try: m finally: fin]. *)
Definition try_finally {A} (m : M A) (fin : M unit) : M A :=
  fun s => match m s with
           | Val a s' => match fin s' with
                         | Val _ s'' => Val a s''
                         | Raised e s'' => Raised e s''
                         | OutOfFuel s'' => OutOfFuel s''
                         end
           | Raised e s' => match fin s' with
                            | Val _ s'' => Raised e s''
                            | Raised e' s'' => Raised e' s''
                            | OutOfFuel s'' => OutOfFuel s''
                            end
           | OutOfFuel s' => OutOfFuel s'
           end.

Definition gets {A} (f : State -> A) : M A := fun s => Val (f s) s.
Definition modify (f : State -> State) : M unit := fun s => Val tt (f s).

Declare Scope m_scope.
Delimit Scope m_scope with m.
Notation "x <- m ;; k" := (bind m (fun x => k))
  (at level 61, m at next level, right associativity) : m_scope.
Notation "m ;; k" := (bind m (fun _ => k))
  (at level 61, right associativity) : m_scope.
Local Open Scope m_scope.

Definition print (l : Line) : M unit :=
  modify (set_console (fun c => c ++ [l])).
Definition sleep (ms : Z) : M unit := modify (set_clock (fun t => t + ms)).
(** [datetime.now()], in milliseconds. *)
Definition datetime_now : M Z := gets clock.
(** [int(time.time())], in seconds. *)
Definition time_time : M Z := gets (fun s => Z.quot (clock s) 1000).
Definition bump (f : nat -> Stats -> Stats) (k : nat) : M unit :=
  modify (set_stats (f k)).

(** [print(...)] of an error followed by [self.stats["errors"] += 1]: the
    first two statements of three handlers. *)
Definition count_error (l : Line) : M unit :=
  print l ;; bump add_errors 1.

(** [except Exception as e: body]: anything else propagates. *)
Definition except_Exception {A} (body : exn -> M A) (e : exn) : M A :=
  if is_Exception e then body e else raise e.

(* ===================================================================== *)
(** ** class WorkspaceEventsBackfill *)
(* ===================================================================== *)

Section Backfill.

Variable env : Env.

(** *** External calls *)

(** A call on the database connection: the environment decides whether it
    raises. *)
Definition db_call (c : DbCall) : M unit :=
  fun s =>
    let s' := set_db_calls S s in
    match db_fault env c (db_calls s) with
    | Some e => Raised e s'
    | None => Val tt s'
    end.

(** [self.pg_cursor.execute("INSERT ... ON CONFLICT ...", row)]; [NOW()]
    is the clock. *)
Definition execute_insert (row : CacheRow) : M unit :=
  db_call InsertEvent ;;
  now <- datetime_now ;;
  modify (set_session (upsert now row)).

(** [self.pg_conn.commit()] *)
Definition commit : M unit :=
  db_call Commit ;;
  s <- gets session ;;
  modify (set_committed (fun _ => s)).

(** [self.pg_conn.rollback()] *)
Definition rollback : M unit :=
  db_call Rollback ;;
  c <- gets committed ;;
  modify (set_session (fun _ => c)).

(** [requests.get(url, headers, params={"page": page, "per_page": 100})] *)
Definition http_get (o n : string) (page per_page : nat) : M Response :=
  fun s =>
    let out := requests_get env o n page per_page (List.length (exchanges s)) in
    let s' := set_exchanges (fun l => l ++ [mkExchange o n page per_page out]) s in
    match out with
    | HttpRaises e => Raised e s'
    | HttpReturns r => Val r s'
    end.

(** *** __init__ *)

(** [not v] for an environment variable. *)
Definition unset (v : option string) : bool :=
  match v with
  | None => true
  | Some EmptyString => true
  | Some _ => false
  end.

Definition bad_token (v : option string) : bool :=
  match v with
  | None => true
  | Some t => String.eqb t EmptyString || startswith "your_" t
  end.

Definition backfill_days : Z := 30.

Definition init (cfg : Config) : M unit :=
  if unset (SUPABASE_URL cfg) || unset (SUPABASE_DB_PASSWORD cfg)
  then raise (Exception "ValueError")
  else if bad_token (GITHUB_TOKEN cfg)
  then raise (Exception "ValueError")
  else
    db_call Connect ;;
    modify (set_stats (fun _ => zero_stats)).

(** *** get_workspace_repositories *)

(** [if workspace_id:] *)
Definition scoped (workspace_id : option string) : option string :=
  match workspace_id with
  | Some EmptyString => None
  | other => other
  end.

Definition get_workspace_repositories (workspace_id : option string)
  : M (list RepositoryTarget) :=
  db_call SelectRepositories ;;
  ret (directory env (scoped workspace_id)).

(** *** get_repo_events *)

Definition relevant_types : list string :=
  ["WatchEvent"; "ForkEvent"; "PullRequestEvent"; "IssuesEvent"; "StarEvent"]%string.

Definition relevant (ty : string) : bool :=
  existsb (String.eqb ty) relevant_types.

(** How the [for event in page_events] loop ends, with the list [events]
    as it stands then (the loop appends to it in place). *)
Inductive Scan : Type :=
| ScanEnd (events : list RawEvent)
| ScanCutoff (events : list RawEvent)
| ScanRaised (e : exn) (events : list RawEvent).

Fixpoint filter_page (cutoff_date : Z) (events page_events : list RawEvent)
  : Scan :=
  match page_events with
  | [] => ScanEnd events
  | event :: rest =>
      match event_date env (ev_created_at event) with
      | None => ScanRaised (Exception "ValueError") events
      | Some d =>
          if cutoff_date <=? d then
            filter_page cutoff_date
              (if relevant (ev_type event) then events ++ [event] else events)
              rest
          else ScanCutoff events
      end
  end.

(** How one turn of [while page <= 10] ends. *)
Inductive Ctl : Type :=
| Continue (page : nat) (events : list RawEvent)
| Break (events : list RawEvent)
| Return (events : list RawEvent).

(** [except Exception as e:] of the paging loop. *)
Definition except_fetch (o n : string) (events : list RawEvent) : exn -> M Ctl :=
  except_Exception (fun e =>
    count_error (LFetchError o n e) ;;
    ret (Break events)).

(** [int(response.headers["X-RateLimit-Reset"])] *)
Definition int_header (h : option Z) : M Z :=
  match h with
  | Some t => ret t
  | None => raise (Exception "ValueError")
  end.

(** [response.json()] *)
Definition response_json (r : Response) : M (list RawEvent) :=
  match body r with
  | Some l => ret l
  | None => raise (Exception "JSONDecodeError")
  end.

(** The 403 branch. *)
Definition rate_limited (o n : string) (page : nat) (events : list RawEvent)
  (response : Response) : M Ctl :=
  print (LRateLimited o n) ;;
  match rate_limit_reset response with
  | Some h =>
      reset_time <- int_header h ;;
      now <- time_time ;;
      let wait_time := Z.max 0 (reset_time - now + 60) in
      if wait_time <? 3600 then
        print (LWaiting wait_time) ;;
        sleep (wait_time * 1000) ;;
        ret (Continue page events)
      else ret (Break events)
  | None => ret (Break events)
  end.

(** The body of the [while] loop. *)
Definition fetch_page (o n : string) (cutoff_date : Z) (page : nat)
  (events : list RawEvent) : M Ctl :=
  let handler := except_fetch o n in
  guarded (http_get o n page 100) (handler events) (fun response =>
  guarded (bump add_api_calls 1) (handler events) (fun _ =>
  if status_code response =? 404 then
    guarded (print (LNotFound o n)) (handler events) (fun _ => ret (Break events))
  else if status_code response =? 403 then
    guarded (rate_limited o n page events response) (handler events) ret
  else if negb (status_code response =? 200) then
    guarded (print (LHttpError (status_code response) o n)) (handler events)
            (fun _ => ret (Break events))
  else
    guarded (response_json response) (handler events) (fun page_events =>
    match page_events with
    | [] => ret (Break events)
    | _ =>
        match filter_page cutoff_date events page_events with
        | ScanRaised e events' => handler events' e
        | ScanCutoff events' =>
            guarded (print (LReachedCutoff page) ;;
                     bump add_events_fetched (List.length events'))
                    (handler events') (fun _ => ret (Return events'))
        | ScanEnd events' =>
            guarded (sleep 500) (handler events')
                    (fun _ => ret (Continue (S page) events'))
        end
    end))).

(** After the loop. *)
Definition found (o n : string) (events : list RawEvent) : M (list RawEvent) :=
  bump add_events_fetched (List.length events) ;;
  print (LFound (List.length events) o n) ;;
  ret events.

(** [while page <= 10: ...]; a retry after a 403 does not advance [page],
    so the loop is run on [fuel]. *)
Fixpoint paging (fuel : nat) (o n : string) (cutoff_date : Z) (page : nat)
  (events : list RawEvent) : M (list RawEvent) :=
  if (page <=? 10)%nat then
    match fuel with
    | O => out_of_fuel
    | S fuel' =>
        c <- fetch_page o n cutoff_date page events ;;
        match c with
        | Continue page' events' => paging fuel' o n cutoff_date page' events'
        | Break events' => found o n events'
        | Return events' => ret events'
        end
    end
  else found o n events.

Definition day_ms : Z := 86400000.

Definition get_repo_events (fuel : nat) (o n : string) (days_back : Z)
  : M (list RawEvent) :=
  print (LFetching o n) ;;
  now <- datetime_now ;;
  let cutoff_date := now - days_back * day_ms in
  paging fuel o n cutoff_date 1 [].

(** *** insert_event *)

(** The dictionary [payload] built from the event. *)
Definition build_payload (now : Z) (event : RawEvent) : dict :=
  let base : dict :=
    [ ("action", match ev_action event with Some a => a | None => JNull end);
      ("actor", JObj [ ("id", JNum (actor_id (ev_actor event)));
                       ("login", JStr (login (ev_actor event)));
                       ("avatar_url", JStr (avatar_url (ev_actor event))) ]);
      ("repo", JObj [ ("id", JNum (repo_id (ev_repo event)));
                      ("name", JStr (repo_name (ev_repo event)));
                      ("url", JStr (repo_url (ev_repo event))) ]);
      ("public", JBool (ev_public event));
      ("backfill_source", JStr "workspace_backfill");
      ("backfill_date", JStr (isoformat_utc env now)) ]%string in
  match ev_payload event with
  | Some p => dict_update base p
  | None => base
  end.

(** The parameters of the INSERT statement. *)
Definition build_row (now : Z) (event : RawEvent)
  (repository_owner repository_name : string) : CacheRow :=
  {| event_id := ev_id event;
     event_type := ev_type event;
     actor_login := login (ev_actor event);
     repository_owner := repository_owner;
     repository_name := repository_name;
     payload := build_payload now event;
     created_at := ev_created_at event;
     processing_notes :=
       Some ("Workspace backfill on " ++ isoformat_local env now)%string;
     processed_at := processed_at_default env now |}.

(** [repository_owner, repository_name = repo_full_name.split("/", 1)] *)
Definition split_full_name (repo_full_name : string) : M (string * string) :=
  match str_split slash 1 repo_full_name with
  | [repository_owner; repository_name] =>
      ret (repository_owner, repository_name)
  | _ => raise (Exception "ValueError")
  end.

Definition insert_event (event : RawEvent) : M bool :=
  guarded
    (parts <- split_full_name (repo_name (ev_repo event)) ;;
     now <- datetime_now ;;
     execute_insert (build_row now event (fst parts) (snd parts)) ;;
     bump add_events_inserted 1 ;;
     ret true)
    (except_Exception (fun e =>
       count_error (LInsertError (ev_id event) e) ;;
       ret false))
    ret.

(** *** backfill_repository *)

(** [except Exception as e:] of the insertion loop, with the two counters
    as they are when the exception arrives. *)
Definition except_insert (inserted_count failed_count : nat)
  : exn -> M (nat * nat) :=
  except_Exception (fun e =>
    print (LInsertFailed e) ;;
    rollback ;;
    ret (inserted_count, S failed_count)).

Definition show_progress (inserted_count : nat) (event : RawEvent) : M unit :=
  if (inserted_count <=? 3)%nat then
    print (LProgress (String.eqb (ev_type event) "WatchEvent")
                     (login (ev_actor event)) (ev_type event))
  else ret tt.

(** The body of [for event in events]. *)
Definition insert_one (event : RawEvent) (inserted_count failed_count : nat)
  : M (nat * nat) :=
  guarded (insert_event event) (except_insert inserted_count failed_count)
    (fun ok =>
       if ok then
         guarded (commit ;; show_progress (S inserted_count) event)
                 (except_insert (S inserted_count) failed_count)
                 (fun _ => ret (S inserted_count, failed_count))
       else
         guarded rollback
                 (except_insert inserted_count (S failed_count))
                 (fun _ => ret (inserted_count, S failed_count))).

Fixpoint insert_events (events : list RawEvent)
  (inserted_count failed_count : nat) : M (nat * nat) :=
  match events with
  | [] => ret (inserted_count, failed_count)
  | event :: rest =>
      counts <- insert_one event inserted_count failed_count ;;
      insert_events rest (fst counts) (snd counts)
  end.

Definition backfill_repository (fuel : nat) (o n w : string) : M unit :=
  print (LBackfilling o n w) ;;
  events <- get_repo_events fuel o n backfill_days ;;
  match events with
  | [] => print (LNoEvents o n)
  | _ =>
      counts <- insert_events events 0 0 ;;
      print (LInserted (fst counts) (List.length events)) ;;
      (if (0 <? snd counts)%nat then print (LFailedCount (snd counts))
       else ret tt) ;;
      bump add_repos_processed 1
  end.

(** *** run_backfill *)

(** [for i, repo in enumerate(repositories, 1)], from index [i] on. *)
Fixpoint process_repositories (fuel : nat) (i total : nat)
  (repositories : list RepositoryTarget) : M unit :=
  match repositories with
  | [] => ret tt
  | repo :: rest =>
      print (LProcessing i total (owner repo) (name repo)) ;;
      guarded
        (backfill_repository fuel (owner repo) (name repo) (workspace repo) ;;
         if (i <? total)%nat then sleep 2000 else ret tt)
        (fun e =>
           match e with
           | KeyboardInterrupt => print LInterrupted
           | Exception _ =>
               count_error (LRepoFailed (owner repo) (name repo) e) ;;
               process_repositories fuel (S i) total rest
           end)
        (fun _ => process_repositories fuel (S i) total rest)
  end.

(** The final row count of [github_events_cache]. *)
Definition count_all : M nat :=
  db_call CountAll ;;
  gets (fun s => List.length (session s)).

Definition run_backfill (fuel : nat) (workspace_id : option string) : M unit :=
  print LStarting ;;
  print (LPeriod backfill_days) ;;
  repositories <- get_workspace_repositories workspace_id ;;
  match repositories with
  | [] => print LNoRepositories
  | _ =>
      print (LFoundRepos (List.length repositories)) ;;
      start_time <- datetime_now ;;
      process_repositories fuel 1 (List.length repositories) repositories ;;
      end_time <- datetime_now ;;
      print (LComplete (end_time - start_time)) ;;
      st <- gets stats ;;
      print (LReposProcessed (repos_processed st)) ;;
      print (LEventsFetched (events_fetched st)) ;;
      print (LEventsInserted (events_inserted st)) ;;
      print (LApiCalls (api_calls st)) ;;
      print (LErrors (errors st)) ;;
      total_events <- count_all ;;
      print (LTotal total_events)
  end.

(** *** close and main *)

Definition close : M unit := db_call Close.

(** [sys.argv[1]] when there is one. *)
Definition argv_workspace (argv : list string) : option string :=
  match argv with
  | _ :: w :: _ => Some w
  | _ => None
  end.

Definition main (fuel : nat) (cfg : Config) (argv : list string) : M Z :=
  let workspace_id := argv_workspace argv in
  (match workspace_id with
   | Some w => print (LScopeWorkspace w)
   | None => print LScopeAll
   end) ;;
  init cfg ;;
  returned <-
    try_finally
      (guarded (run_backfill fuel workspace_id)
         (except_Exception (fun e => print (LFatal e) ;; ret (Some 1)))
         (fun _ => ret None))
      close ;;
  match returned with
  | Some code => ret code
  | None => ret 0
  end.

End Backfill.

(** The status the process ends with under [sys.exit(main())]: the value
    [main] returns; 1 when an [Exception] escapes; 130 when the interpreter
    is ended by a keyboard interrupt; none while the run has not ended. *)
Definition exit_status (o : Outcome Z) : option Z :=
  match o with
  | Val code _ => Some code
  | Raised (Exception _) _ => Some 1
  | Raised KeyboardInterrupt _ => Some 130
  | OutOfFuel _ => None
  end.

(* ===================================================================== *)
(** ** Notions used in the statements *)
(* ===================================================================== *)

(** The longest prefix whose elements pass the test. *)
Fixpoint take_while {A} (f : A -> bool) (l : list A) : list A :=
  match l with
  | [] => []
  | x :: rest => if f x then x :: take_while f rest else []
  end.

(** The event has a readable timestamp that is not before the cutoff. *)
Definition in_window (env : Env) (cutoff_date : Z) (event : RawEvent) : bool :=
  match event_date env (ev_created_at event) with
  | Some d => cutoff_date <=? d
  | None => false
  end.

(** The event is readable and before the cutoff. *)
Definition before_cutoff (env : Env) (cutoff_date : Z) (event : RawEvent) : Prop :=
  exists d, event_date env (ev_created_at event) = Some d /\ d < cutoff_date.

(** The raw records an exchange delivered to the script: the body of a
    200 response. *)
Definition outcome_records (out : HttpOutcome) : list RawEvent :=
  match out with
  | HttpReturns r =>
      if status_code r =? 200 then
        match body r with Some l => l | None => [] end
      else []
  | HttpRaises _ => []
  end.

Definition page_records (x : Exchange) : list RawEvent :=
  outcome_records (x_outcome x).

Definition received (xs : list Exchange) : list RawEvent :=
  flat_map page_records xs.

(** What the loop holds of [records] on top of [events]: the relevant
    events of the longest prefix that is in the window. *)
Definition kept (env : Env) (cutoff_date : Z) (events records : list RawEvent)
  : list RawEvent :=
  events ++ filter (fun e => relevant (ev_type e))
                   (take_while (in_window env cutoff_date) records).

(** The exchange that a request for [page] made in state [s] is. *)
Definition exchange_at (env : Env) (o n : string) (page : nat) (s : State)
  : Exchange :=
  mkExchange o n page 100
    (requests_get env o n page 100 (List.length (exchanges s))).

(** The state once that request has been answered and counted. *)
Definition answered (env : Env) (o n : string) (page : nat) (s : State)
  : State :=
  set_stats (add_api_calls 1)
    (set_exchanges (fun l => l ++ [exchange_at env o n page s]) s).

(** The state once a 403 answer has been reported. *)
Definition refused (env : Env) (o n : string) (page : nat) (s : State)
  : State :=
  set_console (fun c => c ++ [LRateLimited o n]) (answered env o n page s).

(** [max(0, reset_time - int(time.time()) + 60)] in state [s]. *)
Definition wait_time_at (reset_time : Z) (s : State) : Z :=
  Z.max 0 (reset_time - Z.quot (clock s) 1000 + 60).

(** The state after the wait. *)
Definition waited (wait_time : Z) (s : State) : State :=
  set_clock (fun t => t + wait_time * 1000)
    (set_console (fun c => c ++ [LWaiting wait_time]) s).

(** The events of a scan, however it ended. *)
Definition scan_events (sc : Scan) : list RawEvent :=
  match sc with
  | ScanEnd events => events
  | ScanCutoff events => events
  | ScanRaised _ events => events
  end.

(** The environment never raises [KeyboardInterrupt]. *)
Definition calm (env : Env) : Prop :=
  (forall o n page per_page k,
      requests_get env o n page per_page k <> HttpRaises KeyboardInterrupt)
  /\ (forall c k, db_fault env c k <> Some KeyboardInterrupt).

(** The exceptions that can occur in [env]. *)
Definition possible (env : Env) (e : exn) : Prop :=
  e = KeyboardInterrupt -> ~ calm env.

(** The exceptions no [except Exception] stops. *)
Definition interrupted (env : Env) (e : exn) : Prop :=
  e = KeyboardInterrupt /\ ~ calm env.

(** The feed never answers 403. *)
Definition never_403 (env : Env) : Prop :=
  forall o n page per_page k r,
    requests_get env o n page per_page k = HttpReturns r ->
    status_code r <> 403.

(** A turn of the paging loop that goes on, goes on to the next page --
    with a feed that never answers 403. *)
Definition advances (env : Env) (page : nat) (c : Ctl) : Prop :=
  never_403 env ->
  forall page' events', c = Continue page' events' -> page' = S page.

(** The feed sends at most [per_page] records in a page. *)
Definition honours_per_page (env : Env) : Prop :=
  forall o n page k r l,
    requests_get env o n page 100 k = HttpReturns r ->
    body r = Some l ->
    (List.length l <= 100)%nat.

(** A request of the paging loop for repository [o/n], from [page] on. *)
Definition request_ok (o n : string) (page : nat) (x : Exchange) : Prop :=
  x_owner x = o /\ x_name x = n /\ x_per_page x = 100%nat
  /\ (page <= x_page x <= 10)%nat.

(** The feed serves [pages] to repository [o/n], page [i] at whatever
    moment it is asked for. *)
Definition serves (env : Env) (o n : string) (pages : list (list RawEvent))
  : Prop :=
  forall i p k,
    nth_error pages i = Some p ->
    exists r,
      requests_get env o n (S i) 100 k = HttpReturns r
      /\ status_code r = 200 /\ body r = Some p.

(** The repository as the console names it. *)
Definition repo_id_of (r : RepositoryTarget) : string * string :=
  (owner r, name r).

(** Calls of kind [c] on the database never raise. *)
Definition never_faults (env : Env) (c : DbCall) : Prop :=
  forall k, db_fault env c k = None.

(** [__init__] accepts the configuration. *)
Definition valid_config (cfg : Config) : bool :=
  negb (unset (SUPABASE_URL cfg) || unset (SUPABASE_DB_PASSWORD cfg))
  && negb (bad_token (GITHUB_TOKEN cfg)).


(** The three lines that report a caught exception together with
    [errors += 1]. *)
Definition loud (l : Line) : bool :=
  match l with
  | LFetchError _ _ _ | LInsertError _ _ | LRepoFailed _ _ _ => true
  | _ => false
  end.

Definition err_lines (c : list Line) : nat := List.length (filter loud c).

(** The repositories the console shows as taken up by the main loop. *)
Definition attempt (l : Line) : list (string * string) :=
  match l with
  | LProcessing _ _ o n => [(o, n)]
  | _ => []
  end.

Definition attempted (c : list Line) : list (string * string) :=
  flat_map attempt c.

(** Every other line. *)
Definition plain (l : Line) : bool :=
  negb (loud l) && match attempt l with [] => true | _ => false end.

(** [r'] is the row [r], possibly touched by the conflict clause. *)
Definition same_event (r r' : CacheRow) : Prop :=
  event_id r' = event_id r /\ created_at r' = created_at r
  /\ event_type r' = event_type r /\ actor_login r' = actor_login r
  /\ repository_owner r' = repository_owner r
  /\ repository_name r' = repository_name r
  /\ payload r' = payload r.

(** Every row of [t] is still in [t']. *)
Definition table_le (t t' : Table) : Prop :=
  forall r, In r t -> exists r', In r' t' /\ same_event r r'.

(** *** A relational program logic

    [sat R Q E F m]: from any state [s], [m] ends in a state related to [s]
    by [R]; a value it returns satisfies [Q], an exception it raises
    satisfies [E], and it runs out of fuel only if [F]. *)
Definition sat {A} (R : State -> State -> Prop) (Q : A -> Prop)
  (E : exn -> Prop) (F : Prop) (m : M A) : Prop :=
  forall s,
    match m s with
    | Val a s' => R s s' /\ Q a
    | Raised e s' => R s s' /\ E e
    | OutOfFuel s' => R s s' /\ F
    end.

Definition any {A} : A -> Prop := fun _ => True.
Definition none {A} : A -> Prop := fun _ => False.

(** What a relation must tolerate to hold across the steps every method
    makes: the plain prints, an error report with its count, a sleep. *)
Record StableCommon (R : State -> State -> Prop) : Prop := {
  sc_refl : forall s, R s s;
  sc_trans : forall a b c, R a b -> R b c -> R a c;
  sc_print : forall l s,
      plain l = true -> R s (set_console (fun c => c ++ [l]) s);
  sc_error : forall l s,
      loud l = true ->
      R s (set_stats (add_errors 1) (set_console (fun c => c ++ [l]) s));
  sc_sleep : forall ms s, R s (set_clock (fun t => t + ms) s)
}.

(** ... across the steps of the paging loop, *)
Record StableCursor (R : State -> State -> Prop) : Prop := {
  sc_api_calls : forall s, R s (set_stats (add_api_calls 1) s);
  sc_events_fetched : forall k s, R s (set_stats (add_events_fetched k) s);
  sc_exchange : forall x s, R s (set_exchanges (fun l => l ++ [x]) s)
}.

(** ... across the steps of the writer, *)
Record StableWriter (R : State -> State -> Prop) : Prop := {
  sc_db_call : forall s, R s (set_db_calls S s);
  sc_upsert : forall now row s, R s (set_session (upsert now row) s);
  sc_events_inserted : forall s, R s (set_stats (add_events_inserted 1) s);
  sc_commit : forall s, R s (set_committed (fun _ => session s) s);
  sc_rollback : forall s, R s (set_session (fun _ => committed s) s)
}.

(** ... and across the count of a finished repository. *)
Record StableRepo (R : State -> State -> Prop) : Prop := {
  sc_repos_processed : forall s, R s (set_stats (add_repos_processed 1) s)
}.

(** The relation that says nothing. *)
Definition anywhere : State -> State -> Prop := fun _ _ => True.

(** The [errors] counter moves with the error lines on the console. *)
Definition accounted (s s' : State) : Prop :=
  (errors (stats s') + err_lines (console s)
   = errors (stats s) + err_lines (console s'))%nat.

(** No repository is taken up. *)
Definition same_attempts (s s' : State) : Prop :=
  attempted (console s') = attempted (console s).

(** Nothing committed is lost: as long as the session holds every
    committed row, it goes on doing so and the committed rows stay. *)
Definition store_grows (s s' : State) : Prop :=
  table_le (committed s) (session s) ->
  table_le (committed s') (session s')
  /\ table_le (committed s) (committed s').

(** [repos_processed] is left alone. *)
Definition same_repos_processed (s s' : State) : Prop :=
  repos_processed (stats s') = repos_processed (stats s).

(** *** Further notions: dictionaries, exchanges, the session *)

(** [d.get(k)]. *)
Definition dict_get (k : string) (d : dict) : option json :=
  match find (fun kv => String.eqb (fst kv) k) d with
  | Some kv => Some (snd kv)
  | None => None
  end.

Definition dict_keys (d : dict) : list string := map fst d.

(** The event without its ["payload"] key. *)
Definition without_payload (event : RawEvent) : RawEvent :=
  {| ev_id := ev_id event; ev_type := ev_type event;
     ev_created_at := ev_created_at event; ev_actor := ev_actor event;
     ev_repo := ev_repo event; ev_public := ev_public event;
     ev_action := ev_action event; ev_payload := None |}.

(** The request got a response (of whatever status). *)
Definition is_answered (x : Exchange) : bool :=
  match x_outcome x with
  | HttpReturns _ => true
  | HttpRaises _ => false
  end.

Definition answered_count (xs : list Exchange) : nat :=
  List.length (filter is_answered xs).

(** A response after which the loop simply ends: a status other than 200
    and 403, or a 200 with an empty page. *)
Definition ends_feed (r : Response) : Prop :=
  status_code r <> 403
  /\ (status_code r <> 200 \/ body r = Some []).

(** Both tables hold every key once. *)
Definition unique_keys (s : State) : Prop :=
  NoDup (keys (session s)) /\ NoDup (keys (committed s)).

Definition keeps_unique_keys (s s' : State) : Prop :=
  unique_keys s -> unique_keys s'.

(** The database side of the state is as it was. *)
Definition db_untouched (s s' : State) : Prop :=
  session s' = session s /\ committed s' = committed s
  /\ db_calls s' = db_calls s
  /\ events_inserted (stats s') = events_inserted (stats s)
  /\ repos_processed (stats s') = repos_processed (stats s).

(** The feed side of the state is as it was. *)
Definition feed_untouched (s s' : State) : Prop :=
  exchanges s' = exchanges s
  /\ api_calls (stats s') = api_calls (stats s)
  /\ events_fetched (stats s') = events_fetched (stats s).

(** No transaction is left open: where the session and the committed
    table agreed, they agree again. *)
Definition in_sync (s s' : State) : Prop :=
  session s = committed s -> session s' = committed s'.

(* ===================================================================== *)
(** ** Concrete worlds used by the examples *)
(* ===================================================================== *)

Module Demo.

Local Open Scope string_scope.

(** 2024-06-15T00:00:00Z, in milliseconds. *)
Definition t_now : Z := 1718409600000.
(** 2024-06-10T12:00:00Z: inside a 30-day window ending at [t_now]. *)
Definition t_recent : Z := 1718020800000.
(** 2024-04-01T12:00:00Z: before the window. *)
Definition t_old : Z := 1711972800000.

Definition recent : string := "2024-06-10T12:00:00Z".
Definition old : string := "2024-04-01T12:00:00Z".

Definition dates (s : string) : option Z :=
  if String.eqb s recent then Some t_recent
  else if String.eqb s old then Some t_old
  else None.

Definition octocat : Actor := mkActor 583231 "octocat" "https://avatars/u/583231".

Definition event (id ty created full_name : string) : RawEvent :=
  {| ev_id := id; ev_type := ty; ev_created_at := created;
     ev_actor := octocat;
     ev_repo := mkRepo 1296269 full_name "https://api.github.com/repos/x";
     ev_public := true;
     ev_action := None;
     ev_payload := Some [("action", JStr "started")] |}.

Definition ok (page : list RawEvent) : HttpOutcome :=
  HttpReturns (mkResponse 200 None (Some page)).

Definition status (code : Z) (reset : option (option Z)) : HttpOutcome :=
  HttpReturns (mkResponse code reset None).

(** An environment with the given feed and database faults. *)
Definition world
  (feed : string -> string -> nat -> nat -> nat -> HttpOutcome)
  (faults : DbCall -> nat -> option exn)
  (repos : option string -> list RepositoryTarget) : Env :=
  {| requests_get := feed;
     db_fault := faults;
     directory := repos;
     event_date := dates;
     isoformat_utc := fun _ => "2024-06-15T00:00:00+00:00";
     isoformat_local := fun _ => "2024-06-15T00:00:00";
     processed_at_default := fun now => Some now |}.

Definition no_faults : DbCall -> nat -> option exn := fun _ _ => None.
Definition no_repos : option string -> list RepositoryTarget := fun _ => [].

(** A feed that answers every request with the same outcome. *)
Definition always (out : HttpOutcome)
  : string -> string -> nat -> nat -> nat -> HttpOutcome :=
  fun _ _ _ _ _ => out.

(** A feed that serves the given pages, and an empty page after them. *)
Definition paged (pages : list (list RawEvent))
  : string -> string -> nat -> nat -> nat -> HttpOutcome :=
  fun _ _ page _ _ => ok (nth (page - 1) pages []).

Definition start (t : Table) : State :=
  {| stats := zero_stats; clock := t_now; exchanges := []; db_calls := 0;
     session := t; committed := t; console := [] |}.

Definition config : Config :=
  mkConfig (Some "https://abc.supabase.co") (Some "secret") (Some "ghp_token").

Definition watch1 : RawEvent := event "e1" "WatchEvent" recent "octo/hello".
Definition push2 : RawEvent := event "e2" "PushEvent" recent "octo/hello".
Definition fork3 : RawEvent := event "e3" "ForkEvent" recent "octo/hello".
Definition stale4 : RawEvent := event "e4" "WatchEvent" old "octo/hello".

(** Events whose repository name has no slash, and two. *)
Definition unsplit : RawEvent := event "e8" "WatchEvent" recent "octohello".
Definition nested : RawEvent := event "e9" "WatchEvent" recent "octo/hello/extra".

(** A feed of one page: a watch, a push, a fork, and an event from before
    the window. *)
Definition w_mixed : Env :=
  world (paged [[watch1; push2; fork3; stale4]]) no_faults no_repos.

(** A feed of one page: a watch, a push, and an event from before the
    window. *)
Definition w_push : Env :=
  world (paged [[watch1; push2; stale4]]) no_faults no_repos.

(** A feed of two pages, the cutoff on the second. *)
Definition w_two_pages : Env :=
  world (paged [[watch1; push2]; [fork3; stale4; watch1]]) no_faults no_repos.

(** A feed without end: every page holds one recent watch. *)
Definition w_endless : Env :=
  world (always (ok [watch1])) no_faults no_repos.

(** A feed with nothing. *)
Definition w_empty : Env := world (paged []) no_faults no_repos.

(** A feed that answers 403 every time, with the given reset time. *)
Definition w_refused (reset_time : Z) : Env :=
  world (always (status 403 (Some (Some reset_time)))) no_faults no_repos.

(** A row stored by an earlier run for the key of [watch1]. *)
Definition stored : CacheRow :=
  {| event_id := "e1"; event_type := "WatchEvent"; actor_login := "hubot";
     repository_owner := "octo"; repository_name := "hello";
     payload := [("action", JStr "created")];
     created_at := recent;
     processing_notes := Some "Inserted by the webhook";
     processed_at := None |}.

(** Three repositories; the feed of the second raises on every request,
    the others have one recent event each. *)
Definition repo_a : RepositoryTarget := mkTarget "octo" "a" "team".
Definition repo_b : RepositoryTarget := mkTarget "octo" "b" "team".
Definition repo_c : RepositoryTarget := mkTarget "octo" "c" "team".

Definition feed_b_down
  : string -> string -> nat -> nat -> nat -> HttpOutcome :=
  fun _ n page _ _ =>
    if String.eqb n "b" then HttpRaises (Exception "ConnectionError")
    else if (page =? 1)%nat
         then ok [event ("e-" ++ n) "WatchEvent" recent ("octo/" ++ n)]
         else ok [].

Definition w_b_down : Env :=
  world feed_b_down no_faults (fun _ => [repo_a; repo_b; repo_c]).

(** A database on which every commit raises. *)
Definition commit_fails : DbCall -> nat -> option exn :=
  fun c _ => match c with
             | Commit => Some (Exception "OperationalError")
             | _ => None
             end.

Definition w_commit_fails : Env :=
  world (paged [[watch1]]) commit_fails (fun _ => [repo_a]).

(** The lookup raises. *)
Definition lookup_fails : DbCall -> nat -> option exn :=
  fun c _ => match c with
             | SelectRepositories => Some (Exception "OperationalError")
             | _ => None
             end.

Definition w_lookup_fails : Env :=
  world (paged [[watch1]]) lookup_fails (fun _ => [repo_a]).

(** A feed that answers 404. *)
Definition w_not_found : Env :=
  world (always (status 404 None)) no_faults no_repos.

(** A feed of one page, a recent watch and a recent push, and no more. *)
Definition w_one_page : Env :=
  world (paged [[watch1; push2]]) no_faults no_repos.

(** An operator who interrupts every request; two repositories. *)
Definition w_interrupted : Env :=
  world (always (HttpRaises KeyboardInterrupt)) no_faults
        (fun _ => [repo_a; repo_b]).

(** A database on which every INSERT raises. *)
Definition insert_fails : DbCall -> nat -> option exn :=
  fun c _ => match c with
             | InsertEvent => Some (Exception "OperationalError")
             | _ => None
             end.

Definition w_insert_fails : Env :=
  world (paged [[watch1]]) insert_fails (fun _ => [repo_a]).

(** A feed that serves one page and then loses the connection. *)
Definition feed_drops
  : string -> string -> nat -> nat -> nat -> HttpOutcome :=
  fun _ _ page _ _ =>
    if (page =? 1)%nat then ok [watch1; push2]
    else HttpRaises (Exception "ConnectionError").

Definition w_drops : Env := world feed_drops no_faults no_repos.

End Demo.

(* ===================================================================== *)
(** ** Strings *)
(* ===================================================================== *)

Lemma str_split_no_sep (sep : ascii) (m : nat) (s : string) :
  str_count sep s = 0%nat -> str_split sep m s = [s].
Proof.
  revert m. induction s as [|c rest IH]; intros m H; simpl in *.
  - reflexivity.
  - destruct m as [|m]; [reflexivity|].
    destruct (Ascii.eqb c sep); [discriminate|].
    rewrite (IH (S m) H). reflexivity.
Qed.

Lemma str_split_first_sep (sep : ascii) (s : string) :
  (0 < str_count sep s)%nat ->
  exists a b, str_split sep 1 s = [a; b]
              /\ s = (a ++ String sep b)%string
              /\ str_count sep a = 0%nat.
Proof.
  induction s as [|c rest IH]; simpl; intros H.
  - lia.
  - destruct (Ascii.eqb c sep) eqn:E.
    + apply Ascii.eqb_eq in E. subst c.
      exists EmptyString, rest. repeat split.
      destruct rest; reflexivity.
    + destruct (IH H) as (a & b & Hs & Hr & Ha).
      exists (String c a), b. rewrite Hs. simpl. rewrite E, Hr, Ha. auto.
Qed.

(* ===================================================================== *)
(** ** The table and its upsert *)
(* ===================================================================== *)

Lemma same_key_has_key (r row : CacheRow) :
  same_key r row = has_key (event_id row) (created_at row) r.
Proof. reflexivity. Qed.

Lemma has_key_true (id c : string) (r : CacheRow) :
  has_key id c r = true <-> (event_id r, created_at r) = (id, c).
Proof.
  unfold has_key. rewrite andb_true_iff, !String.eqb_eq.
  split; [intros [-> ->]; reflexivity | intros H; inversion H; auto].
Qed.

Lemma has_key_on_conflict_update (id c : string) (now : Z) (r : CacheRow) :
  has_key id c (on_conflict_update now r) = has_key id c r.
Proof. reflexivity. Qed.

Lemma has_key_absent (id c : string) (t : Table) :
  ~ In (id, c) (keys t) -> forall r, In r t -> has_key id c r = false.
Proof.
  intros Hn r Hr. destruct (has_key id c r) eqn:E; [|reflexivity].
  apply has_key_true in E. exfalso. apply Hn. rewrite <- E.
  unfold keys. apply (in_map (fun r => (event_id r, created_at r))), Hr.
Qed.

Lemma map_absent (id c : string) (now : Z) (t : Table) :
  ~ In (id, c) (keys t) ->
  map (fun r => if has_key id c r then on_conflict_update now r else r) t = t.
Proof.
  intros Hn. rewrite <- (map_id t) at 2. apply map_ext_in.
  intros r Hr. rewrite (has_key_absent id c t Hn r Hr). reflexivity.
Qed.

Lemma find_key_In (id c : string) (t : Table) (r : CacheRow) :
  find_key id c t = Some r -> In (id, c) (keys t).
Proof.
  intros H. apply find_some in H as [Hin Hk]. apply has_key_true in Hk.
  rewrite <- Hk. apply (in_map (fun r => (event_id r, created_at r))), Hin.
Qed.

(** On a key that is stored, and stored once, the statement rewrites that
    row in place and touches no other. *)
Lemma upsert_conflict (now : Z) (row : CacheRow) (t : Table) :
  NoDup (keys t) ->
  In (event_id row, created_at row) (keys t) ->
  upsert now row t =
  map (fun r => if has_key (event_id row) (created_at row) r
                then on_conflict_update now r else r) t.
Proof.
  induction t as [|r rest IH]; simpl; intros Hnd Hin.
  - contradiction.
  - inversion Hnd as [|k ks Hnotin Hnd']; subst.
    rewrite same_key_has_key.
    destruct (has_key (event_id row) (created_at row) r) eqn:E.
    + apply has_key_true in E. rewrite E in Hnotin.
      rewrite map_absent by exact Hnotin. reflexivity.
    + destruct Hin as [Hin|Hin].
      * apply has_key_true in Hin. congruence.
      * rewrite IH by assumption. reflexivity.
Qed.

Lemma count_key_map (id c : string) (now : Z) (t : Table) :
  count_key id c
    (map (fun r => if has_key id c r then on_conflict_update now r else r) t)
  = count_key id c t.
Proof.
  unfold count_key. induction t as [|r rest IH]; simpl; [reflexivity|].
  destruct (has_key id c r) eqn:E.
  - rewrite has_key_on_conflict_update, E. simpl. rewrite IH. reflexivity.
  - rewrite E. exact IH.
Qed.

Lemma count_key_NoDup (id c : string) (t : Table) :
  NoDup (keys t) -> In (id, c) (keys t) -> count_key id c t = 1%nat.
Proof.
  unfold count_key. induction t as [|r rest IH]; simpl; intros Hnd Hin.
  - contradiction.
  - inversion Hnd as [|k ks Hnotin Hnd']; subst.
    destruct (has_key id c r) eqn:E.
    + apply has_key_true in E. rewrite E in Hnotin. simpl.
      assert (H0 : filter (has_key id c) rest = []).
      { clear -Hnotin. induction rest as [|x xs IHx]; simpl; [reflexivity|].
        rewrite (has_key_absent id c (x :: xs) Hnotin x (or_introl eq_refl)).
        apply IHx. intros H. apply Hnotin. right. exact H. }
      rewrite H0. reflexivity.
    + destruct Hin as [Hin|Hin].
      * apply has_key_true in Hin. congruence.
      * apply IH; assumption.
Qed.

Lemma find_key_map (id c : string) (now : Z) (t : Table) :
  find_key id c
    (map (fun r => if has_key id c r then on_conflict_update now r else r) t)
  = option_map (on_conflict_update now) (find_key id c t).
Proof.
  unfold find_key. induction t as [|r rest IH]; simpl; [reflexivity|].
  destruct (has_key id c r) eqn:E.
  - rewrite has_key_on_conflict_update, E. reflexivity.
  - rewrite E. exact IH.
Qed.

Lemma find_key_map_other (id c id' c' : string) (now : Z) (t : Table) :
  (id', c') <> (id, c) ->
  find_key id' c'
    (map (fun r => if has_key id c r then on_conflict_update now r else r) t)
  = find_key id' c' t.
Proof.
  intros Hne. unfold find_key. induction t as [|r rest IH]; simpl; [reflexivity|].
  destruct (has_key id c r) eqn:E.
  - rewrite has_key_on_conflict_update.
    destruct (has_key id' c' r) eqn:E'.
    + apply has_key_true in E, E'. congruence.
    + exact IH.
  - destruct (has_key id' c' r); [reflexivity | exact IH].
Qed.

(* ===================================================================== *)
(** ** insert_event *)
(* ===================================================================== *)

Section InsertEvent.

Variable env : Env.

(** The write goes through: the name splits and the statement does not
    raise. *)
Lemma insert_event_written (event : RawEvent) (s : State) (a b : string) :
  str_split slash 1 (repo_name (ev_repo event)) = [a; b] ->
  db_fault env InsertEvent (db_calls s) = None ->
  insert_event env event s =
  Val true
    (set_stats (add_events_inserted 1)
       (set_session (upsert (clock s) (build_row env (clock s) event a b))
          (set_db_calls S s))).
Proof.
  intros Hsplit Hdb.
  cbv [insert_event guarded bind split_full_name execute_insert
       datetime_now gets db_call bump modify ret count_error print].
  rewrite Hsplit. cbv beta iota. rewrite Hdb. reflexivity.
Qed.

(** The name does not split in two: the handler counts an error and
    nothing is sent to the database. *)
Lemma insert_event_unsplit (event : RawEvent) (s : State) :
  str_count slash (repo_name (ev_repo event)) = 0%nat ->
  insert_event env event s =
  Val false
    (set_stats (add_errors 1)
       (set_console
          (fun c => c ++ [LInsertError (ev_id event) (Exception "ValueError")])
          s)).
Proof.
  intros H0.
  unfold insert_event, guarded, bind, split_full_name.
  rewrite (str_split_no_sep slash 1 _ H0). reflexivity.
Qed.

(** The statement raises. *)
Lemma insert_event_fault (event : RawEvent) (s : State) (a b : string) (e : exn) :
  str_split slash 1 (repo_name (ev_repo event)) = [a; b] ->
  db_fault env InsertEvent (db_calls s) = Some e ->
  insert_event env event s =
  if is_Exception e then
    Val false
      (set_stats (add_errors 1)
         (set_console (fun c => c ++ [LInsertError (ev_id event) e])
            (set_db_calls S s)))
  else Raised e (set_db_calls S s).
Proof.
  intros Hsplit Hdb.
  cbv [insert_event guarded bind split_full_name execute_insert
       datetime_now gets db_call bump modify ret count_error print].
  rewrite Hsplit. cbv beta iota. rewrite Hdb. destruct e; reflexivity.
Qed.

End InsertEvent.

(** C1. A write whose key [(event_id, created_at)] is already stored adds
    no row: the table keeps its length and holds the key once; the stored
    row gets the current time as [processed_at] and the marker
    ["; Updated from workspace backfill"] appended to its notes; its other
    columns, and every other row, stay as they were. *)
Theorem insert_event_on_conflict (env : Env) (event : RawEvent) (s : State)
    (old : CacheRow) :
  find_key (ev_id event) (ev_created_at event) (session s) = Some old ->
  NoDup (keys (session s)) ->
  (0 < str_count slash (repo_name (ev_repo event)))%nat ->
  db_fault env InsertEvent (db_calls s) = None ->
  exists s' new,
    insert_event env event s = Val true s'
    /\ List.length (session s') = List.length (session s)
    /\ count_key (ev_id event) (ev_created_at event) (session s') = 1%nat
    /\ find_key (ev_id event) (ev_created_at event) (session s') = Some new
    /\ processed_at new = Some (clock s)
    /\ processing_notes new =
       Some ((match processing_notes old with
              | Some n => n
              | None => EmptyString
              end) ++ "; Updated from workspace backfill")%string
    /\ payload new = payload old
    /\ actor_login new = actor_login old
    /\ event_type new = event_type old
    /\ repository_owner new = repository_owner old
    /\ repository_name new = repository_name old
    /\ created_at new = created_at old
    /\ event_id new = event_id old
    /\ (forall id c, (id, c) <> (ev_id event, ev_created_at event) ->
          find_key id c (session s') = find_key id c (session s))
    /\ committed s' = committed s.
Proof.
  intros Hfind Hnd Hslash Hdb.
  destruct (str_split_first_sep slash _ Hslash) as (a & b & Hsplit & _ & _).
  pose proof (find_key_In _ _ _ _ Hfind) as Hin.
  eexists. exists (on_conflict_update (clock s) old).
  split; [apply (insert_event_written env event s a b Hsplit Hdb)|].
  cbn [session committed set_stats set_session set_db_calls].
  rewrite (upsert_conflict (clock s) (build_row env (clock s) event a b)
             (session s) Hnd Hin).
  cbn [event_id created_at build_row].
  repeat split.
  - apply length_map.
  - rewrite count_key_map. apply count_key_NoDup; assumption.
  - rewrite find_key_map, Hfind. reflexivity.
  - intros id c Hne. apply find_key_map_other. exact Hne.
Qed.

(** C2, as far as the code goes: a record whose [repo.name] has no ['/']
    is rejected: [insert_event] answers [False], counts one error, and
    sends nothing to the database, so no row is written. *)
Theorem insert_event_rejects_unsplit (env : Env) (event : RawEvent)
    (s : State) :
  str_count slash (repo_name (ev_repo event)) = 0%nat ->
  exists s',
    insert_event env event s = Val false s'
    /\ errors (stats s') = S (errors (stats s))
    /\ events_inserted (stats s') = events_inserted (stats s)
    /\ session s' = session s
    /\ committed s' = committed s
    /\ db_calls s' = db_calls s.
Proof.
  intros H0. eexists. split; [apply insert_event_unsplit, H0|].
  cbn. repeat split. lia.
Qed.

(* ===================================================================== *)
(** ** Rules of the program logic *)
(* ===================================================================== *)

Section Rules.

Variable R : State -> State -> Prop.
Hypothesis HR : StableCommon R.

Lemma sat_ret {A} (a : A) (Q : A -> Prop) E F :
  Q a -> sat R Q E F (ret a).
Proof. intros Hq s. split; [apply (sc_refl R HR) | exact Hq]. Qed.

Lemma sat_raise {A} (e : exn) (Q : A -> Prop) (E : exn -> Prop) F :
  E e -> sat R Q E F (raise e).
Proof. intros He s. split; [apply (sc_refl R HR) | exact He]. Qed.

Lemma sat_out_of_fuel {A} (Q : A -> Prop) E (F : Prop) :
  F -> sat R Q E F out_of_fuel.
Proof. intros Hf s. split; [apply (sc_refl R HR) | exact Hf]. Qed.

Lemma sat_gets {A} (f : State -> A) (Q : A -> Prop) E F :
  (forall s, Q (f s)) -> sat R Q E F (gets f).
Proof. intros Hq s. split; [apply (sc_refl R HR) | apply Hq]. Qed.

Lemma sat_modify (f : State -> State) (Q : unit -> Prop) E F :
  (forall s, R s (f s)) -> Q tt -> sat R Q E F (modify f).
Proof. intros Hf Hq s. split; [apply Hf | exact Hq]. Qed.

Lemma sat_bind {A B} (m : M A) (k : A -> M B) (Q1 : A -> Prop)
    (Q : B -> Prop) E F :
  sat R Q1 E F m ->
  (forall a, Q1 a -> sat R Q E F (k a)) ->
  sat R Q E F (bind m k).
Proof.
  intros Hm Hk s. unfold bind. specialize (Hm s).
  destruct (m s) as [a s1|e s1|s1]; try exact Hm.
  destruct Hm as [Hr Hq]. specialize (Hk a Hq s1).
  destruct (k a s1) as [b s2|e s2|s2]; destruct Hk as [Hr2 Hx];
    (split; [exact (sc_trans R HR _ _ _ Hr Hr2) | exact Hx]).
Qed.

Lemma sat_guarded {A B} (m : M A) (h : exn -> M B) (k : A -> M B)
    (Q1 : A -> Prop) (E1 : exn -> Prop) (Q : B -> Prop) E F :
  sat R Q1 E1 F m ->
  (forall e, E1 e -> sat R Q E F (h e)) ->
  (forall a, Q1 a -> sat R Q E F (k a)) ->
  sat R Q E F (guarded m h k).
Proof.
  intros Hm Hh Hk s. unfold guarded. specialize (Hm s).
  destruct (m s) as [a s1|e s1|s1]; try exact Hm; destruct Hm as [Hr Hq].
  - specialize (Hk a Hq s1).
    destruct (k a s1) as [b s2|e s2|s2]; destruct Hk as [Hr2 Hx];
      (split; [exact (sc_trans R HR _ _ _ Hr Hr2) | exact Hx]).
  - specialize (Hh e Hq s1).
    destruct (h e s1) as [b s2|e2 s2|s2]; destruct Hh as [Hr2 Hx];
      (split; [exact (sc_trans R HR _ _ _ Hr Hr2) | exact Hx]).
Qed.

Lemma sat_weaken {A} (m : M A) (Q Q' : A -> Prop) (E E' : exn -> Prop)
    (F F' : Prop) :
  sat R Q E F m ->
  (forall a, Q a -> Q' a) -> (forall e, E e -> E' e) -> (F -> F') ->
  sat R Q' E' F' m.
Proof.
  intros Hm Hq He Hf s. specialize (Hm s).
  destruct (m s); destruct Hm; split; auto.
Qed.

Lemma sat_print (l : Line) (Q : unit -> Prop) E F :
  plain l = true -> Q tt -> sat R Q E F (print l).
Proof. intros Hl Hq. apply sat_modify; [intros s; apply (sc_print R HR), Hl | exact Hq]. Qed.

Lemma sat_count_error (l : Line) (Q : unit -> Prop) E F :
  loud l = true -> Q tt -> sat R Q E F (count_error l).
Proof. intros Hl Hq s. split; [apply (sc_error R HR), Hl | exact Hq]. Qed.

Lemma sat_sleep (ms : Z) (Q : unit -> Prop) E F :
  Q tt -> sat R Q E F (sleep ms).
Proof. intros Hq. apply sat_modify; [intros s; apply (sc_sleep R HR) | exact Hq]. Qed.

(** [except Exception as e: body]: what is not caught is an interrupt. *)
Lemma sat_except_Exception {A} (env : Env) (body : exn -> M A)
    (Q : A -> Prop) (E : exn -> Prop) F (e : exn) :
  possible env e ->
  (forall e', interrupted env e' -> E e') ->
  (forall e', sat R Q E F (body e')) ->
  sat R Q E F (except_Exception body e).
Proof.
  intros He HE Hb. unfold except_Exception.
  destruct e as [cls|]; cbn [is_Exception]; [apply Hb|].
  apply sat_raise, HE. split; [reflexivity | exact (He eq_refl)].
Qed.

End Rules.

Lemma possible_Exception (env : Env) (cls : string) :
  possible env (Exception cls).
Proof. intros H. discriminate. Qed.

Lemma interrupted_possible (env : Env) (e : exn) :
  interrupted env e -> possible env e.
Proof. intros [_ H] _. exact H. Qed.

Lemma interrupted_calm (env : Env) (e : exn) :
  calm env -> ~ interrupted env e.
Proof. intros Hc [_ H]. exact (H Hc). Qed.

Lemma possible_calm (env : Env) (e : exn) :
  calm env -> possible env e -> exists cls, e = Exception cls.
Proof.
  intros Hc Hp. destruct e as [cls|]; [eauto|]. exfalso. exact (Hp eq_refl Hc).
Qed.

(* ===================================================================== *)
(** ** Every method, under a stable relation *)
(* ===================================================================== *)

Lemma filter_page_raises (env : Env) (cutoff_date : Z)
    (page_events events events' : list RawEvent) (e : exn) :
  filter_page env cutoff_date events page_events = ScanRaised e events' ->
  e = Exception "ValueError".
Proof.
  revert events. induction page_events as [|x rest IH]; simpl; intros events H.
  - discriminate.
  - destruct (event_date env (ev_created_at x)) as [d|].
    + destruct (cutoff_date <=? d); [eapply IH; eassumption | discriminate].
    + inversion H. reflexivity.
Qed.

Section Methods.

Variable env : Env.
Variable R : State -> State -> Prop.
Hypothesis HR : StableCommon R.

Ltac sat_step :=
  lazymatch goal with
  | |- sat _ _ _ _ (ret _) => apply (sat_ret R HR)
  | |- sat _ _ _ _ (print _) => apply (sat_print R HR); [reflexivity|]
  | |- sat _ _ _ _ (count_error _) =>
      apply (sat_count_error R HR); [reflexivity|]
  | |- sat _ _ _ _ (sleep _) => apply (sat_sleep R HR)
  | |- sat _ _ _ _ (gets _) => apply (sat_gets R HR); intros ?
  | |- sat _ _ _ _ (raise (Exception _)) =>
      apply (sat_raise R HR); apply possible_Exception
  | |- sat _ _ _ _ (bind _ _) =>
      apply (sat_bind R HR) with (Q1 := any); [|intros ? _]
  | |- any _ => exact I
  end.

Ltac sat_auto := repeat sat_step.

Section Cursor.

Hypothesis HC : StableCursor R.

Lemma sat_http_get (o n : string) (page per_page : nat) (F : Prop) :
  sat R (fun r => exists k, requests_get env o n page per_page k = HttpReturns r)
      (possible env) F (http_get env o n page per_page).
Proof.
  intros s. unfold http_get.
  destruct (requests_get env o n page per_page (List.length (exchanges s)))
    as [e|r] eqn:H; (split; [apply (sc_exchange R HC)|]).
  - intros -> [Hc _]. exact (Hc _ _ _ _ _ H).
  - eauto.
Qed.

Lemma sat_bump_api_calls (Q : unit -> Prop) E F :
  Q tt -> sat R Q E F (bump add_api_calls 1).
Proof. intros Hq. apply (sat_modify R); [apply (sc_api_calls R HC) | exact Hq]. Qed.

Lemma sat_bump_events_fetched (k : nat) (Q : unit -> Prop) E F :
  Q tt -> sat R Q E F (bump add_events_fetched k).
Proof. intros Hq. apply (sat_modify R); [apply (sc_events_fetched R HC) | exact Hq]. Qed.

Lemma sat_except_fetch (o n : string) (events : list RawEvent) (e : exn)
    (Q : Ctl -> Prop) (F : Prop) :
  possible env e -> Q (Break events) ->
  sat R Q (interrupted env) F (except_fetch o n events e).
Proof.
  intros He Hq. unfold except_fetch.
  apply (sat_except_Exception R HR env); [exact He | auto |]. intros e'.
  apply (sat_bind R HR) with (Q1 := any); [|intros ? _]; sat_auto. exact Hq.
Qed.

Lemma sat_rate_limited (o n : string) (page : nat) (events : list RawEvent)
    (response : Response) (F : Prop) :
  sat R any (possible env) F (rate_limited o n page events response).
Proof.
  unfold rate_limited.
  apply (sat_bind R HR) with (Q1 := any); [sat_auto | intros ? _].
  destruct (rate_limit_reset response) as [h|]; [|sat_auto].
  apply (sat_bind R HR) with (Q1 := any); [|intros reset_time _].
  - unfold int_header. destruct h; sat_auto.
  - apply (sat_bind R HR) with (Q1 := any); [unfold time_time; sat_auto|].
    intros now _. cbv zeta.
    destruct (Z.max 0 (reset_time - now + 60) <? 3600); sat_auto.
Qed.

Lemma sat_fetch_page (o n : string) (cutoff_date : Z) (page : nat)
    (events : list RawEvent) (F : Prop) :
  sat R (advances env page) (interrupted env) F
      (fetch_page env o n cutoff_date page events).
Proof.
  assert (Hbreak : forall evs, advances env page (Break evs))
    by (intros evs _ p' e' H; discriminate).
  assert (Hret : forall evs, advances env page (Return evs))
    by (intros evs _ p' e' H; discriminate).
  unfold fetch_page. cbv zeta.
  eapply (sat_guarded R HR); [apply sat_http_get | |].
  { intros e He. apply sat_except_fetch; auto. }
  intros response [k Hk].
  apply (sat_guarded R HR) with (Q1 := any) (E1 := none);
    [apply sat_bump_api_calls; exact I | intros e [] | intros _ _].
  destruct (status_code response =? 404).
  { apply (sat_guarded R HR) with (Q1 := any) (E1 := none);
      [sat_auto | intros e [] | intros _ _]. sat_auto. apply Hbreak. }
  destruct (status_code response =? 403) eqn:E403.
  { apply (sat_guarded R HR) with (Q1 := any) (E1 := possible env).
    - apply sat_rate_limited.
    - intros e He. apply sat_except_fetch; auto.
    - intros c _. sat_auto. intros Hn. exfalso.
      apply (Hn _ _ _ _ _ _ Hk). apply Z.eqb_eq, E403. }
  destruct (negb (status_code response =? 200)).
  { apply (sat_guarded R HR) with (Q1 := any) (E1 := none);
      [sat_auto | intros e [] | intros _ _]. sat_auto. apply Hbreak. }
  apply (sat_guarded R HR) with (Q1 := any) (E1 := possible env).
  { unfold response_json. destruct (body response); sat_auto. }
  { intros e He. apply sat_except_fetch; auto. }
  intros page_events _.
  destruct page_events as [|x rest]; [sat_auto; apply Hbreak|].
  destruct (filter_page env cutoff_date events (x :: rest)) as [ev'|ev'|e ev'] eqn:Hscan.
  - apply (sat_guarded R HR) with (Q1 := any) (E1 := none);
      [sat_auto | intros e [] | intros _ _].
    sat_auto. intros _ p' e' H. inversion H. reflexivity.
  - apply (sat_guarded R HR) with (Q1 := any) (E1 := none);
      [ | intros e [] | intros _ _].
    + apply (sat_bind R HR) with (Q1 := any); [sat_auto | intros ? _].
      apply sat_bump_events_fetched. exact I.
    + sat_auto. apply Hret.
  - apply sat_except_fetch; [|apply Hbreak].
    rewrite (filter_page_raises _ _ _ _ _ _ Hscan). apply possible_Exception.
Qed.

Lemma sat_found (o n : string) (events : list RawEvent) (F : Prop) :
  sat R any (interrupted env) F (found o n events).
Proof.
  unfold found.
  apply (sat_bind R HR) with (Q1 := any);
    [apply sat_bump_events_fetched; exact I | intros ? _].
  sat_auto.
Qed.

(** With a feed that never answers 403, ten turns are enough. *)
Lemma sat_paging (fuel : nat) (o n : string) (cutoff_date : Z) (page : nat)
    (events : list RawEvent) :
  sat R any (interrupted env) (never_403 env -> (fuel + page < 11)%nat)
      (paging env fuel o n cutoff_date page events).
Proof.
  revert page events. induction fuel as [|fuel IH]; intros page events; simpl.
  - destruct (page <=? 10)%nat eqn:Hp.
    + apply (sat_out_of_fuel R HR). intros _. apply Nat.leb_le in Hp. lia.
    + apply sat_found.
  - destruct (page <=? 10)%nat eqn:Hp; [|apply sat_found].
    apply (sat_bind R HR) with (Q1 := advances env page).
    + apply sat_fetch_page.
    + intros [page' events'|events'|events'] Hadv.
      * eapply (sat_weaken R); [apply (IH page' events') | auto | auto |].
        intros Hf Hn. specialize (Hf Hn).
        rewrite (Hadv Hn page' events' eq_refl) in Hf. lia.
      * apply sat_found.
      * sat_auto.
Qed.

Lemma sat_get_repo_events (fuel : nat) (o n : string) (days_back : Z) :
  sat R any (interrupted env) (never_403 env -> (fuel < 10)%nat)
      (get_repo_events env fuel o n days_back).
Proof.
  unfold get_repo_events.
  apply (sat_bind R HR) with (Q1 := any); [sat_auto | intros ? _].
  apply (sat_bind R HR) with (Q1 := any); [unfold datetime_now; sat_auto|].
  intros now _. cbv zeta.
  eapply (sat_weaken R); [apply sat_paging | auto | auto |].
  intros Hf Hn. specialize (Hf Hn). lia.
Qed.

End Cursor.

Section Writer.

Hypothesis HW : StableWriter R.

Lemma sat_db_call (c : DbCall) (Q : unit -> Prop) (F : Prop) :
  Q tt -> sat R Q (possible env) F (db_call env c).
Proof.
  intros Hq s. unfold db_call. cbv zeta.
  destruct (db_fault env c (db_calls s)) as [e|] eqn:H;
    (split; [apply (sc_db_call R HW)|]).
  - intros -> [_ Hc]. exact (Hc _ _ H).
  - exact Hq.
Qed.

Lemma sat_execute_insert (row : CacheRow) (F : Prop) :
  sat R any (possible env) F (execute_insert env row).
Proof.
  unfold execute_insert.
  apply (sat_bind R HR) with (Q1 := any); [apply sat_db_call; exact I|].
  intros _ _.
  apply (sat_bind R HR) with (Q1 := any); [unfold datetime_now; sat_auto|].
  intros now _. apply (sat_modify R); [apply (sc_upsert R HW) | exact I].
Qed.

Lemma sat_commit (F : Prop) : sat R any (possible env) F (commit env).
Proof.
  intros s. unfold commit, bind, gets, modify.
  pose proof (sat_db_call Commit any F I s) as H.
  destruct (db_call env Commit s) as [[] s1|e s1|s1]; try exact H.
  destruct H as [H _]. split; [|exact I].
  exact (sc_trans R HR _ _ _ H (sc_commit R HW s1)).
Qed.

Lemma sat_rollback (F : Prop) : sat R any (possible env) F (rollback env).
Proof.
  intros s. unfold rollback, bind, gets, modify.
  pose proof (sat_db_call Rollback any F I s) as H.
  destruct (db_call env Rollback s) as [[] s1|e s1|s1]; try exact H.
  destruct H as [H _]. split; [|exact I].
  exact (sc_trans R HR _ _ _ H (sc_rollback R HW s1)).
Qed.

Lemma sat_insert_event (event : RawEvent) (F : Prop) :
  sat R any (interrupted env) F (insert_event env event).
Proof.
  unfold insert_event.
  apply (sat_guarded R HR) with (Q1 := any) (E1 := possible env).
  - apply (sat_bind R HR) with (Q1 := any).
    + unfold split_full_name.
      destruct (str_split slash 1 (repo_name (ev_repo event)))
        as [|a [|b [|c l]]]; sat_auto.
    + intros parts _.
      apply (sat_bind R HR) with (Q1 := any); [unfold datetime_now; sat_auto|].
      intros now _.
      apply (sat_bind R HR) with (Q1 := any); [apply sat_execute_insert|].
      intros _ _.
      apply (sat_bind R HR) with (Q1 := any); [|intros _ _; sat_auto].
      apply (sat_modify R); [apply (sc_events_inserted R HW) | exact I].
  - intros e He. apply (sat_except_Exception R HR env); [exact He | auto |].
    intros e'. sat_auto.
  - intros ok _. sat_auto.
Qed.

Lemma sat_except_insert (inserted_count failed_count : nat) (e : exn)
    (F : Prop) :
  possible env e ->
  sat R any (possible env) F (except_insert env inserted_count failed_count e).
Proof.
  intros He. unfold except_insert.
  apply (sat_except_Exception R HR env);
    [exact He | apply interrupted_possible |]. intros e'.
  apply (sat_bind R HR) with (Q1 := any); [sat_auto | intros _ _].
  apply (sat_bind R HR) with (Q1 := any); [apply sat_rollback | intros _ _].
  sat_auto.
Qed.

Lemma sat_insert_one (event : RawEvent) (inserted_count failed_count : nat)
    (F : Prop) :
  sat R any (possible env) F
      (insert_one env event inserted_count failed_count).
Proof.
  unfold insert_one.
  apply (sat_guarded R HR) with (Q1 := any) (E1 := interrupted env).
  - apply sat_insert_event.
  - intros e He. apply sat_except_insert, interrupted_possible, He.
  - intros [|] _.
    + apply (sat_guarded R HR) with (Q1 := any) (E1 := possible env).
      * apply (sat_bind R HR) with (Q1 := any); [apply sat_commit|].
        intros _ _. unfold show_progress.
        destruct (S inserted_count <=? 3)%nat; sat_auto.
      * intros e He. apply sat_except_insert, He.
      * intros _ _. sat_auto.
    + apply (sat_guarded R HR) with (Q1 := any) (E1 := possible env).
      * apply sat_rollback.
      * intros e He. apply sat_except_insert, He.
      * intros _ _. sat_auto.
Qed.

Lemma sat_insert_events (events : list RawEvent)
    (inserted_count failed_count : nat) (F : Prop) :
  sat R any (possible env) F
      (insert_events env events inserted_count failed_count).
Proof.
  revert inserted_count failed_count.
  induction events as [|event rest IH]; intros i f; simpl.
  - sat_auto.
  - apply (sat_bind R HR) with (Q1 := any); [apply sat_insert_one|].
    intros counts _. apply IH.
Qed.

End Writer.

Section Orchestrator.

Hypothesis HC : StableCursor R.
Hypothesis HW : StableWriter R.
Hypothesis HP : StableRepo R.

Lemma sat_backfill_repository (fuel : nat) (o n w : string) :
  sat R any (possible env) (never_403 env -> (fuel < 10)%nat)
      (backfill_repository env fuel o n w).
Proof.
  unfold backfill_repository.
  apply (sat_bind R HR) with (Q1 := any); [sat_auto | intros _ _].
  apply (sat_bind R HR) with (Q1 := any);
    [|intros events _].
  { eapply (sat_weaken R);
      [apply sat_get_repo_events, HC | auto | apply interrupted_possible | auto]. }
  destruct events as [|event rest]; [sat_auto|].
  apply (sat_bind R HR) with (Q1 := any);
    [apply sat_insert_events, HW | intros counts _].
  apply (sat_bind R HR) with (Q1 := any); [sat_auto | intros _ _].
  apply (sat_bind R HR) with (Q1 := any);
    [destruct (0 <? snd counts)%nat; sat_auto | intros _ _].
  apply (sat_modify R); [apply (sc_repos_processed R HP) | exact I].
Qed.

(** The body of the [try] in the main loop. *)
Lemma sat_attempt (fuel i total : nat) (repo : RepositoryTarget) :
  sat R any (possible env) (never_403 env -> (fuel < 10)%nat)
      (backfill_repository env fuel (owner repo) (name repo) (workspace repo) ;;
       if (i <? total)%nat then sleep 2000 else ret tt).
Proof.
  apply (sat_bind R HR) with (Q1 := any);
    [apply sat_backfill_repository | intros _ _].
  destruct (i <? total)%nat; sat_auto.
Qed.

(** The main loop never raises: its handlers catch everything.  It needs
    a relation that also tolerates the line that opens each turn. *)
Lemma sat_process_repositories (fuel i total : nat)
    (repositories : list RepositoryTarget) :
  (forall l s, attempt l <> [] -> R s (set_console (fun c => c ++ [l]) s)) ->
  sat R any none (never_403 env -> (fuel < 10)%nat)
      (process_repositories env fuel i total repositories).
Proof.
  intros Hline. revert i.
  induction repositories as [|repo rest IH]; intros i; simpl.
  - sat_auto.
  - apply (sat_bind R HR) with (Q1 := any).
    + apply (sat_modify R); [|exact I]. intros s. apply Hline. discriminate.
    + intros _ _.
      apply (sat_guarded R HR) with (Q1 := any) (E1 := possible env).
      * apply sat_attempt.
      * intros [cls|] _.
        -- apply (sat_bind R HR) with (Q1 := any); [sat_auto | intros _ _].
           apply IH.
        -- sat_auto.
      * intros _ _. apply IH.
Qed.

End Orchestrator.

End Methods.

(* ===================================================================== *)
(** ** The relations are stable *)
(* ===================================================================== *)

Lemma err_lines_snoc (c : list Line) (l : Line) :
  err_lines (c ++ [l]) = (err_lines c + (if loud l then 1 else 0))%nat.
Proof.
  unfold err_lines. rewrite filter_app, length_app. simpl.
  destruct (loud l); reflexivity.
Qed.

Lemma attempted_snoc (c : list Line) (l : Line) :
  attempted (c ++ [l]) = attempted c ++ attempt l.
Proof. unfold attempted. rewrite flat_map_app. simpl. rewrite app_nil_r. reflexivity. Qed.

Lemma plain_quiet (l : Line) : plain l = true -> loud l = false.
Proof. unfold plain. destruct (loud l); [discriminate | reflexivity]. Qed.

Lemma plain_no_attempt (l : Line) : plain l = true -> attempt l = [].
Proof.
  unfold plain. intros H. apply andb_true_iff in H as [_ H].
  destruct (attempt l); [reflexivity | discriminate].
Qed.

Lemma attempt_quiet (l : Line) : attempt l <> [] -> loud l = false.
Proof. destruct l; simpl; intros H; try reflexivity; contradiction. Qed.

Lemma loud_no_attempt (l : Line) : loud l = true -> attempt l = [].
Proof. destruct l; simpl; intros H; try reflexivity; discriminate. Qed.

(** *** The trivial relation *)

Lemma anywhere_common : StableCommon anywhere.
Proof. split; intros; exact I. Qed.
Lemma anywhere_cursor : StableCursor anywhere.
Proof. split; intros; exact I. Qed.
Lemma anywhere_writer : StableWriter anywhere.
Proof. split; intros; exact I. Qed.
Lemma anywhere_repo : StableRepo anywhere.
Proof. split; intros; exact I. Qed.

(** *** Error accounting *)

Lemma accounted_common : StableCommon accounted.
Proof.
  split; unfold accounted.
  - intros s. reflexivity.
  - intros a b c H1 H2. lia.
  - intros l s Hl. cbn [console stats set_console set_stats errors add_errors].
    rewrite err_lines_snoc, (plain_quiet l Hl). lia.
  - intros l s Hl. cbn [console stats set_console set_stats errors add_errors].
    rewrite err_lines_snoc, Hl. lia.
  - intros ms s. reflexivity.
Qed.

Lemma accounted_cursor : StableCursor accounted.
Proof. split; unfold accounted; intros; reflexivity. Qed.

Lemma accounted_writer : StableWriter accounted.
Proof. split; unfold accounted; intros; reflexivity. Qed.

Lemma accounted_repo : StableRepo accounted.
Proof. split; unfold accounted; intros; reflexivity. Qed.

Lemma accounted_attempt_line (l : Line) (s : State) :
  attempt l <> [] -> accounted s (set_console (fun c => c ++ [l]) s).
Proof.
  intros Hl. unfold accounted.
  cbn [console stats set_console set_stats errors add_errors].
  rewrite err_lines_snoc, (attempt_quiet l Hl). lia.
Qed.

(** *** Attempts *)

Lemma same_attempts_common : StableCommon same_attempts.
Proof.
  split; unfold same_attempts.
  - reflexivity.
  - intros a b c H1 H2. congruence.
  - intros l s Hl. cbn [console set_console set_stats].
    rewrite attempted_snoc, (plain_no_attempt l Hl). apply app_nil_r.
  - intros l s Hl. cbn [console set_console set_stats].
    rewrite attempted_snoc, (loud_no_attempt l Hl). apply app_nil_r.
  - reflexivity.
Qed.

Lemma same_attempts_cursor : StableCursor same_attempts.
Proof. split; unfold same_attempts; intros; reflexivity. Qed.

Lemma same_attempts_writer : StableWriter same_attempts.
Proof. split; unfold same_attempts; intros; reflexivity. Qed.

Lemma same_attempts_repo : StableRepo same_attempts.
Proof. split; unfold same_attempts; intros; reflexivity. Qed.

(** *** The store *)

Lemma same_event_refl (r : CacheRow) : same_event r r.
Proof. unfold same_event. repeat split. Qed.

Lemma same_event_trans (a b c : CacheRow) :
  same_event a b -> same_event b c -> same_event a c.
Proof.
  unfold same_event. intros (?&?&?&?&?&?&?) (?&?&?&?&?&?&?).
  repeat split; congruence.
Qed.

Lemma same_event_on_conflict (now : Z) (r : CacheRow) :
  same_event r (on_conflict_update now r).
Proof. unfold same_event. repeat split. Qed.

Lemma table_le_refl (t : Table) : table_le t t.
Proof. intros r Hr. exists r. split; [exact Hr | apply same_event_refl]. Qed.

Lemma table_le_trans (a b c : Table) :
  table_le a b -> table_le b c -> table_le a c.
Proof.
  intros H1 H2 r Hr. destruct (H1 r Hr) as (r1 & Hr1 & E1).
  destruct (H2 r1 Hr1) as (r2 & Hr2 & E2).
  exists r2. split; [exact Hr2 | exact (same_event_trans _ _ _ E1 E2)].
Qed.

Lemma table_le_upsert (now : Z) (row : CacheRow) (t : Table) :
  table_le t (upsert now row t).
Proof.
  induction t as [|x rest IH]; intros r Hr; simpl in *.
  - contradiction.
  - destruct (same_key x row).
    + destruct Hr as [<-|Hr].
      * exists (on_conflict_update now x).
        split; [left; reflexivity | apply same_event_on_conflict].
      * exists r. split; [right; exact Hr | apply same_event_refl].
    + destruct Hr as [<-|Hr].
      * exists x. split; [left; reflexivity | apply same_event_refl].
      * destruct (IH r Hr) as (r' & Hr' & E). exists r'. split; [right|]; assumption.
Qed.

Lemma store_grows_same (s s' : State) :
  session s' = session s -> committed s' = committed s -> store_grows s s'.
Proof.
  intros Hs Hc H. rewrite Hs, Hc. split; [exact H | apply table_le_refl].
Qed.

Lemma store_grows_common : StableCommon store_grows.
Proof.
  split; try (intros; apply store_grows_same; reflexivity).
  intros a b c H1 H2 H. destruct (H1 H) as [Hb Hab].
  destruct (H2 Hb) as [Hc Hbc]. split; [exact Hc|].
  exact (table_le_trans _ _ _ Hab Hbc).
Qed.

Lemma store_grows_cursor : StableCursor store_grows.
Proof. split; intros; apply store_grows_same; reflexivity. Qed.

Lemma store_grows_writer : StableWriter store_grows.
Proof.
  split; try (intros; apply store_grows_same; reflexivity).
  - intros now row s H. cbn. split; [|apply table_le_refl].
    exact (table_le_trans _ _ _ H (table_le_upsert now row (session s))).
  - intros s H. cbn. split; [apply table_le_refl | exact H].
  - intros s H. cbn. split; apply table_le_refl.
Qed.

Lemma store_grows_repo : StableRepo store_grows.
Proof. split; intros; apply store_grows_same; reflexivity. Qed.

(** *** repos_processed *)

Lemma same_repos_processed_common : StableCommon same_repos_processed.
Proof.
  split; unfold same_repos_processed; try (intros; reflexivity).
  intros a b c H1 H2. congruence.
Qed.

Lemma same_repos_processed_cursor : StableCursor same_repos_processed.
Proof. split; unfold same_repos_processed; intros; reflexivity. Qed.

Lemma same_repos_processed_writer : StableWriter same_repos_processed.
Proof. split; unfold same_repos_processed; intros; reflexivity. Qed.

(* ===================================================================== *)
(** ** get_repo_events, step by step *)
(* ===================================================================== *)

Section CursorSteps.

Variable env : Env.

Lemma kept_nil (cutoff_date : Z) (events : list RawEvent) :
  kept env cutoff_date events [] = events.
Proof. unfold kept. simpl. apply app_nil_r. Qed.

Lemma take_while_all {A} (f : A -> bool) (l : list A) :
  forallb f l = true -> take_while f l = l.
Proof.
  induction l as [|x rest IH]; simpl; [reflexivity|].
  intros H. apply andb_true_iff in H as [Hx Hr]. rewrite Hx, (IH Hr). reflexivity.
Qed.

Lemma take_while_app {A} (f : A -> bool) (l l' : list A) :
  forallb f l = true -> take_while f (l ++ l') = l ++ take_while f l'.
Proof.
  induction l as [|x rest IH]; simpl; [reflexivity|].
  intros H. apply andb_true_iff in H as [Hx Hr]. rewrite Hx, (IH Hr). reflexivity.
Qed.

Lemma take_while_stop {A} (f : A -> bool) (l l' : list A) (x : A) :
  forallb f l = true -> f x = false -> take_while f (l ++ x :: l') = l.
Proof.
  intros Hl Hx. rewrite take_while_app by exact Hl. simpl. rewrite Hx.
  apply app_nil_r.
Qed.

Lemma kept_cons_in (cutoff_date : Z) (events rest : list RawEvent)
    (x : RawEvent) :
  in_window env cutoff_date x = true ->
  kept env cutoff_date events (x :: rest)
  = kept env cutoff_date
      (if relevant (ev_type x) then events ++ [x] else events) rest.
Proof.
  intros H. unfold kept. simpl. rewrite H. simpl.
  destruct (relevant (ev_type x)); [|reflexivity].
  rewrite <- app_assoc. reflexivity.
Qed.

Lemma kept_cons_out (cutoff_date : Z) (events rest : list RawEvent)
    (x : RawEvent) :
  in_window env cutoff_date x = false ->
  kept env cutoff_date events (x :: rest) = events.
Proof. intros H. unfold kept. simpl. rewrite H. apply app_nil_r. Qed.

(** The [for] loop keeps the relevant events of the longest prefix in the
    window, and runs to the end only if the whole page is in the window. *)
Lemma filter_page_kept (cutoff_date : Z) (page_events events : list RawEvent) :
  scan_events (filter_page env cutoff_date events page_events)
  = kept env cutoff_date events page_events.
Proof.
  revert events. induction page_events as [|x rest IH]; intros events; simpl.
  - symmetry. apply kept_nil.
  - destruct (event_date env (ev_created_at x)) as [d|] eqn:Hd.
    + destruct (cutoff_date <=? d) eqn:Hc.
      * rewrite IH. symmetry. apply kept_cons_in. unfold in_window.
        rewrite Hd. exact Hc.
      * symmetry. apply kept_cons_out. unfold in_window. rewrite Hd. exact Hc.
    + symmetry. apply kept_cons_out. unfold in_window. rewrite Hd. reflexivity.
Qed.

Lemma filter_page_end (cutoff_date : Z)
    (page_events events events' : list RawEvent) :
  filter_page env cutoff_date events page_events = ScanEnd events' ->
  forallb (in_window env cutoff_date) page_events = true.
Proof.
  revert events. induction page_events as [|x rest IH]; intros events; simpl.
  - reflexivity.
  - unfold in_window at 1.
    destruct (event_date env (ev_created_at x)) as [d|]; [|discriminate].
    destruct (cutoff_date <=? d); [|discriminate].
    intros H. simpl. eapply IH, H.
Qed.

Lemma filter_page_all (cutoff_date : Z) (page_events events : list RawEvent) :
  forallb (in_window env cutoff_date) page_events = true ->
  filter_page env cutoff_date events page_events
  = ScanEnd (events ++ filter (fun e => relevant (ev_type e)) page_events).
Proof.
  revert events. induction page_events as [|x rest IH]; intros events; simpl.
  - rewrite app_nil_r. reflexivity.
  - unfold in_window at 1.
    destruct (event_date env (ev_created_at x)) as [d|]; [|discriminate].
    destruct (cutoff_date <=? d); [|discriminate]. simpl. intros H.
    rewrite (IH _ H). destruct (relevant (ev_type x)); [|reflexivity].
    rewrite <- app_assoc. reflexivity.
Qed.

Lemma filter_page_cutoff (cutoff_date : Z)
    (front back events : list RawEvent) (x : RawEvent) :
  forallb (in_window env cutoff_date) front = true ->
  before_cutoff env cutoff_date x ->
  filter_page env cutoff_date events (front ++ x :: back)
  = ScanCutoff (events ++ filter (fun e => relevant (ev_type e)) front).
Proof.
  intros Hf (d & Hd & Hlt). revert events Hf.
  induction front as [|y rest IH]; intros events; simpl.
  - intros _. rewrite Hd. destruct (cutoff_date <=? d) eqn:Hc.
    + apply Z.leb_le in Hc. lia.
    + rewrite app_nil_r. reflexivity.
  - unfold in_window at 1.
    destruct (event_date env (ev_created_at y)) as [dy|]; [|discriminate].
    destruct (cutoff_date <=? dy); [|discriminate]. simpl. intros H.
    rewrite (IH _ H). destruct (relevant (ev_type y)); [|reflexivity].
    rewrite <- app_assoc. reflexivity.
Qed.

End CursorSteps.

Section CursorTurn.

Variable env : Env.

Ltac turn_done := cbn; rewrite ?kept_nil; repeat split; auto.

(** One turn of the paging loop: it logs one exchange, and the events it
    passes on are those it held plus what it keeps of the records that
    came back. *)
Lemma fetch_page_post (o n : string) (cutoff_date : Z) (page : nat)
    (events : list RawEvent) (s : State) :
  let x := exchange_at env o n page s in
  let recs := page_records x in
  let out := fetch_page env o n cutoff_date page events s in
  exchanges (final out) = exchanges s ++ [x]
  /\ match out with
     | Val (Continue page' events') s' =>
         events' = kept env cutoff_date events recs
         /\ events_fetched (stats s') = events_fetched (stats s)
         /\ ((page' = page /\ recs = [])
             \/ (page' = S page
                 /\ forallb (in_window env cutoff_date) recs = true))
     | Val (Break events') s' =>
         events' = kept env cutoff_date events recs
         /\ events_fetched (stats s') = events_fetched (stats s)
     | Val (Return events') s' =>
         events' = kept env cutoff_date events recs
         /\ events_fetched (stats s')
            = (events_fetched (stats s) + List.length events')%nat
     | Raised e s' => True
     | OutOfFuel s' => False
     end.
Proof.
  cbv zeta. unfold page_records, exchange_at. cbn [x_outcome].
  unfold fetch_page, guarded, http_get. cbv zeta.
  destruct (requests_get env o n page 100 (List.length (exchanges s)))
    as [e|r] eqn:Hreq.
  { destruct e; turn_done. }
  cbn [bump modify outcome_records].
  destruct (Z.eqb_spec (status_code r) 404) as [H404|H404].
  { rewrite H404. turn_done. }
  destruct (Z.eqb_spec (status_code r) 403) as [H403|H403].
  { rewrite H403. unfold rate_limited.
    destruct (rate_limit_reset r) as [[reset|]|]; cbn; [| turn_done | turn_done].
    match goal with |- context [if ?b then _ else _] => destruct b end;
      turn_done. }
  destruct (Z.eqb_spec (status_code r) 200) as [H200|H200]; [|turn_done].
  cbn [negb]. unfold response_json.
  destruct (body r) as [[|x rest]|]; [turn_done | | turn_done].
  cbn [ret].
  pose proof (filter_page_kept env cutoff_date (x :: rest) events) as Hk.
  destruct (filter_page env cutoff_date events (x :: rest))
    as [ev'|ev'|e ev'] eqn:Hscan; cbn [scan_events] in Hk.
  - pose proof (filter_page_end env _ _ _ _ Hscan) as Hall. turn_done.
  - turn_done.
  - rewrite (filter_page_raises _ _ _ _ _ _ Hscan). turn_done.
Qed.

End CursorTurn.

Section CursorRun.

Variable env : Env.

Lemma kept_app (cutoff_date : Z) (events recs rest : list RawEvent) :
  forallb (in_window env cutoff_date) recs = true ->
  kept env cutoff_date (kept env cutoff_date events recs) rest
  = kept env cutoff_date events (recs ++ rest).
Proof.
  intros H. unfold kept.
  rewrite (take_while_app _ _ _ H), (take_while_all _ _ H), filter_app.
  apply eq_sym, app_assoc.
Qed.

Lemma records_bounded (o n : string) (page : nat) (s : State) :
  honours_per_page env ->
  (List.length (page_records (exchange_at env o n page s)) <= 100)%nat.
Proof.
  intros Hh. unfold page_records, exchange_at. cbn [x_outcome].
  destruct (requests_get env o n page 100 (List.length (exchanges s)))
    as [e|r] eqn:Hreq; simpl; [lia|].
  destruct (status_code r =? 200); [|simpl; lia].
  destruct (body r) as [l|] eqn:Hb; [|simpl; lia].
  exact (Hh _ _ _ _ _ _ Hreq Hb).
Qed.

Lemma request_ok_le (o n : string) (page page' : nat) (x : Exchange) :
  (page <= page')%nat -> request_ok o n page' x -> request_ok o n page x.
Proof. unfold request_ok. intros Hle (?&?&?&?). repeat split; auto; lia. Qed.

Lemma found_post (o n : string) (events : list RawEvent) (s : State) :
  exists s',
    found o n events s = Val events s'
    /\ exchanges s' = exchanges s
    /\ events_fetched (stats s')
       = (events_fetched (stats s) + List.length events)%nat.
Proof. eexists. split; [reflexivity|]. split; reflexivity. Qed.

(** The whole loop, however it ends: the requests it made are for pages
    [page..10] of the repository, 100 records each; the records that came
    back are at most 100 a page; and the list it returns is what it keeps
    of them, counted once in [events_fetched]. *)
Lemma paging_post (fuel : nat) (o n : string) (cutoff_date : Z) (page : nat)
    (events : list RawEvent) (s : State) :
  let out := paging env fuel o n cutoff_date page events s in
  exists new,
    exchanges (final out) = exchanges s ++ new
    /\ Forall (request_ok o n page) new
    /\ (honours_per_page env ->
        (List.length (received new) <= 100 * (11 - page))%nat)
    /\ match out with
       | Val events' s' =>
           events' = kept env cutoff_date events (received new)
           /\ events_fetched (stats s')
              = (events_fetched (stats s) + List.length events')%nat
       | _ => True
       end.
Proof.
  cbv zeta. revert page events s.
  assert (Hfound : forall page events s,
    exists new,
      exchanges (final (found o n events s)) = exchanges s ++ new
      /\ Forall (request_ok o n page) new
      /\ (honours_per_page env ->
          (List.length (received new) <= 100 * (11 - page))%nat)
      /\ match found o n events s with
         | Val events' s' =>
             events' = kept env cutoff_date events (received new)
             /\ events_fetched (stats s')
                = (events_fetched (stats s) + List.length events')%nat
         | _ => True
         end).
  { intros page events s. exists []. cbn. rewrite app_nil_r, kept_nil.
    repeat split; auto. intros _. lia. }
  induction fuel as [|fuel IH]; intros page events s; cbn [paging].
  - destruct (page <=? 10)%nat; [|apply Hfound].
    exists []. cbn. rewrite app_nil_r. repeat split; auto. intros _. lia.
  - destruct (page <=? 10)%nat eqn:Hp; [|apply Hfound].
    apply Nat.leb_le in Hp.
    pose proof (fetch_page_post env o n cutoff_date page events s) as Hturn.
    cbv zeta in Hturn. destruct Hturn as [Hx Hout].
    pose proof (records_bounded o n page s) as Hrec.
    set (x := exchange_at env o n page s) in *.
    assert (Hxok : request_ok o n page x)
      by (unfold request_ok, x, exchange_at; cbn; repeat split; auto; lia).
    unfold bind.
    destruct (fetch_page env o n cutoff_date page events s)
      as [[page' events'|events'|events'] s1|e s1|s1]; cbn [final] in Hx.
    + destruct Hout as (Hev & Hcount & Hnext).
      destruct (IH page' events' s1) as (new & Hnew & Hall & Hlen & Hval).
      assert (Hle : (page <= page')%nat) by (destruct Hnext as [[-> _]|[-> _]]; lia).
      exists (x :: new). split; [|split; [|split]].
      * rewrite Hnew, Hx, <- app_assoc. reflexivity.
      * constructor; [exact Hxok|].
        eapply Forall_impl; [|exact Hall]. intros y. apply request_ok_le, Hle.
      * intros Hh. specialize (Hlen Hh). specialize (Hrec Hh).
        unfold received in *. cbn [flat_map]. rewrite length_app.
        destruct Hnext as [[-> Hnil]|[-> _]]; [rewrite Hnil; cbn [List.length]|]; lia.
      * destruct (paging env fuel o n cutoff_date page' events' s1)
          as [evs s2|e2 s2|s2]; [|exact I|exact I].
        destruct Hval as [Hevs Hf]. split; [|lia].
        rewrite Hevs, Hev. unfold received. simpl.
        destruct Hnext as [[_ Hnil]|[_ Hall']].
        -- rewrite Hnil, kept_nil. reflexivity.
        -- apply kept_app, Hall'.
    + destruct Hout as (Hev & Hcount).
      destruct (found_post o n events' s1) as (s2 & Hf & Hx2 & Hc2).
      rewrite Hf. cbn [final]. exists [x]. split; [|split; [|split]].
      * rewrite Hx2, Hx. reflexivity.
      * constructor; [exact Hxok | constructor].
      * intros Hh. specialize (Hrec Hh). unfold received. cbn [flat_map].
        rewrite app_nil_r. lia.
      * unfold received. simpl. rewrite app_nil_r. split; [exact Hev | lia].
    + destruct Hout as (Hev & Hcount). cbn [final ret].
      exists [x]. split; [|split; [|split]].
      * exact Hx.
      * constructor; [exact Hxok | constructor].
      * intros Hh. specialize (Hrec Hh). unfold received. cbn [flat_map].
        rewrite app_nil_r. lia.
      * unfold received. simpl. rewrite app_nil_r. split; [exact Hev | exact Hcount].
    + cbn [final]. exists [x]. split; [exact Hx|]. split; [|split; [|exact I]].
      * constructor; [exact Hxok | constructor].
      * intros Hh. specialize (Hrec Hh). unfold received. cbn [flat_map].
        rewrite app_nil_r. lia.
    + contradiction.
Qed.

End CursorRun.

Section CursorResults.

Variable env : Env.

Lemma take_while_Forall {A} (f : A -> bool) (l : list A) :
  Forall (fun x => f x = true) (take_while f l).
Proof.
  induction l as [|x rest IH]; simpl; [constructor|].
  destruct (f x) eqn:E; constructor; assumption.
Qed.

Lemma take_while_length {A} (f : A -> bool) (l : list A) :
  (List.length (take_while f l) <= List.length l)%nat.
Proof.
  induction l as [|x rest IH]; simpl; [lia|].
  destruct (f x); simpl; lia.
Qed.

Lemma kept_length (cutoff_date : Z) (records : list RawEvent) :
  (List.length (kept env cutoff_date [] records) <= List.length records)%nat.
Proof.
  unfold kept. cbn [app].
  etransitivity; [apply filter_length_le | apply take_while_length].
Qed.

Lemma kept_retained (cutoff_date : Z) (records : list RawEvent) :
  Forall (fun e => in_window env cutoff_date e = true
                   /\ relevant (ev_type e) = true)
         (kept env cutoff_date [] records).
Proof.
  unfold kept. cbn [app]. apply Forall_forall. intros e He.
  apply filter_In in He as [Hin Hrel]. split; [|exact Hrel].
  pose proof (take_while_Forall (in_window env cutoff_date) records) as H.
  rewrite Forall_forall in H. apply H, Hin.
Qed.

(** [get_repo_events], however it ends. *)
Lemma get_repo_events_post (fuel : nat) (o n : string) (days_back : Z)
    (s : State) :
  let out := get_repo_events env fuel o n days_back s in
  exists new,
    exchanges (final out) = exchanges s ++ new
    /\ Forall (request_ok o n 1) new
    /\ (honours_per_page env -> (List.length (received new) <= 1000)%nat)
    /\ match out with
       | Val events s' =>
           events = kept env (clock s - days_back * day_ms) [] (received new)
           /\ events_fetched (stats s')
              = (events_fetched (stats s) + List.length events)%nat
       | _ => True
       end.
Proof.
  cbv zeta. unfold get_repo_events, bind, print, modify, datetime_now, gets.
  set (s0 := set_console (fun c => c ++ [LFetching o n]) s).
  destruct (paging_post env fuel o n (clock s0 - days_back * day_ms) 1 [] s0)
    as (new & Hx & Hall & Hlen & Hval).
  exists new. repeat split; try assumption.
Qed.

End CursorResults.

(** C10. What [get_repo_events] adds to [events_fetched] is the number of
    events it returns, and these are the retained ones: of the raw
    records the feed sent, the relevant events of the longest prefix inside
    the window.  Records dropped by the cutoff or by the type filter are
    not counted. *)
Theorem events_fetched_counts_retained (env : Env) (fuel : nat)
    (o n : string) (days_back : Z) (s s' : State) (events : list RawEvent) :
  get_repo_events env fuel o n days_back s = Val events s' ->
  let cutoff_date := clock s - days_back * day_ms in
  events_fetched (stats s')
  = (events_fetched (stats s) + List.length events)%nat
  /\ Forall (fun e => in_window env cutoff_date e = true
                      /\ relevant (ev_type e) = true) events
  /\ exists new,
       exchanges s' = exchanges s ++ new
       /\ events
          = filter (fun e => relevant (ev_type e))
              (take_while (in_window env cutoff_date) (received new))
       /\ (List.length events <= List.length (received new))%nat.
Proof.
  intros Hrun. cbv zeta.
  destruct (get_repo_events_post env fuel o n days_back s)
    as (new & Hx & _ & _ & Hval).
  rewrite Hrun in Hx, Hval. cbn [final] in Hx. destruct Hval as [Hev Hcount].
  split; [exact Hcount|]. split.
  - rewrite Hev. apply kept_retained.
  - exists new. split; [exact Hx|]. split; [exact Hev|].
    rewrite Hev. apply kept_length.
Qed.

(** With a calm environment and a feed that never answers 403, ten turns
    of fuel are enough: the cursor returns. *)
Lemma get_repo_events_returns (env : Env) (fuel : nat) (o n : string)
    (days_back : Z) (s : State) :
  never_403 env -> calm env -> (10 <= fuel)%nat ->
  exists events s', get_repo_events env fuel o n days_back s = Val events s'.
Proof.
  intros Hn Hc Hf.
  pose proof (sat_get_repo_events env anywhere anywhere_common anywhere_cursor
                fuel o n days_back s) as H.
  destruct (get_repo_events env fuel o n days_back s) as [events s'|e s'|s'].
  - eauto.
  - destruct H as [_ H]. exfalso. exact (interrupted_calm env e Hc H).
  - destruct H as [_ H]. specialize (H Hn). lia.
Qed.

Lemma distinct_pages_bound (o n : string) (new : list Exchange) :
  Forall (request_ok o n 1) new ->
  (List.length (nodup Nat.eq_dec (map x_page new)) <= 10)%nat.
Proof.
  intros Hall.
  change 10%nat with (List.length (seq 1 10)).
  apply NoDup_incl_length; [apply NoDup_nodup|].
  intros p Hp. apply nodup_In in Hp. apply in_map_iff in Hp as (x & <- & Hx).
  rewrite Forall_forall in Hall. destruct (Hall x Hx) as (_ & _ & _ & Hr).
  apply in_seq. lia.
Qed.

(** C5. Whatever the feed does and however long the run goes on, the
    requests of one call of [get_repo_events] are for pages 1 to 10, a
    hundred records each, so for at most ten distinct pages; with a feed
    that sends no more than the hundred records asked for, at most 10 x 100
    raw records come back, and no more can be returned.  A feed that never
    answers 403 -- one with pages without end, all recent, included --
    makes the call return within ten turns. *)
Theorem page_cap (env : Env) (fuel : nat) (o n : string) (days_back : Z)
    (s : State) :
  honours_per_page env ->
  let out := get_repo_events env fuel o n days_back s in
  exists new,
    exchanges (final out) = exchanges s ++ new
    /\ Forall (fun x => x_owner x = o /\ x_name x = n
                        /\ (1 <= x_page x <= 10)%nat
                        /\ x_per_page x = 100%nat) new
    /\ (List.length (nodup Nat.eq_dec (map x_page new)) <= 10)%nat
    /\ (List.length (received new) <= 10 * 100)%nat
    /\ (forall events s',
          out = Val events s' -> (List.length events <= 10 * 100)%nat)
    /\ (never_403 env -> calm env -> (10 <= fuel)%nat ->
        exists events s', out = Val events s').
Proof.
  intros Hh. cbv zeta.
  destruct (get_repo_events_post env fuel o n days_back s)
    as (new & Hx & Hall & Hlen & Hval).
  specialize (Hlen Hh).
  exists new. split; [exact Hx|]. split; [|split; [|split; [|split]]].
  - eapply Forall_impl; [|exact Hall].
    intros x (Ho & Hn & Hpp & Hp). auto.
  - exact (distinct_pages_bound o n new Hall).
  - exact Hlen.
  - intros events s' Hout. rewrite Hout in Hval. destruct Hval as [Hev _].
    rewrite Hev. etransitivity; [apply kept_length | exact Hlen].
  - intros Hn Hc Hf. apply get_repo_events_returns; assumption.
Qed.

Section CursorOnPages.

Variable env : Env.

(** A 200 answer with a page that is not empty. *)
Lemma fetch_page_200 (o n : string) (cutoff_date : Z) (page : nat)
    (events : list RawEvent) (s : State) (r : Response)
    (x : RawEvent) (rest : list RawEvent) :
  requests_get env o n page 100 (List.length (exchanges s)) = HttpReturns r ->
  status_code r = 200 ->
  body r = Some (x :: rest) ->
  fetch_page env o n cutoff_date page events s =
  match filter_page env cutoff_date events (x :: rest) with
  | ScanEnd events' =>
      Val (Continue (S page) events')
          (set_clock (fun t => t + 500) (answered env o n page s))
  | ScanCutoff events' =>
      Val (Return events')
          (set_stats (add_events_fetched (List.length events'))
             (set_console (fun c => c ++ [LReachedCutoff page])
                (answered env o n page s)))
  | ScanRaised e events' =>
      except_fetch o n events' e (answered env o n page s)
  end.
Proof.
  intros Hreq H200 Hbody.
  unfold fetch_page, guarded, http_get, answered, exchange_at. cbv zeta.
  rewrite Hreq. cbn [bump modify]. rewrite H200. cbn [Z.eqb Pos.eqb negb].
  unfold response_json. rewrite Hbody. cbn [ret].
  destruct (filter_page env cutoff_date events (x :: rest)); reflexivity.
Qed.

(** Pages of recent events, then a page with the first event that is too
    old: the loop returns at that event, with the relevant events before
    it, after one request per page. *)
Lemma paging_until_cutoff (o n : string) (cutoff_date : Z)
    (front back : list RawEvent) (x : RawEvent)
    (pages : list (list RawEvent)) :
  forall (fuel page : nat) (events : list RawEvent) (s : State),
    (forall i p k,
        nth_error (pages ++ [front ++ x :: back]) i = Some p ->
        exists r,
          requests_get env o n (page + i) 100 k = HttpReturns r
          /\ status_code r = 200 /\ body r = Some p) ->
    (page + List.length pages <= 10)%nat ->
    (List.length pages < fuel)%nat ->
    Forall (fun p => p <> []) pages ->
    forallb (in_window env cutoff_date) (List.concat pages ++ front) = true ->
    before_cutoff env cutoff_date x ->
    exists s',
      paging env fuel o n cutoff_date page events s
      = Val (events ++ filter (fun e => relevant (ev_type e))
                              (List.concat pages ++ front)) s'
      /\ List.length (exchanges s')
         = (List.length (exchanges s) + List.length pages + 1)%nat
      /\ api_calls (stats s')
         = (api_calls (stats s) + List.length pages + 1)%nat.
Proof.
  induction pages as [|p pages IH];
    intros fuel page events s Hserve Hcap Hfuel Hne Hwin Hold.
  - destruct fuel as [|fuel]; [simpl in Hfuel; lia|].
    cbn [paging]. simpl in Hcap.
    assert (Hp : (page <=? 10)%nat = true) by (apply Nat.leb_le; lia).
    rewrite Hp.
    destruct (Hserve 0%nat (front ++ x :: back) (List.length (exchanges s)) eq_refl)
      as (r & Hreq & H200 & Hbody).
    rewrite Nat.add_0_r in Hreq.
    assert (Hshape : exists y rest, front ++ x :: back = y :: rest)
      by (destruct front; simpl; eauto).
    destruct Hshape as (y & rest & Hshape). rewrite Hshape in Hbody.
    unfold bind.
    rewrite (fetch_page_200 o n cutoff_date page events s r y rest Hreq H200 Hbody).
    rewrite <- Hshape.
    simpl in Hwin.
    rewrite (filter_page_cutoff env cutoff_date front back events x Hwin Hold).
    eexists. split; [reflexivity|].
    unfold answered. cbn. rewrite length_app. simpl. split; lia.
  - destruct fuel as [|fuel]; [simpl in Hfuel; lia|].
    cbn [paging]. simpl in Hcap, Hfuel.
    assert (Hp : (page <=? 10)%nat = true) by (apply Nat.leb_le; lia).
    rewrite Hp.
    destruct (Hserve 0%nat p (List.length (exchanges s)) eq_refl)
      as (r & Hreq & H200 & Hbody).
    rewrite Nat.add_0_r in Hreq.
    inversion Hne as [|? ? Hp0 Hne']; subst.
    destruct p as [|y rest]; [contradiction|].
    cbn [List.concat] in Hwin. rewrite <- app_assoc in Hwin.
    rewrite forallb_app in Hwin. apply andb_true_iff in Hwin as [Hwp Hwrest].
    unfold bind.
    rewrite (fetch_page_200 o n cutoff_date page events s r y rest Hreq H200 Hbody).
    rewrite (filter_page_all env cutoff_date (y :: rest) events Hwp).
    set (s1 := set_clock (fun t => t + 500) (answered env o n page s)).
    destruct (IH fuel (S page)
                (events ++ filter (fun e => relevant (ev_type e)) (y :: rest)) s1)
      as (s' & Hrun & Hlen & Hapi); try assumption; try lia.
    { intros i q k Hq. destruct (Hserve (S i) q k Hq) as (r' & Hr' & H').
      exists r'. split; [|exact H'].
      replace (S page + i)%nat with (page + S i)%nat by lia. exact Hr'. }
    exists s'. split; [|split].
    + rewrite Hrun. f_equal. cbn [List.concat].
      rewrite <- (app_assoc (y :: rest)), (filter_app _ (y :: rest)).
      apply eq_sym, app_assoc.
    + rewrite Hlen. unfold s1, answered. cbn. rewrite length_app. simpl. lia.
    + rewrite Hapi. unfold s1, answered. cbn. lia.
Qed.

End CursorOnPages.

(** C3, as far as the code goes.  When the feed serves pages of events
    inside the window and then a page whose event N is the first before the
    cutoff -- within the ten pages the cursor reads -- [get_repo_events]
    returns, of the events before N, those whose type is one of the five
    relevant ones, in feed order; it makes one request per page up to that
    of event N and none after. *)
Theorem cutoff_returns_relevant_prefix (env : Env) (fuel : nat)
    (o n : string) (days_back : Z) (s : State)
    (pages : list (list RawEvent)) (front back : list RawEvent)
    (x : RawEvent) :
  let cutoff_date := clock s - days_back * day_ms in
  serves env o n (pages ++ [front ++ x :: back]) ->
  (List.length pages < 10)%nat ->
  (List.length pages < fuel)%nat ->
  Forall (fun p => p <> []) pages ->
  forallb (in_window env cutoff_date) (List.concat pages ++ front) = true ->
  before_cutoff env cutoff_date x ->
  exists s',
    get_repo_events env fuel o n days_back s
    = Val (filter (fun e => relevant (ev_type e)) (List.concat pages ++ front)) s'
    /\ List.length (exchanges s')
       = (List.length (exchanges s) + List.length pages + 1)%nat
    /\ api_calls (stats s')
       = (api_calls (stats s) + List.length pages + 1)%nat.
Proof.
  cbv zeta. intros Hserve Hcap Hfuel Hne Hwin Hold.
  unfold get_repo_events, bind, print, modify, datetime_now, gets.
  set (s0 := set_console (fun c => c ++ [LFetching o n]) s).
  destruct (paging_until_cutoff env o n (clock s0 - days_back * day_ms)
              front back x pages fuel 1 [] s0)
    as (s' & Hrun & Hlen & Hapi); try assumption; try lia.
  exists s'. split; [exact Hrun|]. split; [exact Hlen | exact Hapi].
Qed.

Section RateLimit.

Variable env : Env.

(** A 403 answer. *)
Lemma fetch_page_403 (o n : string) (cutoff_date : Z) (page : nat)
    (events : list RawEvent) (s : State) (r : Response) :
  requests_get env o n page 100 (List.length (exchanges s)) = HttpReturns r ->
  status_code r = 403 ->
  fetch_page env o n cutoff_date page events s =
  match rate_limit_reset r with
  | Some (Some reset_time) =>
      let wait_time := wait_time_at reset_time s in
      if wait_time <? 3600 then
        Val (Continue page events) (waited wait_time (refused env o n page s))
      else Val (Break events) (refused env o n page s)
  | Some None =>
      Val (Break events)
          (set_stats (add_errors 1)
             (set_console
                (fun c => c ++ [LFetchError o n (Exception "ValueError")])
                (refused env o n page s)))
  | None => Val (Break events) (refused env o n page s)
  end.
Proof.
  intros Hreq H403.
  unfold fetch_page, guarded, http_get, refused, answered, exchange_at,
    wait_time_at, waited.
  cbv zeta. rewrite Hreq. cbn [bump modify]. rewrite H403.
  cbn [Z.eqb Pos.eqb]. unfold rate_limited.
  destruct (rate_limit_reset r) as [[reset_time|]|]; cbn; try reflexivity.
  match goal with |- context [if ?b then _ else _] => destruct b end;
    reflexivity.
Qed.

Lemma wait_time_bound (reset_time c0 : Z) (s : State) :
  c0 <= clock s ->
  reset_time - Z.quot c0 1000 + 60 < 3600 ->
  0 <= wait_time_at reset_time s < 3600.
Proof.
  intros Hc Hr. unfold wait_time_at.
  assert (Z.quot c0 1000 <= Z.quot (clock s) 1000)
    by (apply Z.quot_le_mono; lia).
  lia.
Qed.

(** A page that is answered 403 with a near reset time, every time: the
    loop asks for it again and again, as long as there is fuel. *)
Lemma paging_spins (o n : string) (cutoff_date : Z) (page : nat)
    (events : list RawEvent) (c0 : Z) :
  (page <= 10)%nat ->
  (forall k, exists reset_time b,
      requests_get env o n page 100 k
      = HttpReturns (mkResponse 403 (Some (Some reset_time)) b)
      /\ reset_time - Z.quot c0 1000 + 60 < 3600) ->
  forall (fuel : nat) (s : State),
    c0 <= clock s ->
    exists s' new,
      paging env fuel o n cutoff_date page events s = OutOfFuel s'
      /\ api_calls (stats s') = (api_calls (stats s) + fuel)%nat
      /\ exchanges s' = exchanges s ++ new
      /\ List.length new = fuel
      /\ Forall (fun x => x_page x = page) new.
Proof.
  intros Hpage Hfeed.
  assert (Hp : (page <=? 10)%nat = true) by (apply Nat.leb_le; exact Hpage).
  induction fuel as [|fuel IH]; intros s Hc; cbn [paging]; rewrite Hp.
  - exists s, []. cbn. rewrite app_nil_r. repeat split; auto.
  - destruct (Hfeed (List.length (exchanges s))) as (reset_time & b & Hreq & Hr).
    unfold bind.
    rewrite (fetch_page_403 o n cutoff_date page events s _ Hreq eq_refl).
    cbn [rate_limit_reset]. cbv zeta.
    destruct (wait_time_bound reset_time c0 s Hc Hr) as [Hw0 Hw].
    apply Z.ltb_lt in Hw. rewrite Hw.
    set (s1 := waited (wait_time_at reset_time s) (refused env o n page s)).
    destruct (IH s1) as (s' & new & Hrun & Hapi & Hx & Hlen & Hall).
    { unfold s1, waited, refused, answered. cbn. nia. }
    exists s', (exchange_at env o n page s :: new).
    split; [exact Hrun|]. split; [|split; [|split]].
    + rewrite Hapi. unfold s1, waited, refused, answered. cbn. lia.
    + rewrite Hx. unfold s1, waited, refused, answered. cbn.
      rewrite <- app_assoc. reflexivity.
    + simpl. rewrite Hlen. reflexivity.
    + constructor; [reflexivity | exact Hall].
Qed.

End RateLimit.

(** C4, as far as the code goes.  On a 403 answer the cursor computes
    [wait_time = max(0, reset - now + 60)] from the reset header.  If the
    header is there, reads as a number, and [wait_time < 3600], it sleeps
    [wait_time] seconds and goes on with the same page and the same
    events.  Otherwise -- no header, a header it cannot read, or a
    [wait_time] of 3600 or more -- the loop ends and the events collected so
    far are returned, with no further request. *)
Theorem rate_limit_backoff (env : Env) (fuel : nat) (o n : string)
    (cutoff_date : Z) (page : nat) (events : list RawEvent) (s : State)
    (r : Response) :
  (page <= 10)%nat ->
  requests_get env o n page 100 (List.length (exchanges s)) = HttpReturns r ->
  status_code r = 403 ->
  match rate_limit_reset r with
  | Some (Some reset_time) =>
      let wait_time := Z.max 0 (reset_time - Z.quot (clock s) 1000 + 60) in
      if wait_time <? 3600 then
        exists s1,
          paging env (S fuel) o n cutoff_date page events s
          = paging env fuel o n cutoff_date page events s1
          /\ clock s1 = clock s + wait_time * 1000
          /\ exchanges s1 = exchanges s ++ [exchange_at env o n page s]
      else
        exists s',
          paging env (S fuel) o n cutoff_date page events s = Val events s'
          /\ clock s' = clock s
          /\ exchanges s' = exchanges s ++ [exchange_at env o n page s]
  | _ =>
      exists s',
        paging env (S fuel) o n cutoff_date page events s = Val events s'
        /\ clock s' = clock s
        /\ exchanges s' = exchanges s ++ [exchange_at env o n page s]
  end.
Proof.
  intros Hpage Hreq H403.
  assert (Hp : (page <=? 10)%nat = true) by (apply Nat.leb_le; exact Hpage).
  cbn [paging]. rewrite Hp. unfold bind.
  rewrite (fetch_page_403 env o n cutoff_date page events s r Hreq H403).
  destruct (rate_limit_reset r) as [[reset_time|]|]; cbv zeta.
  - fold (wait_time_at reset_time s).
    destruct (wait_time_at reset_time s <? 3600).
    + eexists. split; [reflexivity|]. split; reflexivity.
    + eexists. split; [reflexivity|]. split; reflexivity.
  - eexists. split; [reflexivity|]. split; reflexivity.
  - eexists. split; [reflexivity|]. split; reflexivity.
Qed.

(** C8. The cap of ten pages does not cap the requests.  When page 1 of a
    repository is answered 403 every time, with a reset header whose wait,
    margin included, is under an hour, [get_repo_events] asks for page 1
    again after every answer: whatever the fuel, it is used up, with one
    API call and one request for page 1 per unit of fuel, and the call has
    not returned. *)
Theorem rate_limit_retries_unbounded (env : Env) (o n : string)
    (days_back : Z) (s : State) :
  (forall k, exists reset_time b,
      requests_get env o n 1 100 k
      = HttpReturns (mkResponse 403 (Some (Some reset_time)) b)
      /\ reset_time - Z.quot (clock s) 1000 + 60 < 3600) ->
  forall fuel : nat,
  exists s' new,
    get_repo_events env fuel o n days_back s = OutOfFuel s'
    /\ api_calls (stats s') = (api_calls (stats s) + fuel)%nat
    /\ exchanges s' = exchanges s ++ new
    /\ List.length new = fuel
    /\ Forall (fun x => x_page x = 1%nat) new.
Proof.
  intros Hfeed fuel.
  unfold get_repo_events, bind, print, modify, datetime_now, gets.
  set (s0 := set_console (fun c => c ++ [LFetching o n]) s).
  destruct (paging_spins env o n (clock s0 - days_back * day_ms) 1 []
              (clock s) ltac:(lia) Hfeed fuel s0)
    as (s' & new & Hrun & Hapi & Hx & Hlen & Hall).
  { unfold s0. cbn. lia. }
  exists s', new. repeat split; assumption.
Qed.

(** C9. [repos_processed] counts the repositories whose cursor returned
    at least one event: when [get_repo_events] returns the empty list,
    [backfill_repository] returns at once and the counter is as before;
    when it returns events, the counter goes up by one once they have been
    gone through (and stays if an exception escapes on the way). *)
Theorem repos_processed_counts_nonempty (env : Env) (fuel : nat)
    (o n w : string) (s s1 : State) (events : list RawEvent) :
  get_repo_events env fuel o n backfill_days
    (set_console (fun c => c ++ [LBackfilling o n w]) s) = Val events s1 ->
  (events = [] ->
   backfill_repository env fuel o n w s
   = Val tt (set_console (fun c => c ++ [LNoEvents o n]) s1)
   /\ repos_processed (stats s1) = repos_processed (stats s))
  /\ (events <> [] ->
      match backfill_repository env fuel o n w s with
      | Val _ s2 => repos_processed (stats s2) = S (repos_processed (stats s))
      | Raised _ s2 => repos_processed (stats s2) = repos_processed (stats s)
      | OutOfFuel _ => False
      end).
Proof.
  intros Hrun.
  pose proof (sat_get_repo_events env same_repos_processed
                same_repos_processed_common same_repos_processed_cursor
                fuel o n backfill_days
                (set_console (fun c => c ++ [LBackfilling o n w]) s)) as Hcur.
  rewrite Hrun in Hcur. destruct Hcur as [Hcur _].
  unfold same_repos_processed in Hcur. cbn [stats set_console] in Hcur.
  split.
  - intros ->. split; [|exact Hcur].
    unfold backfill_repository, bind, print, modify. rewrite Hrun. reflexivity.
  - intros Hne. destruct events as [|event rest]; [contradiction|].
    unfold backfill_repository, bind, print, modify. rewrite Hrun.
    pose proof (sat_insert_events env same_repos_processed
                  same_repos_processed_common same_repos_processed_writer
                  (event :: rest) 0 0 False s1) as Hins.
    unfold same_repos_processed in Hins.
    destruct (insert_events env (event :: rest) 0 0 s1) as [counts s2|e s2|s2].
    + destruct Hins as [Hins _].
      destruct (0 <? snd counts)%nat; cbn; lia.
    + destruct Hins as [Hins _]. congruence.
    + destruct Hins as [_ []].
Qed.

(* ===================================================================== *)
(** ** The main loop *)
(* ===================================================================== *)

Section MainLoop.

Variable env : Env.

(** In a calm environment every repository of the list is taken up, in
    order. *)
Lemma process_repositories_attempts (fuel total : nat) :
  calm env ->
  forall (repositories : list RepositoryTarget) (i : nat) (s : State),
    match process_repositories env fuel i total repositories s with
    | Val _ s' =>
        attempted (console s')
        = attempted (console s) ++ map repo_id_of repositories
    | Raised _ _ => False
    | OutOfFuel _ => True
    end.
Proof.
  intros Hc. induction repositories as [|repo rest IH]; intros i s.
  - cbn. rewrite app_nil_r. reflexivity.
  - cbn [process_repositories]. unfold bind at 1. unfold print at 1, modify at 1.
    set (s1 := set_console
                 (fun c => c ++ [LProcessing i total (owner repo) (name repo)]) s).
    assert (H1 : attempted (console s1) = attempted (console s) ++ [repo_id_of repo]).
    { unfold s1. cbn [console set_console]. rewrite attempted_snoc. reflexivity. }
    pose proof (sat_attempt env same_attempts same_attempts_common
                  same_attempts_cursor same_attempts_writer same_attempts_repo
                  fuel i total repo s1) as Hbody.
    unfold guarded.
    destruct ((backfill_repository env fuel (owner repo) (name repo)
                 (workspace repo) ;;
               (if (i <? total)%nat then sleep 2000 else ret tt)) s1)
      as [u s2|e s2|s2]; [| |exact I].
    + destruct Hbody as [Hsame _]. unfold same_attempts in Hsame.
      specialize (IH (S i) s2).
      destruct (process_repositories env fuel (S i) total rest s2);
        [|exact IH|exact I].
      rewrite IH, Hsame, H1, <- app_assoc. reflexivity.
    + destruct Hbody as [Hsame He]. unfold same_attempts in Hsame.
      destruct (possible_calm env e Hc He) as [cls ->].
      unfold bind, count_error, bind, print, bump, modify.
      set (s3 := set_stats (add_errors 1) _).
      specialize (IH (S i) s3).
      destruct (process_repositories env fuel (S i) total rest s3);
        [|exact IH|exact I].
      rewrite IH. unfold s3. cbn [console set_stats set_console].
      rewrite attempted_snoc. cbn [attempt]. rewrite app_nil_r.
      rewrite Hsame, H1, <- app_assoc. reflexivity.
Qed.

Lemma store_grows_attempt_line (l : Line) (s : State) :
  attempt l <> [] -> store_grows s (set_console (fun c => c ++ [l]) s).
Proof. intros _. apply store_grows_same; reflexivity. Qed.

(** With a feed that never answers 403 and ten turns of fuel per
    repository, the main loop runs to its end. *)
Lemma process_repositories_returns (fuel i total : nat)
    (repositories : list RepositoryTarget) (s : State) :
  never_403 env -> (10 <= fuel)%nat ->
  exists s', process_repositories env fuel i total repositories s = Val tt s'.
Proof.
  intros Hn Hf.
  pose proof (sat_process_repositories env anywhere anywhere_common
                anywhere_cursor anywhere_writer anywhere_repo
                fuel i total repositories (fun _ _ _ => I) s) as H.
  destruct (process_repositories env fuel i total repositories s)
    as [[] s'|e s'|s'].
  - eauto.
  - destruct H as [_ []].
  - destruct H as [_ H]. specialize (H Hn). lia.
Qed.

End MainLoop.

(** The three places where an exception is reported and counted: a
    request that raises, ... *)
Lemma fetch_error_is_counted (env : Env) (o n : string) (cutoff_date : Z)
    (page : nat) (events : list RawEvent) (s : State) (cls : string) :
  requests_get env o n page 100 (List.length (exchanges s))
  = HttpRaises (Exception cls) ->
  exists s',
    fetch_page env o n cutoff_date page events s = Val (Break events) s'
    /\ errors (stats s') = S (errors (stats s))
    /\ console s' = console s ++ [LFetchError o n (Exception cls)].
Proof.
  intros H. unfold fetch_page, guarded, http_get. cbv zeta. rewrite H.
  eexists. split; [reflexivity|]. cbn. split; [lia | reflexivity].
Qed.

(** ... an INSERT that raises (for a name that does not split, see
    [insert_event_unsplit]), ... *)
Lemma insert_error_is_counted (env : Env) (event : RawEvent) (s : State)
    (cls : string) :
  (0 < str_count slash (repo_name (ev_repo event)))%nat ->
  db_fault env InsertEvent (db_calls s) = Some (Exception cls) ->
  exists s',
    insert_event env event s = Val false s'
    /\ errors (stats s') = S (errors (stats s))
    /\ console s' = console s ++ [LInsertError (ev_id event) (Exception cls)].
Proof.
  intros Hslash Hdb.
  destruct (str_split_first_sep slash _ Hslash) as (a & b & Hsplit & _ & _).
  rewrite (insert_event_fault env event s a b _ Hsplit Hdb).
  eexists. split; [reflexivity|]. cbn. split; [lia | reflexivity].
Qed.

(** ... and a repository whose processing raises. *)
Lemma escaped_error_is_counted (env : Env) (fuel i total : nat)
    (repo : RepositoryTarget) (s s1 : State) (cls : string) :
  (backfill_repository env fuel (owner repo) (name repo) (workspace repo) ;;
   if (i <? total)%nat then sleep 2000 else ret tt)
    (set_console
       (fun c => c ++ [LProcessing i total (owner repo) (name repo)]) s)
  = Raised (Exception cls) s1 ->
  exists s',
    process_repositories env fuel i total [repo] s = Val tt s'
    /\ errors (stats s') = S (errors (stats s1))
    /\ console s'
       = console s1 ++ [LRepoFailed (owner repo) (name repo) (Exception cls)].
Proof.
  intros H. cbn [process_repositories]. unfold bind at 1.
  unfold print at 1, modify at 1. unfold guarded. rewrite H.
  eexists. split; [reflexivity|]. cbn. split; [lia | reflexivity].
Qed.

(** The fourth handler, [except Exception] of the loop over the events,
    reports and rolls back, and leaves [self.stats] alone.  An INSERT that
    raises does not reach it: [insert_event] has caught and counted the
    exception, and the turn takes the [else] branch. *)
Lemma insert_one_insert_fault (env : Env) (event : RawEvent) (i f : nat)
    (s : State) (a b cls : string) :
  str_split slash 1 (repo_name (ev_repo event)) = [a; b] ->
  db_fault env InsertEvent (db_calls s) = Some (Exception cls) ->
  db_fault env Rollback (S (db_calls s)) = None ->
  exists s',
    insert_one env event i f s = Val (i, S f) s'
    /\ errors (stats s') = S (errors (stats s))
    /\ events_inserted (stats s') = events_inserted (stats s)
    /\ session s' = committed s
    /\ committed s' = committed s
    /\ console s' = console s ++ [LInsertError (ev_id event) (Exception cls)].
Proof.
  intros Hsplit Hins Hroll.
  unfold insert_one, guarded.
  rewrite (insert_event_fault env event s a b _ Hsplit Hins).
  cbn [is_Exception].
  cbv [rollback bind db_call gets modify]. cbn [db_calls set_stats
    set_console set_db_calls]. rewrite Hroll.
  eexists. split; [reflexivity|]. cbn. repeat split. lia.
Qed.

(** A commit that raises does reach it -- after [insert_event] has counted
    the event as inserted, and after [inserted_count += 1]: the event is
    counted as inserted and as failed, the row is rolled back, and [errors]
    stays where it was. *)
Lemma insert_one_commit_fault (env : Env) (event : RawEvent) (i f : nat)
    (s : State) (a b cls : string) :
  str_split slash 1 (repo_name (ev_repo event)) = [a; b] ->
  db_fault env InsertEvent (db_calls s) = None ->
  db_fault env Commit (S (db_calls s)) = Some (Exception cls) ->
  db_fault env Rollback (S (S (db_calls s))) = None ->
  exists s',
    insert_one env event i f s = Val (S i, S f) s'
    /\ errors (stats s') = errors (stats s)
    /\ events_inserted (stats s') = S (events_inserted (stats s))
    /\ session s' = committed s
    /\ committed s' = committed s
    /\ console s' = console s ++ [LInsertFailed (Exception cls)].
Proof.
  intros Hsplit Hins Hcommit Hroll.
  unfold insert_one, guarded.
  rewrite (insert_event_written env event s a b Hsplit Hins).
  cbv [commit rollback bind db_call gets modify except_insert
       except_Exception print ret].
  cbn [db_calls set_stats set_session set_console set_db_calls].
  rewrite Hcommit. cbn [is_Exception].
  cbn [db_calls set_stats set_session set_console set_db_calls].
  rewrite Hroll.
  eexists. split; [reflexivity|]. cbn. repeat split. lia.
Qed.

(** X22. Isolation.  No failure of a repository ends the main loop: it
    never raises; every repository of the list is taken up, in order; the
    rows committed before stay committed; and [errors] goes up by one with
    each of the three error reports -- a failed fetch, a failed
    normalisation or INSERT, a repository whose processing raised. *)
Theorem repository_failures_are_isolated (env : Env) (fuel i total : nat)
    (repositories : list RepositoryTarget) (s : State) :
  calm env ->
  let out := process_repositories env fuel i total repositories s in
  (forall e s', out <> Raised e s')
  /\ (errors (stats (final out)) + err_lines (console s)
      = errors (stats s) + err_lines (console (final out)))%nat
  /\ (table_le (committed s) (session s) ->
      table_le (committed s) (committed (final out)))
  /\ (forall s',
        out = Val tt s' ->
        attempted (console s')
        = attempted (console s) ++ map repo_id_of repositories)
  /\ (never_403 env -> (10 <= fuel)%nat -> exists s', out = Val tt s').
Proof.
  intros Hc. cbv zeta.
  pose proof (sat_process_repositories env accounted accounted_common
                accounted_cursor accounted_writer accounted_repo
                fuel i total repositories accounted_attempt_line s) as Hacc.
  pose proof (sat_process_repositories env store_grows store_grows_common
                store_grows_cursor store_grows_writer store_grows_repo
                fuel i total repositories store_grows_attempt_line s) as Hst.
  pose proof (process_repositories_attempts env fuel total Hc
                repositories i s) as Hatt.
  split; [|split; [|split; [|split]]].
  - intros e s' Hout. rewrite Hout in Hacc. destruct Hacc as [_ []].
  - destruct (process_repositories env fuel i total repositories s);
      destruct Hacc as [Hacc _]; exact Hacc.
  - intros Hinv.
    destruct (process_repositories env fuel i total repositories s);
      destruct Hst as [Hst _]; exact (proj2 (Hst Hinv)).
  - intros s' Hout. rewrite Hout in Hatt. exact Hatt.
  - intros Hn Hf. apply process_repositories_returns; assumption.
Qed.

(* ===================================================================== *)
(** ** main *)
(* ===================================================================== *)

Section Main.

Variable env : Env.

Lemma db_call_eq (c : DbCall) (s : State) :
  db_call env c s =
  match db_fault env c (db_calls s) with
  | Some e => Raised e (set_db_calls S s)
  | None => Val tt (set_db_calls S s)
  end.
Proof. reflexivity. Qed.


Lemma init_eq (cfg : Config) (s : State) :
  init env cfg s =
  if valid_config cfg then
    match db_fault env Connect (db_calls s) with
    | Some e => Raised e (set_db_calls S s)
    | None => Val tt (set_stats (fun _ => zero_stats) (set_db_calls S s))
    end
  else Raised (Exception "ValueError") s.
Proof.
  unfold init, valid_config.
  destruct (unset (SUPABASE_URL cfg) || unset (SUPABASE_DB_PASSWORD cfg));
    [reflexivity|].
  destruct (bad_token (GITHUB_TOKEN cfg)); [reflexivity|].
  cbn [negb andb]. unfold bind, modify. rewrite db_call_eq.
  destruct (db_fault env Connect (db_calls s)); reflexivity.
Qed.




(** [main], by the outcomes of its three steps. *)
Lemma main_eq (fuel : nat) (cfg : Config) (argv : list string) (s : State) :
  let s0 :=
    set_console
      (fun c => c ++ [match argv_workspace argv with
                      | Some w => LScopeWorkspace w
                      | None => LScopeAll
                      end]) s in
  main env fuel cfg argv s =
  match init env cfg s0 with
  | Val _ s1 =>
      match run_backfill env fuel (argv_workspace argv) s1 with
      | Val _ s2 =>
          match close env s2 with
          | Val _ s3 => Val 0 s3
          | Raised e s3 => Raised e s3
          | OutOfFuel s3 => OutOfFuel s3
          end
      | Raised (Exception cls) s2 =>
          match close env
                  (set_console (fun c => c ++ [LFatal (Exception cls)]) s2) with
          | Val _ s3 => Val 1 s3
          | Raised e s3 => Raised e s3
          | OutOfFuel s3 => OutOfFuel s3
          end
      | Raised KeyboardInterrupt s2 =>
          match close env s2 with
          | Val _ s3 => Raised KeyboardInterrupt s3
          | Raised e s3 => Raised e s3
          | OutOfFuel s3 => OutOfFuel s3
          end
      | OutOfFuel s2 => OutOfFuel s2
      end
  | Raised e s1 => Raised e s1
  | OutOfFuel s1 => OutOfFuel s1
  end.
Proof.
  cbv zeta. unfold main. cbv zeta. unfold bind at 1.
  assert (Hscope :
    (match argv_workspace argv with
     | Some w => print (LScopeWorkspace w)
     | None => print LScopeAll
     end) s
    = Val tt (set_console
                (fun c => c ++ [match argv_workspace argv with
                                | Some w => LScopeWorkspace w
                                | None => LScopeAll
                                end]) s))
    by (destruct (argv_workspace argv); reflexivity).
  rewrite Hscope. unfold bind at 1.
  destruct (init env cfg _) as [[] s1|e s1|s1]; try reflexivity.
  unfold bind, try_finally, guarded.
  destruct (run_backfill env fuel (argv_workspace argv) s1)
    as [[] s2|[cls|] s2|s2]; cbn; try reflexivity.
  - destruct (close env s2) as [[] s3|e s3|s3]; reflexivity.
  - destruct (close env _) as [[] s3|e s3|s3]; reflexivity.
  - destruct (close env s2) as [[] s3|e s3|s3]; reflexivity.
Qed.

End Main.




(* ===================================================================== *)
(** ** The theorems at work *)
(* ===================================================================== *)

Lemma demo_calm feed faults repos :
  (forall o n p pp k, feed o n p pp k <> HttpRaises KeyboardInterrupt) ->
  (forall c k, faults c k <> Some KeyboardInterrupt) ->
  calm (Demo.world feed faults repos).
Proof. intros H1 H2. split; assumption. Defined.

(** A second write of [watch1] over the row an earlier run stored. *)
Lemma insert_event_on_conflict_witness :
  exists s' new,
    insert_event Demo.w_mixed Demo.watch1 (Demo.start [Demo.stored])
    = Val true s'
    /\ List.length (session s') = 1%nat
    /\ find_key "e1" Demo.recent (session s') = Some new
    /\ processed_at new = Some Demo.t_now
    /\ processing_notes new
       = Some "Inserted by the webhook; Updated from workspace backfill"%string
    /\ payload new = [("action", JStr "created")]%string
    /\ actor_login new = "hubot"%string.
Proof.
  destruct (insert_event_on_conflict Demo.w_mixed Demo.watch1
              (Demo.start [Demo.stored]) Demo.stored)
    as (s' & new & H1 & H2 & _ & H4 & H5 & H6 & H7 & H8 & _).
  - reflexivity.
  - constructor; [intros [] | constructor].
  - vm_compute. apply le_n.
  - reflexivity.
  - exists s', new. repeat split; assumption.
Defined.

(** A name without a slash. *)
Lemma insert_event_rejects_unsplit_witness :
  exists s',
    insert_event Demo.w_mixed Demo.unsplit (Demo.start []) = Val false s'
    /\ errors (stats s') = 1%nat
    /\ session s' = [].
Proof.
  destruct (insert_event_rejects_unsplit Demo.w_mixed Demo.unsplit
              (Demo.start []))
    as (s' & H1 & H2 & _ & H4 & _).
  - reflexivity.
  - exists s'. repeat split; assumption.
Defined.

(** C2 fails on a name with two slashes: [split("/", 1)] cuts at the first
    and the record is written, the rest of the name in [repository_name]. *)
Lemma nested_name_is_written :
  str_count slash (repo_name (ev_repo Demo.nested)) = 2%nat
  /\ exists s',
       insert_event Demo.w_mixed Demo.nested (Demo.start []) = Val true s'
       /\ errors (stats s') = 0%nat
       /\ map (fun r => (repository_owner r, repository_name r)) (session s')
          = [("octo", "hello/extra")]%string.
Proof.
  split; [reflexivity|]. eexists. split; [vm_compute; reflexivity|].
  split; reflexivity.
Qed.

(** Two pages; the second has a recent fork, then the first old event. *)
Lemma cutoff_returns_relevant_prefix_witness :
  exists s',
    get_repo_events Demo.w_two_pages 10 "octo" "hello" 30 (Demo.start [])
    = Val [Demo.watch1; Demo.fork3] s'
    /\ List.length (exchanges s') = 2%nat.
Proof.
  destruct (cutoff_returns_relevant_prefix Demo.w_two_pages 10 "octo" "hello"
              30 (Demo.start []) [[Demo.watch1; Demo.push2]] [Demo.fork3]
              [Demo.watch1] Demo.stale4)
    as (s' & H1 & H2 & _).
  - intros i p k H. destruct i as [|[|i]]; simpl in H.
    + inversion H. eexists. split; [reflexivity|]. split; reflexivity.
    + inversion H. eexists. split; [reflexivity|]. split; reflexivity.
    + destruct i; discriminate.
  - simpl. lia.
  - simpl. lia.
  - constructor; [discriminate | constructor].
  - reflexivity.
  - exists Demo.t_old. split; [reflexivity | vm_compute; reflexivity].
  - exists s'. split; [exact H1 | exact H2].
Defined.

(** C3 fails when an event before the cutoff event has another type: the
    push, second of the page and inside the window, is not returned. *)
Lemma irrelevant_event_is_dropped :
  let cutoff_date := clock (Demo.start []) - 30 * day_ms in
  in_window Demo.w_push cutoff_date Demo.watch1 = true
  /\ in_window Demo.w_push cutoff_date Demo.push2 = true
  /\ before_cutoff Demo.w_push cutoff_date Demo.stale4
  /\ exists s',
       get_repo_events Demo.w_push 10 "octo" "hello" 30 (Demo.start [])
       = Val [Demo.watch1] s'
       /\ [Demo.watch1] <> [Demo.watch1; Demo.push2].
Proof.
  cbv zeta. split; [reflexivity|]. split; [reflexivity|]. split.
  - exists Demo.t_old. split; [reflexivity | vm_compute; reflexivity].
  - eexists. split; [vm_compute; reflexivity | discriminate].
Qed.

(** A 403 whose reset time is 30 seconds ahead: a sleep of 90 seconds,
    then the same page again. *)
Lemma rate_limit_backoff_witness :
  exists s1,
    paging (Demo.w_refused (Z.quot Demo.t_now 1000 + 30)) 1 "octo" "hello" 0
      1 [] (Demo.start [])
    = paging (Demo.w_refused (Z.quot Demo.t_now 1000 + 30)) 0 "octo" "hello" 0
        1 [] s1
    /\ clock s1 = Demo.t_now + 90 * 1000
    /\ List.length (exchanges s1) = 1%nat.
Proof.
  pose proof (rate_limit_backoff (Demo.w_refused (Z.quot Demo.t_now 1000 + 30))
                0 "octo" "hello" 0 1 [] (Demo.start [])
                (mkResponse 403 (Some (Some (Z.quot Demo.t_now 1000 + 30))) None))
    as H.
  destruct H as (s1 & H1 & H2 & H3).
  - apply Nat.leb_le. reflexivity.
  - reflexivity.
  - reflexivity.
  - exists s1. split; [exact H1|]. split; [exact H2|].
    rewrite H3. reflexivity.
Defined.

(** C4 fails at a wait of exactly one hour: with the margin the computed
    wait is 3660, not under 3600, and the cursor gives the repository up
    without sleeping. *)
Lemma one_hour_wait_is_abandoned :
  let reset_time := Z.quot Demo.t_now 1000 + 3600 in
  reset_time - Z.quot (clock (Demo.start [])) 1000 <= 3600
  /\ exists s',
       get_repo_events (Demo.w_refused reset_time) 10 "octo" "hello" 30
         (Demo.start [])
       = Val [] s'
       /\ clock s' = clock (Demo.start [])
       /\ List.length (exchanges s') = 1%nat.
Proof.
  cbv zeta. split; [vm_compute; discriminate|].
  eexists. split; [vm_compute; reflexivity|]. split; reflexivity.
Qed.

Lemma endless_honours_per_page : honours_per_page Demo.w_endless.
Proof.
  intros o n page k r l H Hb. inversion H; subst. inversion Hb; subst.
  simpl. lia.
Defined.

Lemma endless_never_403 : never_403 Demo.w_endless.
Proof. intros o n page pp k r H. inversion H; subst. discriminate. Defined.

Lemma endless_calm : calm Demo.w_endless.
Proof. apply demo_calm; intros; discriminate. Defined.

(** The feed without end: ten requests, pages 1 to 10, and the call
    returns. *)
Lemma page_cap_witness :
  exists new,
    exchanges (final (get_repo_events Demo.w_endless 10 "octo" "hello" 30
                        (Demo.start [])))
    = new
    /\ Forall (fun x => (1 <= x_page x <= 10)%nat) new
    /\ (List.length (received new) <= 1000)%nat
    /\ exists events s',
         get_repo_events Demo.w_endless 10 "octo" "hello" 30 (Demo.start [])
         = Val events s'.
Proof.
  destruct (page_cap Demo.w_endless 10 "octo" "hello" 30 (Demo.start [])
              endless_honours_per_page)
    as (new & H1 & H2 & _ & H4 & _ & H6).
  exists new. split; [exact H1|]. split; [|split].
  - eapply Forall_impl; [|exact H2]. intros x (_ & _ & Hp & _). exact Hp.
  - exact H4.
  - apply H6; [exact endless_never_403 | exact endless_calm | apply le_n].
Defined.

(** The same feed with fuel to spare: the tenth page is the last. *)
Example endless_feed_stops_at_ten :
  exists s',
    get_repo_events Demo.w_endless 50 "octo" "hello" 30 (Demo.start [])
    = Val (repeat Demo.watch1 10) s'
    /\ map x_page (exchanges s') = seq 1 10
    /\ api_calls (stats s') = 10%nat.
Proof. eexists. split; [vm_compute; reflexivity|]. split; reflexivity. Qed.

Lemma b_down_calm : calm Demo.w_b_down.
Proof.
  apply demo_calm; [|intros; discriminate].
  intros o n p pp k. unfold Demo.feed_b_down.
  destruct (String.eqb n "b"); [discriminate|].
  destruct (p =? 1)%nat; discriminate.
Defined.

Lemma b_down_never_403 : never_403 Demo.w_b_down.
Proof.
  intros o n p pp k r. simpl. unfold Demo.feed_b_down.
  destruct (String.eqb n "b"); [discriminate|].
  destruct (p =? 1)%nat; intros H; inversion H; subst; discriminate.
Defined.

(** Three repositories, the feed of the second down: all three are taken
    up, and [errors] is one behind one error line. *)
Lemma repository_failures_are_isolated_witness :
  exists s',
    process_repositories Demo.w_b_down 10 1 3
      [Demo.repo_a; Demo.repo_b; Demo.repo_c] (Demo.start [])
    = Val tt s'
    /\ attempted (console s')
       = [("octo", "a"); ("octo", "b"); ("octo", "c")]%string
    /\ errors (stats s') = err_lines (console s').
Proof.
  destruct (repository_failures_are_isolated Demo.w_b_down 10 1 3
              [Demo.repo_a; Demo.repo_b; Demo.repo_c] (Demo.start [])
              b_down_calm)
    as (_ & Hacc & _ & Hatt & Hret).
  destruct (Hret b_down_never_403 (le_n 10)) as (s' & Hrun).
  exists s'. split; [exact Hrun|]. split.
  - exact (Hatt s' Hrun).
  - rewrite Hrun in Hacc. cbn [final] in Hacc.
    change (err_lines (console (Demo.start []))) with 0%nat in Hacc.
    change (errors (stats (Demo.start []))) with 0%nat in Hacc.
    rewrite Nat.add_0_r in Hacc. exact Hacc.
Defined.

(** That run, in full: the event of the first repository stays committed,
    the third repository is served, one error is counted. *)
Example isolation_scenario :
  exists s',
    process_repositories Demo.w_b_down 10 1 3
      [Demo.repo_a; Demo.repo_b; Demo.repo_c] (Demo.start [])
    = Val tt s'
    /\ map event_id (committed s') = ["e-a"; "e-c"]%string
    /\ errors (stats s') = 1%nat
    /\ repos_processed (stats s') = 2%nat.
Proof. eexists. split; [vm_compute; reflexivity|]. repeat split. Qed.

(** C6, at a commit that raises.  One repository, one recent watch event,
    an INSERT that goes through and a [commit] that raises: the exception
    is caught by the loop over the events, which reports it and rolls
    back.  The write has failed -- the table is empty -- and [errors] is
    still 0; the event is counted as inserted, in [events_inserted] and in
    the line [Inserted 1/1], and as failed, in the line
    [Failed to insert 1]. *)
Lemma commit_failure_is_not_counted :
  exists s',
    process_repositories Demo.w_commit_fails 10 1 1 [Demo.repo_a]
      (Demo.start [])
    = Val tt s'
    /\ console s'
       = [ LProcessing 1 1 "octo" "a"; LBackfilling "octo" "a" "team";
           LFetching "octo" "a"; LFound 1 "octo" "a";
           LInsertFailed (Exception "OperationalError");
           LInserted 1 1; LFailedCount 1 ]%string
    /\ errors (stats s') = 0%nat
    /\ events_inserted (stats s') = 1%nat
    /\ repos_processed (stats s') = 1%nat
    /\ session s' = []
    /\ committed s' = [].
Proof.
  eexists. split; [vm_compute; reflexivity|]. repeat split.
Qed.

(** The same run with the INSERT raising instead of the commit: the write
    has failed as before, and here the error is counted. *)
Example insert_failure_is_counted :
  exists s',
    process_repositories Demo.w_insert_fails 10 1 1 [Demo.repo_a]
      (Demo.start [])
    = Val tt s'
    /\ console s'
       = [ LProcessing 1 1 "octo" "a"; LBackfilling "octo" "a" "team";
           LFetching "octo" "a"; LFound 1 "octo" "a";
           LInsertError "e1" (Exception "OperationalError");
           LInserted 0 1; LFailedCount 1 ]%string
    /\ errors (stats s') = 1%nat
    /\ events_inserted (stats s') = 0%nat
    /\ session s' = []
    /\ committed s' = [].
Proof.
  eexists. split; [vm_compute; reflexivity|]. repeat split.
Qed.

(** The summary of the run whose commit raised: one event inserted, no
    error, an empty table, status 0. *)
Example summary_after_commit_failure :
  exists s',
    main Demo.w_commit_fails 10 Demo.config ["backfill.py"]%string
      (Demo.start [])
    = Val 0 s'
    /\ In (LEventsInserted 1) (console s')
    /\ In (LErrors 0) (console s')
    /\ In (LTotal 0) (console s').
Proof.
  eexists. split; [vm_compute; reflexivity|]. simpl. auto 30.
Qed.


Lemma empty_never_403 : never_403 Demo.w_empty.
Proof. intros o n page pp k r H. inversion H; subst. discriminate. Defined.


(** The other ways out: no configuration, and a lookup that raises. *)
Example exit_status_without_configuration :
  exit_status (main Demo.w_empty 10 (mkConfig None None None)
                 ["backfill.py"]%string (Demo.start []))
  = Some 1.
Proof. reflexivity. Qed.

Example exit_status_with_placeholder_token :
  exit_status (main Demo.w_empty 10
                 (mkConfig (Some "https://abc.supabase.co") (Some "secret")
                    (Some "your_token_here"))%string
                 ["backfill.py"]%string (Demo.start []))
  = Some 1.
Proof. reflexivity. Qed.

Example exit_status_when_lookup_fails :
  exit_status (main Demo.w_lookup_fails 10 Demo.config
                 ["backfill.py"; "ws-1"]%string (Demo.start []))
  = Some 1.
Proof. reflexivity. Qed.

Example exit_status_when_commits_fail :
  exit_status (main Demo.w_commit_fails 10 Demo.config
                 ["backfill.py"]%string (Demo.start []))
  = Some 0.
Proof. vm_compute. reflexivity. Qed.

(** A feed that refuses every request, the reset time long past: eleven
    units of fuel, eleven API calls, all for page 1, and no result. *)
Lemma rate_limit_retries_unbounded_witness :
  exists s' new,
    get_repo_events (Demo.w_refused 0) 11 "octo" "hello" 30 (Demo.start [])
    = OutOfFuel s'
    /\ api_calls (stats s') = 11%nat
    /\ exchanges s' = new
    /\ Forall (fun x => x_page x = 1%nat) new.
Proof.
  destruct (rate_limit_retries_unbounded (Demo.w_refused 0) "octo" "hello" 30
              (Demo.start [])) with (fuel := 11%nat)
    as (s' & new & H1 & H2 & H3 & _ & H5).
  - intros k. exists 0, None. split; [reflexivity | vm_compute; reflexivity].
  - exists s', new. repeat split; assumption.
Defined.

(** An empty feed: the repository is not counted as processed. *)
Lemma repos_processed_counts_nonempty_witness :
  exists s2,
    backfill_repository Demo.w_empty 10 "octo" "hello" "team" (Demo.start [])
    = Val tt s2
    /\ repos_processed (stats s2) = 0%nat.
Proof.
  pose (s1 := final (get_repo_events Demo.w_empty 10 "octo" "hello"
                       backfill_days
                       (set_console
                          (fun c => c ++ [LBackfilling "octo" "hello" "team"])
                          (Demo.start [])))).
  destruct (repos_processed_counts_nonempty Demo.w_empty 10 "octo" "hello"
              "team" (Demo.start []) s1 [] eq_refl) as [H _].
  destruct (H eq_refl) as [Hrun Hcount].
  eexists. split; [exact Hrun|]. reflexivity.
Defined.

(** Four raw records, two retained: [events_fetched] goes up by two. *)
Lemma events_fetched_counts_retained_witness :
  exists s',
    get_repo_events Demo.w_mixed 10 "octo" "hello" 30 (Demo.start [])
    = Val [Demo.watch1; Demo.fork3] s'
    /\ events_fetched (stats s') = 2%nat
    /\ List.length (received (exchanges s')) = 4%nat.
Proof.
  pose (s' := final (get_repo_events Demo.w_mixed 10 "octo" "hello" 30
                       (Demo.start []))).
  destruct (events_fetched_counts_retained Demo.w_mixed 10 "octo" "hello" 30
              (Demo.start []) s' [Demo.watch1; Demo.fork3] eq_refl)
    as (H1 & _).
  exists s'. split; [reflexivity|]. split; [exact H1 | reflexivity].
Defined.

(* ===================================================================== *)
(** ** Further properties: names, payloads, rows *)
(* ===================================================================== *)

(** X1. Splitting the repository name loses nothing: it either gives an
    owner without slash and a name that join back to the full name with a
    slash between them, or -- exactly when the full name has no slash --
    raises [ValueError]. *)
Theorem split_full_name_round_trip (full : string) (s : State) :
  match split_full_name full s with
  | Val (a, b) s' =>
      full = (a ++ String slash b)%string
      /\ str_count slash a = 0%nat
      /\ (0 < str_count slash full)%nat
      /\ s' = s
  | Raised e s' =>
      e = Exception "ValueError" /\ str_count slash full = 0%nat /\ s' = s
  | OutOfFuel _ => False
  end.
Proof.
  unfold split_full_name.
  destruct (str_count slash full) as [|k] eqn:Hc.
  - rewrite (str_split_no_sep slash 1 full Hc). cbn. auto.
  - destruct (str_split_first_sep slash full) as (a & b & Hs & Hj & Ha);
      [lia|].
    rewrite Hs. cbn. repeat split; auto. lia.
Qed.

Lemma In_keys_upsert (now : Z) (row : CacheRow) (t : Table)
    (k : string * string) :
  In k (keys (upsert now row t)) ->
  In k (keys t) \/ k = (event_id row, created_at row).
Proof.
  induction t as [|r rest IH]; simpl.
  - intros [H|[]]. right. symmetry. exact H.
  - destruct (same_key r row); simpl.
    + intros H. left. exact H.
    + intros [H|H]; [left; left; exact H|].
      destruct (IH H) as [H'|H']; [left; right; exact H' | right; exact H'].
Qed.

Lemma NoDup_keys_upsert (now : Z) (row : CacheRow) (t : Table) :
  NoDup (keys t) -> NoDup (keys (upsert now row t)).
Proof.
  induction t as [|r rest IH]; simpl; intros Hnd.
  - constructor; [intros [] | constructor].
  - inversion Hnd as [|k ks Hnotin Hnd']; subst.
    destruct (same_key r row) eqn:E; simpl.
    + constructor; assumption.
    + constructor; [|apply IH, Hnd'].
      intros Hin. apply In_keys_upsert in Hin as [Hin|Hin];
        [exact (Hnotin Hin)|].
      rewrite same_key_has_key in E.
      assert (has_key (event_id row) (created_at row) r = true)
        by (apply has_key_true; exact Hin).
      congruence.
Qed.

Lemma upsert_fresh (now : Z) (row : CacheRow) (t : Table) :
  find_key (event_id row) (created_at row) t = None ->
  upsert now row t = t ++ [row].
Proof.
  unfold find_key. induction t as [|r rest IH]; simpl; [reflexivity|].
  rewrite same_key_has_key.
  destruct (has_key (event_id row) (created_at row) r); [discriminate|].
  intros H. rewrite (IH H). reflexivity.
Qed.

Lemma upsert_last (now : Z) (row row' : CacheRow) (t : Table) :
  find_key (event_id row') (created_at row') t = None ->
  same_key row row' = true ->
  upsert now row' (t ++ [row]) = t ++ [on_conflict_update now row].
Proof.
  unfold find_key. intros Hnone Hsame.
  induction t as [|r rest IH]; simpl in *.
  - rewrite Hsame. reflexivity.
  - rewrite same_key_has_key.
    destruct (has_key (event_id row') (created_at row') r); [discriminate|].
    rewrite (IH Hnone). reflexivity.
Qed.

Lemma find_key_app (id c : string) (t l : Table) :
  find_key id c t = None -> find_key id c (t ++ l) = find_key id c l.
Proof.
  unfold find_key. induction t as [|r rest IH]; simpl; [reflexivity|].
  destruct (has_key id c r); [discriminate | exact IH].
Qed.

Lemma count_key_fresh (id c : string) (t : Table) :
  find_key id c t = None -> count_key id c t = 0%nat.
Proof.
  unfold find_key, count_key. induction t as [|r rest IH]; simpl; [reflexivity|].
  destruct (has_key id c r); [discriminate | exact IH].
Qed.

(** X2. A write whose key is not stored yet adds one row at the end of the
    table, built from the event: its id, type, actor and timestamp, the
    payload, and the repository name cut at its first slash.  One insert is
    counted, no error, and nothing is committed by the write itself. *)
Theorem insert_event_appends_fresh_row (env : Env) (event : RawEvent)
    (s : State) :
  find_key (ev_id event) (ev_created_at event) (session s) = None ->
  (0 < str_count slash (repo_name (ev_repo event)))%nat ->
  db_fault env InsertEvent (db_calls s) = None ->
  exists s' row,
    insert_event env event s = Val true s'
    /\ session s' = session s ++ [row]
    /\ find_key (ev_id event) (ev_created_at event) (session s') = Some row
    /\ event_id row = ev_id event
    /\ created_at row = ev_created_at event
    /\ event_type row = ev_type event
    /\ actor_login row = login (ev_actor event)
    /\ (repository_owner row ++ String slash (repository_name row))%string
       = repo_name (ev_repo event)
    /\ str_count slash (repository_owner row) = 0%nat
    /\ payload row = build_payload env (clock s) event
    /\ events_inserted (stats s') = S (events_inserted (stats s))
    /\ errors (stats s') = errors (stats s)
    /\ committed s' = committed s.
Proof.
  intros Hfresh Hslash Hdb.
  destruct (str_split_first_sep slash _ Hslash) as (a & b & Hsplit & Hjoin & Ha).
  exists (set_stats (add_events_inserted 1)
            (set_session (upsert (clock s) (build_row env (clock s) event a b))
               (set_db_calls S s))),
         (build_row env (clock s) event a b).
  split; [apply (insert_event_written env event s a b Hsplit Hdb)|].
  cbn [session committed stats set_stats set_session set_db_calls
       events_inserted errors add_events_inserted].
  rewrite (upsert_fresh (clock s) (build_row env (clock s) event a b)
             (session s) Hfresh).
  cbn [build_row event_id created_at event_type actor_login repository_owner
       repository_name payload].
  repeat split; auto; [|lia].
  rewrite (find_key_app _ _ _ _ Hfresh). unfold find_key. cbn [find].
  unfold has_key. cbn [build_row event_id created_at].
  rewrite !String.eqb_refl. reflexivity.
Qed.

(** X3. Writing the same event twice leaves one row for its key: the first
    write adds the row, the second only stamps it with the conflict
    clause. *)
Theorem insert_event_twice (env : Env) (event : RawEvent) (s : State) :
  find_key (ev_id event) (ev_created_at event) (session s) = None ->
  (0 < str_count slash (repo_name (ev_repo event)))%nat ->
  db_fault env InsertEvent (db_calls s) = None ->
  db_fault env InsertEvent (S (db_calls s)) = None ->
  exists s1 s2 row,
    insert_event env event s = Val true s1
    /\ insert_event env event s1 = Val true s2
    /\ session s1 = session s ++ [row]
    /\ session s2 = session s ++ [on_conflict_update (clock s) row]
    /\ count_key (ev_id event) (ev_created_at event) (session s2) = 1%nat
    /\ List.length (session s2) = S (List.length (session s))
    /\ events_inserted (stats s2) = S (S (events_inserted (stats s))).
Proof.
  intros Hfresh Hslash Hdb1 Hdb2.
  destruct (str_split_first_sep slash _ Hslash) as (a & b & Hsplit & _ & _).
  set (row := build_row env (clock s) event a b).
  pose proof (insert_event_written env event s a b Hsplit Hdb1) as H1.
  fold row in H1.
  remember (set_stats (add_events_inserted 1)
              (set_session (upsert (clock s) row) (set_db_calls S s)))
    as s1 eqn:Es1.
  assert (Hs1 : session s1 = session s ++ [row])
    by (rewrite Es1; cbn [session set_stats set_session set_db_calls];
        apply (upsert_fresh (clock s) row (session s) Hfresh)).
  assert (Hc1 : clock s1 = clock s) by (rewrite Es1; reflexivity).
  assert (Hd1 : db_calls s1 = S (db_calls s)) by (rewrite Es1; reflexivity).
  assert (Hi1 : events_inserted (stats s1) = S (events_inserted (stats s)))
    by (rewrite Es1; cbn; lia).
  rewrite <- Hd1 in Hdb2.
  pose proof (insert_event_written env event s1 a b Hsplit Hdb2) as H2.
  rewrite Hc1 in H2. fold row in H2.
  eexists s1, _, row. split; [exact H1|]. split; [exact H2|].
  split; [exact Hs1|].
  cbn [session stats set_stats set_session set_db_calls events_inserted
       add_events_inserted].
  rewrite Hs1.
  rewrite (upsert_last (clock s) row row (session s) Hfresh)
    by (unfold same_key; rewrite !String.eqb_refl; reflexivity).
  split; [reflexivity|]. split; [|split].
  - unfold count_key. rewrite filter_app, length_app.
    fold (count_key (ev_id event) (ev_created_at event) (session s)).
    rewrite (count_key_fresh _ _ _ Hfresh). cbn [filter].
    rewrite has_key_on_conflict_update.
    unfold has_key, row. cbn [build_row event_id created_at].
    rewrite !String.eqb_refl. reflexivity.
  - rewrite length_app. cbn [List.length]. lia.
  - rewrite Hi1. lia.
Qed.

(** What one call of [insert_event] can do. *)
Lemma insert_event_outcomes (env : Env) (event : RawEvent) (s : State) :
  committed (final (insert_event env event s)) = committed s
  /\ match insert_event env event s with
     | Val true s' =>
         events_inserted (stats s') = S (events_inserted (stats s))
         /\ errors (stats s') = errors (stats s)
         /\ db_calls s' = S (db_calls s)
     | Val false s' =>
         errors (stats s') = S (errors (stats s))
         /\ events_inserted (stats s') = events_inserted (stats s)
         /\ session s' = session s
     | Raised e s' =>
         e = KeyboardInterrupt /\ stats s' = stats s /\ session s' = session s
     | OutOfFuel _ => False
     end.
Proof.
  destruct (str_count slash (repo_name (ev_repo event))) as [|k] eqn:Hc.
  - rewrite (insert_event_unsplit env event s Hc). cbn. repeat split; lia.
  - destruct (str_split_first_sep slash (repo_name (ev_repo event)))
      as (a & b & Hsplit & _ & _); [lia|].
    destruct (db_fault env InsertEvent (db_calls s)) as [e|] eqn:Hdb.
    + rewrite (insert_event_fault env event s a b e Hsplit Hdb).
      destruct e; cbn; repeat split; lia.
    + rewrite (insert_event_written env event s a b Hsplit Hdb).
      cbn. repeat split; lia.
Qed.

(** X4. Every call of [insert_event] counts once: it answers [True] with
    one more insert and one statement sent, or [False] with one more error
    and the table as it was; only a keyboard interrupt gets out of it, and
    then nothing is counted.  It never commits. *)
Theorem insert_event_counts_once (env : Env) (event : RawEvent) (s : State) :
  committed (final (insert_event env event s)) = committed s
  /\ match insert_event env event s with
     | Val true s' =>
         events_inserted (stats s') = S (events_inserted (stats s))
         /\ errors (stats s') = errors (stats s)
         /\ db_calls s' = S (db_calls s)
     | Val false s' =>
         errors (stats s') = S (errors (stats s))
         /\ events_inserted (stats s') = events_inserted (stats s)
         /\ session s' = session s
     | Raised e s' =>
         e = KeyboardInterrupt /\ stats s' = stats s /\ session s' = session s
     | OutOfFuel _ => False
     end.
Proof. exact (insert_event_outcomes env event s). Qed.

Section Payload.

Lemma dict_get_cons (k : string) (kv : string * json) (d : dict) :
  dict_get k (kv :: d)
  = if String.eqb (fst kv) k then Some (snd kv) else dict_get k d.
Proof. unfold dict_get. simpl. destruct (String.eqb (fst kv) k); reflexivity. Qed.

Lemma dict_get_set (k k0 : string) (v0 : json) (d : dict) :
  dict_get k (dict_set k0 v0 d)
  = if String.eqb k0 k then Some v0 else dict_get k d.
Proof.
  induction d as [|[k' v'] rest IH]; simpl.
  - rewrite dict_get_cons. reflexivity.
  - destruct (String.eqb_spec k' k0) as [->|Hne].
    + rewrite !dict_get_cons. simpl. destruct (String.eqb k0 k); reflexivity.
    + rewrite !dict_get_cons. simpl. rewrite IH.
      destruct (String.eqb_spec k' k) as [Heq|Hne'].
      * destruct (String.eqb_spec k0 k) as [Heq0|Hne0]; [congruence|reflexivity].
      * reflexivity.
Qed.

Lemma dict_get_snoc (k : string) (kv : string * json) (d : dict) :
  dict_get k (d ++ [kv])
  = match dict_get k d with
    | Some v => Some v
    | None => if String.eqb (fst kv) k then Some (snd kv) else None
    end.
Proof.
  induction d as [|x rest IH]; simpl.
  - rewrite dict_get_cons. reflexivity.
  - rewrite !dict_get_cons. destruct (String.eqb (fst x) k); [reflexivity | exact IH].
Qed.

(** After [d.update(other)] a key has the value [other] gave it last, and
    otherwise the value it had. *)
Lemma dict_get_update (k : string) (other d : dict) :
  dict_get k (dict_update d other)
  = match dict_get k (rev other) with
    | Some v => Some v
    | None => dict_get k d
    end.
Proof.
  unfold dict_update. revert d.
  induction other as [|[k0 v0] rest IH]; intros d; simpl; [reflexivity|].
  rewrite IH, dict_get_snoc, dict_get_set. simpl.
  destruct (dict_get k (rev rest)); [reflexivity|].
  destruct (String.eqb k0 k); reflexivity.
Qed.

Lemma dict_get_absent (k : string) (d : dict) :
  ~ In k (dict_keys d) -> dict_get k d = None.
Proof.
  induction d as [|[k' v'] rest IH]; simpl; intros H; [reflexivity|].
  rewrite dict_get_cons. simpl.
  destruct (String.eqb_spec k' k) as [Heq|Hne];
    [exfalso; apply H; left; exact Heq|].
  apply IH. intros Hin. apply H. right. exact Hin.
Qed.

Lemma dict_get_unique (k : string) (v : json) (d : dict) :
  NoDup (dict_keys d) -> In (k, v) d -> dict_get k d = Some v.
Proof.
  induction d as [|[k' v'] rest IH]; simpl; intros Hnd Hin; [contradiction|].
  inversion Hnd as [|? ? Hnotin Hnd']; subst. rewrite dict_get_cons. simpl.
  destruct Hin as [Heq|Hin].
  - inversion Heq; subst. rewrite String.eqb_refl. reflexivity.
  - destruct (String.eqb_spec k' k) as [Heq|Hne]; [|apply IH; assumption].
    exfalso. apply Hnotin. apply (in_map fst) in Hin. rewrite Heq. exact Hin.
Qed.

Lemma dict_keys_rev (d : dict) : dict_keys (rev d) = rev (dict_keys d).
Proof. unfold dict_keys. apply map_rev. Qed.

Lemma dict_keys_set (k : string) (v : json) (d : dict) :
  dict_keys (dict_set k v d)
  = if in_dec string_dec k (dict_keys d) then dict_keys d
    else dict_keys d ++ [k].
Proof.
  induction d as [|[k' v'] rest IH]; simpl; [reflexivity|].
  destruct (String.eqb_spec k' k) as [->|Hne]; simpl.
  - destruct (string_dec k k); [reflexivity | congruence].
  - rewrite IH. destruct (string_dec k' k) as [Heq|Hne2]; [congruence|].
    destruct (in_dec string_dec k (dict_keys rest)); reflexivity.
Qed.

Lemma NoDup_dict_set (k : string) (v : json) (d : dict) :
  NoDup (dict_keys d) -> NoDup (dict_keys (dict_set k v d)).
Proof.
  intros Hnd. rewrite dict_keys_set.
  destruct (in_dec string_dec k (dict_keys d)) as [_|Hno]; [exact Hnd|].
  apply NoDup_app; [exact Hnd | constructor; [intros [] | constructor] |].
  intros x Hx [<-|[]]. exact (Hno Hx).
Qed.

Lemma NoDup_dict_update (other d : dict) :
  NoDup (dict_keys d) -> NoDup (dict_keys (dict_update d other)).
Proof.
  unfold dict_update. revert d.
  induction other as [|[k v] rest IH]; intros d Hnd; simpl; [exact Hnd|].
  apply IH, NoDup_dict_set, Hnd.
Qed.

Variable env : Env.

Lemma build_payload_eq (now : Z) (event : RawEvent) :
  build_payload env now event
  = match ev_payload event with
    | Some p => dict_update (build_payload env now (without_payload event)) p
    | None => build_payload env now (without_payload event)
    end.
Proof. unfold build_payload. cbn. destruct (ev_payload event); reflexivity. Qed.

Lemma NoDup_base_payload (now : Z) (event : RawEvent) :
  NoDup (dict_keys (build_payload env now (without_payload event))).
Proof.
  unfold build_payload, dict_keys. cbn.
  repeat constructor; simpl; intuition discriminate.
Qed.

End Payload.

(** X5. On a key they share, the upstream payload wins: every entry of the
    event's own ["payload"] is in the stored payload with its value. *)
Theorem payload_upstream_wins (env : Env) (now : Z) (event : RawEvent)
    (p : dict) (k : string) (v : json) :
  ev_payload event = Some p ->
  NoDup (dict_keys p) ->
  In (k, v) p ->
  dict_get k (build_payload env now event) = Some v.
Proof.
  intros Hp Hnd Hin. rewrite build_payload_eq, Hp, dict_get_update.
  rewrite (dict_get_unique k v (rev p)); [reflexivity | |].
  - rewrite dict_keys_rev. apply NoDup_rev, Hnd.
  - apply in_rev in Hin. exact Hin.
Qed.

(** X6. A key the upstream payload does not have keeps what the script put
    there -- the provenance ["backfill_source"] and ["backfill_date"], the
    actor, the repository, ["public"], ["action"] -- and a key of neither
    is absent. *)
Theorem payload_keeps_other_keys (env : Env) (now : Z) (event : RawEvent)
    (k : string) :
  (forall p, ev_payload event = Some p -> ~ In k (dict_keys p)) ->
  dict_get k (build_payload env now event)
  = dict_get k (build_payload env now (without_payload event))
  /\ dict_get "backfill_source" (build_payload env now (without_payload event))
     = Some (JStr "workspace_backfill")
  /\ dict_get "backfill_date" (build_payload env now (without_payload event))
     = Some (JStr (isoformat_utc env now))
  /\ dict_get "public" (build_payload env now (without_payload event))
     = Some (JBool (ev_public event))
  /\ dict_get "action" (build_payload env now (without_payload event))
     = Some (match ev_action event with Some a => a | None => JNull end).
Proof.
  intros Hk. split; [|repeat split].
  rewrite build_payload_eq.
  destruct (ev_payload event) as [p|] eqn:Hp; [|reflexivity].
  rewrite dict_get_update, dict_get_absent; [reflexivity|].
  rewrite dict_keys_rev. intros Hin. apply in_rev in Hin.
  exact (Hk p eq_refl Hin).
Qed.

(** X7. The stored payload is a proper dictionary: no key twice, whatever
    the upstream payload holds. *)
Theorem payload_keys_unique (env : Env) (now : Z) (event : RawEvent) :
  NoDup (dict_keys (build_payload env now event)).
Proof.
  rewrite build_payload_eq.
  destruct (ev_payload event) as [p|];
    [apply NoDup_dict_update|]; apply NoDup_base_payload.
Qed.

(* ===================================================================== *)
(** ** Further properties: what each part leaves alone *)
(* ===================================================================== *)

Lemma keeps_unique_keys_same (s s' : State) :
  session s' = session s -> committed s' = committed s ->
  keeps_unique_keys s s'.
Proof. intros Hs Hc. unfold keeps_unique_keys, unique_keys. rewrite Hs, Hc. auto. Qed.

Lemma keeps_unique_keys_common : StableCommon keeps_unique_keys.
Proof.
  split; try (intros; apply keeps_unique_keys_same; reflexivity).
  intros a b c H1 H2 H. exact (H2 (H1 H)).
Qed.

Lemma keeps_unique_keys_cursor : StableCursor keeps_unique_keys.
Proof. split; intros; apply keeps_unique_keys_same; reflexivity. Qed.

Lemma keeps_unique_keys_writer : StableWriter keeps_unique_keys.
Proof.
  split; try (intros; apply keeps_unique_keys_same; reflexivity).
  - intros now row s [Hs Hc]. split; [|exact Hc]. cbn.
    apply NoDup_keys_upsert, Hs.
  - intros s [Hs Hc]. split; exact Hs.
  - intros s [Hs Hc]. split; exact Hc.
Qed.

Lemma keeps_unique_keys_repo : StableRepo keeps_unique_keys.
Proof. split; intros; apply keeps_unique_keys_same; reflexivity. Qed.

(** X8. The run keeps the key of the table unique: if the session and the
    committed table hold every [(event_id, created_at)] once, they still do
    after the main loop, however it went. *)
Theorem run_keeps_keys_unique (env : Env) (fuel i total : nat)
    (repositories : list RepositoryTarget) (s : State) :
  unique_keys s ->
  unique_keys (final (process_repositories env fuel i total repositories s)).
Proof.
  intros H.
  pose proof (sat_process_repositories env keeps_unique_keys
                keeps_unique_keys_common keeps_unique_keys_cursor
                keeps_unique_keys_writer keeps_unique_keys_repo
                fuel i total repositories
                (fun l s0 _ => keeps_unique_keys_same s0 _ eq_refl eq_refl) s)
    as Hsat.
  destruct (process_repositories env fuel i total repositories s);
    destruct Hsat as [Hsat _]; exact (Hsat H).
Qed.

Lemma db_untouched_common : StableCommon db_untouched.
Proof.
  split; unfold db_untouched; try (intros; repeat split; reflexivity).
  intros a b c (?&?&?&?&?) (?&?&?&?&?). repeat split; congruence.
Qed.

Lemma db_untouched_cursor : StableCursor db_untouched.
Proof. split; unfold db_untouched; intros; repeat split; reflexivity. Qed.

(** X9. Fetching never touches the database: whatever the feed does,
    [get_repo_events] leaves the session, the committed table, the count of
    database calls, [events_inserted] and [repos_processed] as they were. *)
Theorem get_repo_events_leaves_database (env : Env) (fuel : nat)
    (o n : string) (days_back : Z) (s : State) :
  db_untouched s (final (get_repo_events env fuel o n days_back s)).
Proof.
  pose proof (sat_get_repo_events env db_untouched db_untouched_common
                db_untouched_cursor fuel o n days_back s) as H.
  destruct (get_repo_events env fuel o n days_back s);
    destruct H as [H _]; exact H.
Qed.

Lemma feed_untouched_common : StableCommon feed_untouched.
Proof.
  split; unfold feed_untouched; try (intros; repeat split; reflexivity).
  intros a b c (?&?&?) (?&?&?). repeat split; congruence.
Qed.

Lemma feed_untouched_writer : StableWriter feed_untouched.
Proof. split; unfold feed_untouched; intros; repeat split; reflexivity. Qed.

(** X10. Writing never touches the feed: the loop over the events of a
    repository makes no HTTP request and leaves [api_calls] and
    [events_fetched] as they were, whatever the database does. *)
Theorem insert_events_leaves_feed (env : Env) (events : list RawEvent)
    (inserted_count failed_count : nat) (s : State) :
  feed_untouched s
    (final (insert_events env events inserted_count failed_count s)).
Proof.
  pose proof (sat_insert_events env feed_untouched feed_untouched_common
                feed_untouched_writer events inserted_count failed_count
                True s) as H.
  destruct (insert_events env events inserted_count failed_count s);
    destruct H as [H _]; exact H.
Qed.

(* ===================================================================== *)
(** ** Further properties: one record, one transaction *)
(* ===================================================================== *)

Section OneByOne.

Variable env : Env.
Hypothesis Hcommit : never_faults env Commit.
Hypothesis Hrollback : never_faults env Rollback.

Lemma commit_ok (s : State) :
  commit env s
  = Val tt (set_committed (fun _ => session s) (set_db_calls S s)).
Proof. unfold commit, bind, gets, modify. rewrite db_call_eq, Hcommit. reflexivity. Qed.

Lemma rollback_ok (s : State) :
  rollback env s
  = Val tt (set_session (fun _ => committed s) (set_db_calls S s)).
Proof. unfold rollback, bind, gets, modify. rewrite db_call_eq, Hrollback. reflexivity. Qed.

(** One turn of the loop over the events, when commit and rollback work:
    the event is counted once, as inserted or as failed, in the local
    counters as in [self.stats], and the transaction is closed. *)
Lemma insert_one_step (event : RawEvent) (i f : nat) (s : State) :
  match insert_one env event i f s with
  | Val (i', f') s' =>
      session s' = committed s'
      /\ ((i' = S i /\ f' = f
           /\ events_inserted (stats s') = S (events_inserted (stats s))
           /\ errors (stats s') = errors (stats s))
          \/ (i' = i /\ f' = S f
              /\ events_inserted (stats s') = events_inserted (stats s)
              /\ errors (stats s') = S (errors (stats s))))
  | Raised e s' =>
      e = KeyboardInterrupt
      /\ (session s = committed s -> session s' = committed s')
  | OutOfFuel _ => False
  end.
Proof.
  pose proof (insert_event_outcomes env event s) as [Hcom Hone].
  unfold insert_one, guarded.
  destruct (insert_event env event s) as [[|] s1|e s1|s1];
    cbn [final] in Hcom; [| | |contradiction].
  - destruct Hone as (Hi & He & _).
    unfold bind. rewrite commit_ok. unfold show_progress.
    destruct (S i <=? 3)%nat; cbn; (split; [reflexivity|]); left; auto.
  - destruct Hone as (He & Hi & _).
    rewrite rollback_ok. cbn. split; [reflexivity|]. right. auto.
  - destruct Hone as (-> & _ & Hs). cbn. split; [reflexivity|]. congruence.
Qed.

Lemma insert_events_steps (events : list RawEvent) :
  forall (i f : nat) (s : State),
    match insert_events env events i f s with
    | Val (i', f') s' =>
        (session s = committed s -> session s' = committed s')
        /\ (i' + f' = i + f + List.length events)%nat
        /\ (events_inserted (stats s') + i = events_inserted (stats s) + i')%nat
        /\ (errors (stats s') + f = errors (stats s) + f')%nat
    | Raised e s' =>
        e = KeyboardInterrupt
        /\ (session s = committed s -> session s' = committed s')
    | OutOfFuel _ => False
    end.
Proof.
  induction events as [|event rest IH]; intros i f s; cbn [insert_events].
  - cbn. repeat split; auto; lia.
  - unfold bind. pose proof (insert_one_step event i f s) as Hone.
    destruct (insert_one env event i f s) as [[i1 f1] s1|e s1|s1];
      [| exact Hone | contradiction].
    destruct Hone as [Hsync Hcount]. cbn [fst snd].
    specialize (IH i1 f1 s1).
    destruct (insert_events env rest i1 f1 s1) as [[i2 f2] s2|e s2|s2];
      [| |contradiction].
    + destruct IH as (Hs & Hsum & Hins & Herr).
      split; [intros _; exact (Hs Hsync)|]. cbn [List.length].
      destruct Hcount as [(-> & -> & Hi & He)|(-> & -> & Hi & He)];
        repeat split; lia.
    + destruct IH as [-> Hs]. split; [reflexivity | intros _; exact (Hs Hsync)].
Qed.

End OneByOne.

(** X11. When commit and rollback go through, the loop over the events of
    a repository counts every event once: its two counters add up to the
    number of events, [events_inserted] has grown by the one and [errors] by
    the other -- and no transaction is left open. *)
Theorem insert_events_counts_every_event (env : Env)
    (events : list RawEvent) (s : State) :
  never_faults env Commit -> never_faults env Rollback ->
  calm env ->
  exists inserted_count failed_count s',
    insert_events env events 0 0 s = Val (inserted_count, failed_count) s'
    /\ (inserted_count + failed_count = List.length events)%nat
    /\ events_inserted (stats s')
       = (events_inserted (stats s) + inserted_count)%nat
    /\ errors (stats s') = (errors (stats s) + failed_count)%nat
    /\ (session s = committed s -> session s' = committed s').
Proof.
  intros Hc Hr Hcalm.
  pose proof (insert_events_steps env Hc Hr events 0 0 s) as H.
  pose proof (sat_insert_events env anywhere anywhere_common anywhere_writer
                events 0 0 True s) as Hsat.
  destruct (insert_events env events 0 0 s) as [[i f] s'|e s'|s'];
    [| |contradiction].
  - destruct H as (Hs & Hsum & Hi & He).
    exists i, f, s'. repeat split; auto; lia.
  - destruct H as [-> _]. destruct Hsat as [_ Hp]. exfalso.
    exact (Hp eq_refl Hcalm).
Qed.

Lemma in_sync_common : StableCommon in_sync.
Proof.
  split; unfold in_sync; try (intros; cbn; assumption).
  intros a b c H1 H2 H. exact (H2 (H1 H)).
Qed.

Lemma in_sync_cursor : StableCursor in_sync.
Proof. split; unfold in_sync; intros; cbn; assumption. Qed.

Lemma in_sync_repo : StableRepo in_sync.
Proof. split; unfold in_sync; intros; cbn; assumption. Qed.

Section OrchestratorFrom.

Variable env : Env.
Variable R : State -> State -> Prop.
Hypothesis HR : StableCommon R.
Hypothesis HC : StableCursor R.
Hypothesis HP : StableRepo R.
Hypothesis Hline :
  forall l s, attempt l <> [] -> R s (set_console (fun c => c ++ [l]) s).
Hypothesis Hevents :
  forall events i f, sat R any (possible env) False (insert_events env events i f).

(** The main loop, for a relation that the loop over the events is known
    to keep. *)
Lemma sat_process_repositories_from (fuel i total : nat)
    (repositories : list RepositoryTarget) :
  sat R any none (never_403 env -> (fuel < 10)%nat)
      (process_repositories env fuel i total repositories).
Proof.
  revert i. induction repositories as [|repo rest IH]; intros i;
    cbn [process_repositories].
  - apply (sat_ret R HR). exact I.
  - apply (sat_bind R HR) with (Q1 := any).
    + apply (sat_modify R); [|exact I]. intros s. apply Hline. discriminate.
    + intros _ _.
      apply (sat_guarded R HR) with (Q1 := any) (E1 := possible env).
      * apply (sat_bind R HR) with (Q1 := any).
        -- unfold backfill_repository.
           apply (sat_bind R HR) with (Q1 := any);
             [apply (sat_print R HR); [reflexivity | exact I] | intros _ _].
           apply (sat_bind R HR) with (Q1 := any).
           { eapply (sat_weaken R);
               [apply (sat_get_repo_events env R HR HC)
               | auto | apply interrupted_possible | auto]. }
           intros events _. destruct events as [|event events].
           { apply (sat_print R HR); [reflexivity | exact I]. }
           apply (sat_bind R HR) with (Q1 := any).
           { eapply (sat_weaken R); [apply Hevents | auto | auto | intros []]. }
           intros counts _.
           apply (sat_bind R HR) with (Q1 := any);
             [apply (sat_print R HR); [reflexivity | exact I] | intros _ _].
           apply (sat_bind R HR) with (Q1 := any).
           { destruct (0 <? snd counts)%nat;
               [apply (sat_print R HR); [reflexivity | exact I]
               | apply (sat_ret R HR); exact I]. }
           intros _ _.
           apply (sat_modify R); [apply (sc_repos_processed R HP) | exact I].
        -- intros _ _. destruct (i <? total)%nat;
             [apply (sat_sleep R HR) | apply (sat_ret R HR)]; exact I.
      * intros [cls|] _.
        -- apply (sat_bind R HR) with (Q1 := any);
             [apply (sat_count_error R HR); [reflexivity | exact I]|].
           intros _ _. apply IH.
        -- apply (sat_print R HR); [reflexivity | exact I].
      * intros _ _. apply IH.
Qed.

End OrchestratorFrom.

(** X12. No transaction spans more than one record: when commit and
    rollback go through, a main loop that starts with nothing pending ends
    with nothing pending -- whatever the feed and the INSERT statements do,
    and wherever the loop stops. *)
Theorem run_leaves_nothing_pending (env : Env) (fuel i total : nat)
    (repositories : list RepositoryTarget) (s : State) :
  never_faults env Commit -> never_faults env Rollback ->
  session s = committed s ->
  session (final (process_repositories env fuel i total repositories s))
  = committed (final (process_repositories env fuel i total repositories s)).
Proof.
  intros Hc Hr Hs.
  assert (Hevents : forall events i f,
             sat in_sync any (possible env) False
                 (insert_events env events i f)).
  { intros events i0 f0 s0.
    pose proof (insert_events_steps env Hc Hr events i0 f0 s0) as H.
    pose proof (sat_insert_events env anywhere anywhere_common anywhere_writer
                  events i0 f0 True s0) as Hsat.
    destruct (insert_events env events i0 f0 s0) as [[i1 f1] s1|e s1|s1];
      [| |contradiction].
    - destruct H as [H _]. split; [exact H | exact I].
    - destruct H as [_ H]. destruct Hsat as [_ Hp]. split; [exact H | exact Hp]. }
  pose proof (sat_process_repositories_from env in_sync in_sync_common
                in_sync_cursor in_sync_repo
                (fun l s0 _ H => H) Hevents fuel i total repositories s)
    as Hsat.
  destruct (process_repositories env fuel i total repositories s);
    destruct Hsat as [Hsat _]; exact (Hsat Hs).
Qed.

(* ===================================================================== *)
(** ** Further properties of the cursor *)
(* ===================================================================== *)

Section CursorCounts.

Variable env : Env.

Ltac count_done :=
  cbn; repeat split; auto; try lia.

(** One turn of the paging loop, in numbers. *)
Lemma fetch_page_counts (o n : string) (cutoff_date : Z) (page : nat)
    (events : list RawEvent) (s : State) :
  let x := exchange_at env o n page s in
  let out := fetch_page env o n cutoff_date page events s in
  api_calls (stats (final out))
  = (api_calls (stats s) + (if is_answered x then 1 else 0))%nat
  /\ clock s <= clock (final out)
  /\ match out with
     | Val (Continue _ _) s' => errors (stats s') = errors (stats s)
     | Val _ s' =>
         (errors (stats s) <= errors (stats s') <= errors (stats s) + 1)%nat
     | Raised _ s' => errors (stats s') = errors (stats s)
     | OutOfFuel _ => False
     end.
Proof.
  cbv zeta. unfold is_answered, exchange_at. cbn [x_outcome].
  unfold fetch_page, guarded, http_get. cbv zeta.
  destruct (requests_get env o n page 100 (List.length (exchanges s)))
    as [e|r] eqn:Hreq.
  { destruct e; count_done. }
  cbn [bump modify].
  destruct (Z.eqb_spec (status_code r) 404) as [H404|H404]; [count_done|].
  destruct (Z.eqb_spec (status_code r) 403) as [H403|H403].
  { unfold rate_limited.
    destruct (rate_limit_reset r) as [[reset|]|]; cbn;
      [| count_done | count_done].
    match goal with |- context [if ?b then _ else _] => destruct b end;
      count_done. }
  destruct (Z.eqb_spec (status_code r) 200) as [H200|H200]; [|count_done].
  cbn [negb]. unfold response_json.
  destruct (body r) as [[|x rest]|]; [count_done | | count_done].
  cbn [ret].
  destruct (filter_page env cutoff_date events (x :: rest))
    as [ev'|ev'|e ev'] eqn:Hscan.
  - count_done.
  - count_done.
  - rewrite (filter_page_raises _ _ _ _ _ _ Hscan). count_done.
Qed.

Lemma answered_count_cons (x : Exchange) (xs : list Exchange) :
  answered_count (x :: xs)
  = ((if is_answered x then 1 else 0) + answered_count xs)%nat.
Proof. unfold answered_count. simpl. destruct (is_answered x); reflexivity. Qed.

(** The whole loop, in numbers. *)
Lemma paging_counts (fuel : nat) (o n : string) (cutoff_date : Z) :
  forall (page : nat) (events : list RawEvent) (s : State),
    let out := paging env fuel o n cutoff_date page events s in
    exists new,
      exchanges (final out) = exchanges s ++ new
      /\ api_calls (stats (final out))
         = (api_calls (stats s) + answered_count new)%nat
      /\ clock s <= clock (final out)
      /\ (errors (stats s) <= errors (stats (final out))
          <= errors (stats s) + 1)%nat.
Proof.
  cbv zeta.
  assert (Hfound : forall events s,
    exchanges (final (found o n events s)) = exchanges s
    /\ api_calls (stats (final (found o n events s))) = api_calls (stats s)
    /\ clock (final (found o n events s)) = clock s
    /\ errors (stats (final (found o n events s))) = errors (stats s)).
  { intros events s. cbn. repeat split. }
  assert (Hstop : forall events s,
    exists new,
      exchanges (final (found o n events s)) = exchanges s ++ new
      /\ api_calls (stats (final (found o n events s)))
         = (api_calls (stats s) + answered_count new)%nat
      /\ clock s <= clock (final (found o n events s))
      /\ (errors (stats s) <= errors (stats (final (found o n events s)))
          <= errors (stats s) + 1)%nat).
  { intros events s. destruct (Hfound events s) as (H1 & H2 & H3 & H4).
    exists []. rewrite H1, H2, H3, H4, app_nil_r.
    unfold answered_count. cbn [filter List.length]. repeat split; lia. }
  induction fuel as [|fuel IH]; intros page events s; cbn [paging].
  - destruct (page <=? 10)%nat; [|apply Hstop].
    exists []. cbn. rewrite app_nil_r. repeat split; lia.
  - destruct (page <=? 10)%nat; [|apply Hstop].
    pose proof (fetch_page_post env o n cutoff_date page events s) as Hpost.
    pose proof (fetch_page_counts o n cutoff_date page events s) as Hcnt.
    cbv zeta in Hpost, Hcnt. destruct Hpost as [Hx _].
    destruct Hcnt as (Hapi & Hclock & Herr).
    set (x := exchange_at env o n page s) in *.
    unfold bind.
    destruct (fetch_page env o n cutoff_date page events s)
      as [[page' events'|events'|events'] s1|e s1|s1];
      cbn [final] in Hx, Hapi, Hclock.
    + destruct (IH page' events' s1) as (new & Hn & Ha & Hc & He).
      exists (x :: new). rewrite answered_count_cons.
      split; [rewrite Hn, Hx, <- app_assoc; reflexivity|].
      unfold x in *.
      destruct (is_answered (exchange_at env o n page s));
        repeat split; lia.
    + destruct (Hfound events' s1) as (H1 & H2 & H3 & H4).
      exists [x]. rewrite answered_count_cons, H1, H2, H3, H4.
      split; [exact Hx|]. unfold answered_count. cbn [filter List.length].
      unfold x in *.
      destruct (is_answered (exchange_at env o n page s));
        repeat split; lia.
    + exists [x]. rewrite answered_count_cons. cbn [final ret].
      split; [exact Hx|]. unfold answered_count. cbn [filter List.length].
      unfold x in *.
      destruct (is_answered (exchange_at env o n page s));
        repeat split; lia.
    + exists [x]. rewrite answered_count_cons. cbn [final ret].
      split; [exact Hx|]. unfold answered_count. cbn [filter List.length].
      unfold x in *.
      destruct (is_answered (exchange_at env o n page s));
        repeat split; lia.
    + contradiction.
Qed.

End CursorCounts.

Lemma get_repo_events_counts (env : Env) (fuel : nat) (o n : string)
    (days_back : Z) (s : State) :
  let out := get_repo_events env fuel o n days_back s in
  exists new,
    exchanges (final out) = exchanges s ++ new
    /\ api_calls (stats (final out))
       = (api_calls (stats s) + answered_count new)%nat
    /\ clock s <= clock (final out)
    /\ (errors (stats s) <= errors (stats (final out))
        <= errors (stats s) + 1)%nat.
Proof.
  cbv zeta. unfold get_repo_events, bind, print, modify, datetime_now, gets.
  set (s0 := set_console (fun c => c ++ [LFetching o n]) s).
  exact (paging_counts env fuel o n (clock s0 - days_back * day_ms) 1 [] s0).
Qed.

(** X13. [api_calls] counts the requests that were answered: over one call
    of [get_repo_events] it grows by the number of requests that came back
    with a response of any status; a request that raised is not counted. *)
Theorem api_calls_counts_answered_requests (env : Env) (fuel : nat)
    (o n : string) (days_back : Z) (s : State) :
  let out := get_repo_events env fuel o n days_back s in
  exists new,
    exchanges (final out) = exchanges s ++ new
    /\ api_calls (stats (final out))
       = (api_calls (stats s) + answered_count new)%nat.
Proof.
  destruct (get_repo_events_counts env fuel o n days_back s)
    as (new & H1 & H2 & _).
  exists new. split; assumption.
Qed.

(** X14. One call of [get_repo_events] counts at most one error: the first
    exception ends the paging. *)
Theorem at_most_one_fetch_error (env : Env) (fuel : nat) (o n : string)
    (days_back : Z) (s : State) :
  let out := get_repo_events env fuel o n days_back s in
  (errors (stats s) <= errors (stats (final out)) <= errors (stats s) + 1)%nat.
Proof.
  destruct (get_repo_events_counts env fuel o n days_back s)
    as (new & _ & _ & _ & H).
  exact H.
Qed.

(** X15. The cursor never sleeps a negative time: whatever reset times the
    feed sends, the clock is not behind where it was. *)
Theorem cursor_clock_never_goes_back (env : Env) (fuel : nat) (o n : string)
    (days_back : Z) (s : State) :
  clock s <= clock (final (get_repo_events env fuel o n days_back s)).
Proof.
  destruct (get_repo_events_counts env fuel o n days_back s)
    as (new & _ & _ & H & _).
  exact H.
Qed.

Section CursorEnds.

Variable env : Env.

(** An answer that ends the feed. *)
Lemma fetch_page_ends_feed (o n : string) (cutoff_date : Z) (page : nat)
    (events : list RawEvent) (s : State) (r : Response) :
  requests_get env o n page 100 (List.length (exchanges s)) = HttpReturns r ->
  ends_feed r ->
  exists s',
    fetch_page env o n cutoff_date page events s = Val (Break events) s'
    /\ exchanges s' = exchanges s ++ [exchange_at env o n page s]
    /\ stats s' = add_api_calls 1 (stats s)
    /\ clock s' = clock s.
Proof.
  intros Hreq [H403 Hend].
  unfold fetch_page, guarded, http_get, exchange_at. cbv zeta.
  rewrite Hreq. cbn [bump modify].
  destruct (Z.eqb_spec (status_code r) 404) as [H404|H404].
  { eexists. split; [reflexivity|]. repeat split. }
  destruct (Z.eqb_spec (status_code r) 403) as [E|_]; [contradiction|].
  destruct (Z.eqb_spec (status_code r) 200) as [H200|H200].
  - destruct Hend as [Hend|Hend]; [contradiction|].
    cbn [negb]. unfold response_json. rewrite Hend.
    eexists. split; [reflexivity|]. repeat split.
  - eexists. split; [reflexivity|]. repeat split.
Qed.

(** Pages of recent events, served one after the other: the loop goes
    through them, keeping the relevant events. *)
Lemma paging_through_pages (o n : string) (cutoff_date : Z)
    (pages : list (list RawEvent)) :
  forall (fuel page : nat) (events : list RawEvent) (s : State),
    (forall i p k,
        nth_error pages i = Some p ->
        exists r,
          requests_get env o n (page + i) 100 k = HttpReturns r
          /\ status_code r = 200 /\ body r = Some p) ->
    (page + List.length pages <= 11)%nat ->
    Forall (fun p => p <> []) pages ->
    forallb (in_window env cutoff_date) (List.concat pages) = true ->
    exists s',
      paging env (List.length pages + fuel) o n cutoff_date page events s
      = paging env fuel o n cutoff_date (page + List.length pages)
          (events ++ filter (fun e => relevant (ev_type e)) (List.concat pages))
          s'
      /\ List.length (exchanges s')
         = (List.length (exchanges s) + List.length pages)%nat
      /\ api_calls (stats s')
         = (api_calls (stats s) + List.length pages)%nat
      /\ errors (stats s') = errors (stats s)
      /\ events_fetched (stats s') = events_fetched (stats s).
Proof.
  induction pages as [|p pages IH];
    intros fuel page events s Hserve Hcap Hne Hwin.
  - exists s. cbn. rewrite !Nat.add_0_r, app_nil_r. repeat split.
  - cbn [List.length] in *. cbn [Nat.add paging].
    assert (Hp : (page <=? 10)%nat = true) by (apply Nat.leb_le; lia).
    rewrite Hp.
    destruct (Hserve 0%nat p (List.length (exchanges s)) eq_refl)
      as (r & Hreq & H200 & Hbody).
    rewrite Nat.add_0_r in Hreq.
    inversion Hne as [|? ? Hp0 Hne']; subst.
    destruct p as [|y rest]; [contradiction|].
    cbn [List.concat] in Hwin. rewrite forallb_app in Hwin.
    apply andb_true_iff in Hwin as [Hwp Hwrest].
    unfold bind.
    rewrite (fetch_page_200 env o n cutoff_date page events s r y rest
               Hreq H200 Hbody).
    rewrite (filter_page_all env cutoff_date (y :: rest) events Hwp).
    set (s1 := set_clock (fun t => t + 500) (answered env o n page s)).
    destruct (IH fuel (S page)
                (events ++ filter (fun e => relevant (ev_type e)) (y :: rest)) s1)
      as (s' & Hrun & Hlen & Hapi & Herr & Hef); try assumption; try lia.
    { intros i q k Hq. destruct (Hserve (S i) q k Hq) as (r' & Hr' & H').
      exists r'. split; [|exact H'].
      replace (S page + i)%nat with (page + S i)%nat by lia. exact Hr'. }
    exists s'. split; [|split; [|split; [|split]]].
    + rewrite Hrun. cbn [List.concat].
      rewrite (filter_app _ (y :: rest)), app_assoc.
      replace (S page + List.length pages)%nat
        with (page + S (List.length pages))%nat by lia.
      reflexivity.
    + rewrite Hlen. unfold s1, answered. cbn. rewrite length_app. simpl. lia.
    + rewrite Hapi. unfold s1, answered. cbn. lia.
    + rewrite Herr. reflexivity.
    + rewrite Hef. reflexivity.
Qed.

End CursorEnds.

(** The loop at an answer that ends the feed. *)
Lemma paging_soft_stop (env : Env) (fuel : nat) (o n : string)
    (cutoff_date : Z) (page : nat) (events : list RawEvent) (s : State)
    (r : Response) :
  (page <= 10)%nat ->
  requests_get env o n page 100 (List.length (exchanges s)) = HttpReturns r ->
  ends_feed r ->
  exists s',
    paging env (S fuel) o n cutoff_date page events s = Val events s'
    /\ exchanges s' = exchanges s ++ [exchange_at env o n page s]
    /\ api_calls (stats s') = S (api_calls (stats s))
    /\ errors (stats s') = errors (stats s)
    /\ events_fetched (stats s')
       = (events_fetched (stats s) + List.length events)%nat
    /\ clock s' = clock s.
Proof.
  intros Hpage Hreq Hend.
  assert (Hp : (page <=? 10)%nat = true) by (apply Nat.leb_le; exact Hpage).
  destruct (fetch_page_ends_feed env o n cutoff_date page events s r Hreq Hend)
    as (s1 & Hturn & Hx & Hst & Hc).
  cbn [paging]. rewrite Hp. unfold bind. rewrite Hturn.
  eexists. split; [reflexivity|]. cbn. rewrite Hx, Hst, Hc. cbn.
  repeat split; lia.
Qed.

(** X16. A status other than 200 and 403 -- a 404 as any other -- and an
    empty page are soft stops: the loop ends there and the events collected
    so far are returned; the request is counted in [api_calls], no error is
    counted, nothing is slept. *)
Theorem soft_stop_returns_collected (env : Env) (fuel : nat) (o n : string)
    (cutoff_date : Z) (page : nat) (events : list RawEvent) (s : State)
    (r : Response) :
  (page <= 10)%nat ->
  requests_get env o n page 100 (List.length (exchanges s)) = HttpReturns r ->
  ends_feed r ->
  exists s',
    paging env (S fuel) o n cutoff_date page events s = Val events s'
    /\ exchanges s' = exchanges s ++ [exchange_at env o n page s]
    /\ api_calls (stats s') = S (api_calls (stats s))
    /\ errors (stats s') = errors (stats s)
    /\ events_fetched (stats s')
       = (events_fetched (stats s) + List.length events)%nat
    /\ clock s' = clock s.
Proof. exact (paging_soft_stop env fuel o n cutoff_date page events s r). Qed.

(** X17. End of feed: pages of recent events, then a soft stop.  The
    cursor returns the relevant events of all the pages, in feed order,
    after one request per page and one more, without counting an error. *)
Theorem end_of_feed_returns_all_pages (env : Env) (fuel : nat)
    (o n : string) (days_back : Z) (s : State)
    (pages : list (list RawEvent)) :
  serves env o n pages ->
  (List.length pages < 10)%nat ->
  (List.length pages < fuel)%nat ->
  Forall (fun p => p <> []) pages ->
  forallb (in_window env (clock s - days_back * day_ms)) (List.concat pages)
  = true ->
  (forall k, exists r,
      requests_get env o n (S (List.length pages)) 100 k = HttpReturns r
      /\ ends_feed r) ->
  exists s',
    get_repo_events env fuel o n days_back s
    = Val (filter (fun e => relevant (ev_type e)) (List.concat pages)) s'
    /\ List.length (exchanges s')
       = (List.length (exchanges s) + List.length pages + 1)%nat
    /\ api_calls (stats s')
       = (api_calls (stats s) + List.length pages + 1)%nat
    /\ errors (stats s') = errors (stats s).
Proof.
  intros Hserve Hlt Hfuel Hne Hwin Hlast.
  unfold get_repo_events, bind, print, modify, datetime_now, gets.
  set (s0 := set_console (fun c => c ++ [LFetching o n]) s).
  change (clock s0) with (clock s).
  set (cutoff_date := clock s - days_back * day_ms) in *.
  destruct fuel as [|fuel]; [lia|].
  replace (S fuel) with (List.length pages + S (fuel - List.length pages))%nat
    by lia.
  destruct (paging_through_pages env o n cutoff_date pages
              (S (fuel - List.length pages)) 1 [] s0)
    as (s1 & Hrun & Hlen & Hapi1 & Herr1 & _); try assumption; try lia.
  rewrite Hrun. cbn [app Nat.add].
  destruct (Hlast (List.length (exchanges s1))) as (r & Hreq & Hend).
  destruct (paging_soft_stop env (fuel - List.length pages) o n
              cutoff_date (S (List.length pages))
              (filter (fun e => relevant (ev_type e)) (List.concat pages))
              s1 r ltac:(lia) Hreq Hend)
    as (s' & Hstop & Hx & Hapi & Herr & _).
  exists s'. split; [exact Hstop|].
  rewrite Hx, length_app, Hlen, Hapi, Herr, Hapi1, Herr1. cbn.
  repeat split; lia.
Qed.

(** X18. The cap: ten pages of recent events are all the cursor reads.  It
    returns their relevant events after exactly ten requests; what the feed
    holds beyond page 10 is never asked for. *)
Theorem ten_pages_are_all (env : Env) (fuel : nat) (o n : string)
    (days_back : Z) (s : State) (pages : list (list RawEvent)) :
  serves env o n pages ->
  List.length pages = 10%nat ->
  (10 <= fuel)%nat ->
  Forall (fun p => p <> []) pages ->
  forallb (in_window env (clock s - days_back * day_ms)) (List.concat pages)
  = true ->
  exists s',
    get_repo_events env fuel o n days_back s
    = Val (filter (fun e => relevant (ev_type e)) (List.concat pages)) s'
    /\ List.length (exchanges s') = (List.length (exchanges s) + 10)%nat
    /\ api_calls (stats s') = (api_calls (stats s) + 10)%nat
    /\ errors (stats s') = errors (stats s).
Proof.
  intros Hserve Hlen Hfuel Hne Hwin.
  unfold get_repo_events, bind, print, modify, datetime_now, gets.
  set (s0 := set_console (fun c => c ++ [LFetching o n]) s).
  change (clock s0) with (clock s).
  set (cutoff_date := clock s - days_back * day_ms) in *.
  replace fuel with (List.length pages + (fuel - 10))%nat by lia.
  destruct (paging_through_pages env o n cutoff_date pages (fuel - 10) 1 [] s0)
    as (s1 & Hrun & Hx & Hapi & Herr & _); try assumption; try lia.
  rewrite Hrun, Hlen. cbn [app Nat.add].
  assert (Hover : forall f evs st,
             paging env f o n cutoff_date 11 evs st = found o n evs st)
    by (intros f evs st; destruct f; reflexivity).
  rewrite Hover. eexists. split; [reflexivity|].
  cbn. rewrite Hx, Hapi, Herr, Hlen. cbn. repeat split; lia.
Qed.

(* ===================================================================== *)
(** ** Further properties of the orchestrator *)
(* ===================================================================== *)

Lemma keys_upsert_old (now : Z) (row : CacheRow) (t : Table)
    (k : string * string) :
  In k (keys t) -> In k (keys (upsert now row t)).
Proof.
  induction t as [|r rest IH]; simpl; [contradiction|].
  destruct (same_key r row); simpl.
  - auto.
  - intros [H|H]; [left; exact H | right; apply IH, H].
Qed.

Lemma keys_upsert_new (now : Z) (row : CacheRow) (t : Table) :
  In (event_id row, created_at row) (keys (upsert now row t)).
Proof.
  induction t as [|r rest IH]; simpl; [left; reflexivity|].
  destruct (same_key r row) eqn:E; simpl.
  - left. rewrite same_key_has_key in E. apply has_key_true in E. exact E.
  - right. exact IH.
Qed.

Section FaultFree.

Variable env : Env.
Hypothesis Hinsert : never_faults env InsertEvent.
Hypothesis Hcommit : never_faults env Commit.

Lemma insert_one_stores (event : RawEvent) (i f : nat) (s : State) :
  (0 < str_count slash (repo_name (ev_repo event)))%nat ->
  exists s',
    insert_one env event i f s = Val (S i, f) s'
    /\ committed s' = session s'
    /\ In (ev_id event, ev_created_at event) (keys (session s'))
    /\ (forall k, In k (keys (session s)) -> In k (keys (session s')))
    /\ events_inserted (stats s') = S (events_inserted (stats s))
    /\ errors (stats s') = errors (stats s).
Proof.
  intros Hslash.
  destruct (str_split_first_sep slash _ Hslash) as (a & b & Hsplit & _ & _).
  unfold insert_one, guarded.
  rewrite (insert_event_written env event s a b Hsplit (Hinsert _)).
  unfold bind. rewrite (commit_ok env Hcommit). unfold show_progress.
  set (row := build_row env (clock s) event a b).
  assert (Hnew : In (ev_id event, ev_created_at event)
                    (keys (upsert (clock s) row (session s))))
    by apply (keys_upsert_new (clock s) row (session s)).
  assert (Hold : forall k, In k (keys (session s)) ->
                           In k (keys (upsert (clock s) row (session s))))
    by (intros k; apply keys_upsert_old).
  destruct (S i <=? 3)%nat; eexists; (split; [reflexivity|]); cbn;
    repeat split; auto; lia.
Qed.

Lemma insert_events_store (events : list RawEvent) :
  Forall (fun e => (0 < str_count slash (repo_name (ev_repo e)))%nat) events ->
  forall (i f : nat) (s : State),
  exists s',
    insert_events env events i f s = Val (i + List.length events, f)%nat s'
    /\ (events <> [] -> committed s' = session s')
    /\ (forall e, In e events ->
                  In (ev_id e, ev_created_at e) (keys (session s')))
    /\ (forall k, In k (keys (session s)) -> In k (keys (session s')))
    /\ events_inserted (stats s')
       = (events_inserted (stats s) + List.length events)%nat
    /\ errors (stats s') = errors (stats s).
Proof.
  induction events as [|event rest IH]; intros Hall i f s;
    cbn [insert_events List.length].
  - exists s. rewrite !Nat.add_0_r. cbn. repeat split; auto.
    + intros H. contradiction.
    + intros e [].
  - inversion Hall as [|? ? Hslash Hrest]; subst.
    destruct (insert_one_stores event i f s Hslash)
      as (s1 & Hone & Hsync & Hnew & Hold & Hins & Herr).
    destruct (IH Hrest (S i) f s1) as (s2 & Hrun & Hsync2 & Hin & Hold2 & Hins2 & Herr2).
    unfold bind. rewrite Hone. cbn [fst snd].
    exists s2. replace (i + S (List.length rest))%nat
      with (S i + List.length rest)%nat by lia.
    split; [exact Hrun|]. split; [|split; [|split; [|split]]].
    + intros _. destruct rest as [|e2 rest2].
      * cbn in Hrun. inversion Hrun; subst. exact Hsync.
      * apply Hsync2. discriminate.
    + intros e [<-|He]; [apply Hold2, Hnew | apply Hin, He].
    + intros k Hk. apply Hold2, Hold, Hk.
    + rewrite Hins2, Hins. lia.
    + rewrite Herr2, Herr. reflexivity.
Qed.

End FaultFree.

(** X19. When INSERT and commit do not fail, the loop over the events of a
    repository stores them all: every event whose repository name has a
    slash is counted as inserted, none as failed, and has its row, under its
    key, in the committed table. *)
Theorem all_events_are_stored (env : Env) (events : list RawEvent)
    (s : State) :
  never_faults env InsertEvent ->
  never_faults env Commit ->
  Forall (fun e => (0 < str_count slash (repo_name (ev_repo e)))%nat) events ->
  events <> [] ->
  exists s',
    insert_events env events 0 0 s = Val (List.length events, 0%nat) s'
    /\ committed s' = session s'
    /\ (forall e, In e events ->
                  In (ev_id e, ev_created_at e) (keys (committed s')))
    /\ events_inserted (stats s')
       = (events_inserted (stats s) + List.length events)%nat
    /\ errors (stats s') = errors (stats s).
Proof.
  intros Hi Hc Hall Hne.
  destruct (insert_events_store env Hi Hc events Hall 0 0 s)
    as (s' & Hrun & Hsync & Hin & _ & Hins & Herr).
  exists s'. split; [exact Hrun|]. split; [exact (Hsync Hne)|].
  split; [|split; assumption].
  intros e He. rewrite (Hsync Hne). apply Hin, He.
Qed.

(** X20. The main loop honours an interrupt between repositories and
    nowhere else: whatever the environment raises -- keyboard interrupts
    included -- the loop itself never raises, and the repositories it has
    taken up are the first ones of the list, in order, none skipped. *)
Theorem loop_attempts_a_prefix (env : Env) (fuel total : nat)
    (repositories : list RepositoryTarget) (i : nat) (s : State) :
  let out := process_repositories env fuel i total repositories s in
  (forall e s', out <> Raised e s')
  /\ exists k,
       attempted (console (final out))
       = attempted (console s) ++ map repo_id_of (firstn k repositories).
Proof.
  cbv zeta. split.
  { pose proof (sat_process_repositories env anywhere anywhere_common
                  anywhere_cursor anywhere_writer anywhere_repo
                  fuel i total repositories (fun _ _ _ => I) s) as H.
    intros e s' Hout. rewrite Hout in H. destruct H as [_ []]. }
  revert i s. induction repositories as [|repo rest IH]; intros i s.
  - exists 0%nat. cbn. rewrite app_nil_r. reflexivity.
  - cbn [process_repositories]. unfold bind at 1.
    unfold print at 1, modify at 1.
    set (s1 := set_console
                 (fun c => c ++ [LProcessing i total (owner repo) (name repo)]) s).
    assert (H1 : attempted (console s1)
                 = attempted (console s) ++ [repo_id_of repo]).
    { unfold s1. cbn [console set_console]. rewrite attempted_snoc. reflexivity. }
    pose proof (sat_attempt env same_attempts same_attempts_common
                  same_attempts_cursor same_attempts_writer same_attempts_repo
                  fuel i total repo s1) as Hbody.
    unfold guarded.
    destruct ((backfill_repository env fuel (owner repo) (name repo)
                 (workspace repo) ;;
               (if (i <? total)%nat then sleep 2000 else ret tt)) s1)
      as [u s2|e s2|s2]; destruct Hbody as [Hsame _];
      unfold same_attempts in Hsame.
    + destruct (IH (S i) s2) as (k & Hk). exists (S k).
      rewrite Hk, Hsame, H1, <- app_assoc. reflexivity.
    + destruct e as [cls|].
      * unfold bind, count_error, bind, print, bump, modify.
        set (s3 := set_stats (add_errors 1) _).
        destruct (IH (S i) s3) as (k & Hk). exists (S k).
        rewrite Hk. unfold s3. cbn [console set_stats set_console].
        rewrite attempted_snoc. cbn [attempt]. rewrite app_nil_r.
        rewrite Hsame, H1, <- app_assoc. reflexivity.
      * exists 1%nat. cbn [final print modify console set_console].
        rewrite attempted_snoc. cbn [attempt firstn map].
        rewrite app_nil_r, Hsame, H1. reflexivity.
    + exists 1%nat. cbn [final firstn map]. rewrite Hsame, H1. reflexivity.
Qed.

Lemma run_backfill_raises_only_at_setup (env : Env) (fuel : nat)
    (workspace_id : option string) (s : State) :
  never_faults env SelectRepositories -> never_faults env CountAll ->
  forall e s', run_backfill env fuel workspace_id s <> Raised e s'.
Proof.
  intros Hs Hc e s'.
  unfold run_backfill, bind, print, modify, get_workspace_repositories, bind,
    ret.
  rewrite db_call_eq, Hs.
  destruct (directory env (scoped workspace_id)) as [|repo rest];
    [discriminate|].
  unfold datetime_now, gets.
  match goal with
  | |- context [process_repositories env fuel ?i ?t ?l ?st] =>
      pose proof (sat_process_repositories env anywhere anywhere_common
                    anywhere_cursor anywhere_writer anywhere_repo
                    fuel i t l (fun _ _ _ => I) st) as Hloop;
      destruct (process_repositories env fuel i t l st) as [[] s2|e2 s2|s2]
  end.
  - unfold count_all, bind, gets. rewrite db_call_eq, Hc. discriminate.
  - destruct Hloop as [_ []].
  - discriminate.
Qed.

(** X21. An interrupt is not an error: when the configuration is accepted
    and connection, lookup, final count and close go through, a run that
    ends, ends with status 0 -- whatever the feed and the writes raise,
    keyboard interrupts included. *)
Theorem interrupt_is_not_an_error (env : Env) (fuel : nat) (cfg : Config)
    (argv : list string) (s : State) :
  valid_config cfg = true ->
  never_faults env Connect ->
  never_faults env SelectRepositories ->
  never_faults env CountAll ->
  never_faults env Close ->
  let out := main env fuel cfg argv s in
  exit_status out = Some 0 \/ exit_status out = None.
Proof.
  intros Hv Hcon Hsel Hcnt Hcl. cbv zeta.
  rewrite main_eq. cbv zeta. rewrite init_eq, Hv, Hcon.
  match goal with |- context [run_backfill env fuel ?w ?st] =>
    pose proof (run_backfill_raises_only_at_setup env fuel w st Hsel Hcnt) as Hrun;
    destruct (run_backfill env fuel w st) as [[] s2|e s2|s2]
  end.
  - unfold close. rewrite db_call_eq, Hcl. left. reflexivity.
  - exfalso. exact (Hrun e s2 eq_refl).
  - right. reflexivity.
Qed.

(** The loop at a request that raises: the handler reports and counts the
    exception and leaves the loop; what was collected is returned. *)
Lemma paging_hard_stop (env : Env) (fuel : nat) (o n : string)
    (cutoff_date : Z) (page : nat) (events : list RawEvent) (s : State)
    (cls : string) :
  (page <= 10)%nat ->
  requests_get env o n page 100 (List.length (exchanges s))
  = HttpRaises (Exception cls) ->
  exists s',
    paging env (S fuel) o n cutoff_date page events s = Val events s'
    /\ exchanges s' = exchanges s ++ [exchange_at env o n page s]
    /\ api_calls (stats s') = api_calls (stats s)
    /\ errors (stats s') = S (errors (stats s))
    /\ events_fetched (stats s')
       = (events_fetched (stats s) + List.length events)%nat
    /\ console s'
       = console s ++ [LFetchError o n (Exception cls);
                       LFound (List.length events) o n]
    /\ clock s' = clock s.
Proof.
  intros Hpage Hreq.
  assert (Hp : (page <=? 10)%nat = true) by (apply Nat.leb_le; exact Hpage).
  cbn [paging]. rewrite Hp.
  unfold bind, fetch_page, guarded, http_get, exchange_at. cbv zeta.
  rewrite Hreq.
  eexists. split; [reflexivity|]. cbn. rewrite <- app_assoc.
  repeat split; lia.
Qed.

(** X23. A request that raises ends the fetch and loses nothing: when the
    feed has served pages of recent events and the next request raises, the
    cursor counts one error, reports it, and returns the relevant events of
    the pages it has read, counted in [events_fetched]; the request that
    raised is not an API call. *)
Theorem transport_error_returns_collected (env : Env) (fuel : nat)
    (o n : string) (days_back : Z) (s : State)
    (pages : list (list RawEvent)) (cls : string) :
  serves env o n pages ->
  (List.length pages < 10)%nat ->
  (List.length pages < fuel)%nat ->
  Forall (fun p => p <> []) pages ->
  forallb (in_window env (clock s - days_back * day_ms)) (List.concat pages)
  = true ->
  (forall k,
      requests_get env o n (S (List.length pages)) 100 k
      = HttpRaises (Exception cls)) ->
  let found := filter (fun e => relevant (ev_type e)) (List.concat pages) in
  exists s',
    get_repo_events env fuel o n days_back s = Val found s'
    /\ List.length (exchanges s')
       = (List.length (exchanges s) + List.length pages + 1)%nat
    /\ api_calls (stats s')
       = (api_calls (stats s) + List.length pages)%nat
    /\ errors (stats s') = S (errors (stats s))
    /\ events_fetched (stats s')
       = (events_fetched (stats s) + List.length found)%nat
    /\ In (LFetchError o n (Exception cls)) (console s').
Proof.
  intros Hserve Hlt Hfuel Hne Hwin Hlast. cbv zeta.
  unfold get_repo_events, bind, print, modify, datetime_now, gets.
  set (s0 := set_console (fun c => c ++ [LFetching o n]) s).
  change (clock s0) with (clock s).
  set (cutoff_date := clock s - days_back * day_ms) in *.
  destruct fuel as [|fuel]; [lia|].
  replace (S fuel) with (List.length pages + S (fuel - List.length pages))%nat
    by lia.
  destruct (paging_through_pages env o n cutoff_date pages
              (S (fuel - List.length pages)) 1 [] s0)
    as (s1 & Hrun & Hlen & Hapi1 & Herr1 & Hef1); try assumption; try lia.
  rewrite Hrun. cbn [app Nat.add].
  destruct (paging_hard_stop env (fuel - List.length pages) o n
              cutoff_date (S (List.length pages))
              (filter (fun e => relevant (ev_type e)) (List.concat pages))
              s1 cls ltac:(lia) (Hlast (List.length (exchanges s1))))
    as (s' & Hstop & Hx & Hapi & Herr & Hef & Hcon & _).
  exists s'. split; [exact Hstop|].
  rewrite Hx, length_app, Hlen, Hapi, Herr, Hef, Hapi1, Herr1, Hef1, Hcon.
  cbn. repeat split; try lia.
  apply in_or_app. right. left. reflexivity.
Qed.

(* ===================================================================== *)
(** ** The further properties at work *)
(* ===================================================================== *)

Lemma demo_never_faults feed repos (c : DbCall) :
  never_faults (Demo.world feed Demo.no_faults repos) c.
Proof. intros k. reflexivity. Defined.

(** A first write of [watch1] into an empty table. *)
Lemma insert_event_appends_fresh_row_witness :
  exists s' row,
    insert_event Demo.w_mixed Demo.watch1 (Demo.start []) = Val true s'
    /\ session s' = [row]
    /\ repository_owner row = "octo"%string
    /\ repository_name row = "hello"%string.
Proof.
  destruct (insert_event_appends_fresh_row Demo.w_mixed Demo.watch1
              (Demo.start []))
    as (s' & row & H1 & H2 & _).
  - reflexivity.
  - vm_compute. apply le_n.
  - reflexivity.
  - exists s', row. split; [exact H1|]. split; [exact H2|].
    pose proof H1 as H1'. vm_compute in H1'. inversion H1' as [Hs'].
    rewrite <- Hs' in H2. vm_compute in H2. inversion H2.
    split; reflexivity.
Defined.

(** [watch1] written twice into an empty table: one row. *)
Lemma insert_event_twice_witness :
  exists s1 s2,
    insert_event Demo.w_mixed Demo.watch1 (Demo.start []) = Val true s1
    /\ insert_event Demo.w_mixed Demo.watch1 s1 = Val true s2
    /\ List.length (session s2) = 1%nat.
Proof.
  destruct (insert_event_twice Demo.w_mixed Demo.watch1 (Demo.start []))
    as (s1 & s2 & row & H1 & H2 & _ & _ & _ & H6 & _).
  - reflexivity.
  - vm_compute. apply le_n.
  - reflexivity.
  - reflexivity.
  - exists s1, s2. split; [exact H1|]. split; [exact H2 | exact H6].
Defined.

(** The upstream ["action"] replaces the [null] the script put there. *)
Lemma payload_upstream_wins_witness :
  dict_get "action" (build_payload Demo.w_mixed Demo.t_now Demo.watch1)
  = Some (JStr "started").
Proof.
  apply (payload_upstream_wins Demo.w_mixed Demo.t_now Demo.watch1
           [("action", JStr "started")]%string).
  - reflexivity.
  - constructor; [intros [] | constructor].
  - left. reflexivity.
Defined.

(** ... and leaves the provenance alone. *)
Lemma payload_keeps_other_keys_witness :
  dict_get "backfill_source"
    (build_payload Demo.w_mixed Demo.t_now Demo.watch1)
  = Some (JStr "workspace_backfill").
Proof.
  destruct (payload_keeps_other_keys Demo.w_mixed Demo.t_now Demo.watch1
              "backfill_source") as (H1 & H2 & _).
  - intros p Hp. inversion Hp; subst. cbn. intros [H|[]]. discriminate.
  - rewrite H1. exact H2.
Defined.

Lemma run_keeps_keys_unique_witness :
  unique_keys
    (final (process_repositories Demo.w_b_down 10 1 3
              [Demo.repo_a; Demo.repo_b; Demo.repo_c] (Demo.start []))).
Proof.
  apply run_keeps_keys_unique. split; constructor.
Defined.

(** Two events, one with a name that does not split: one inserted, one
    failed. *)
Lemma insert_events_counts_every_event_witness :
  exists inserted_count failed_count s',
    insert_events Demo.w_mixed [Demo.watch1; Demo.unsplit] 0 0 (Demo.start [])
    = Val (inserted_count, failed_count) s'
    /\ (inserted_count + failed_count = 2)%nat.
Proof.
  destruct (insert_events_counts_every_event Demo.w_mixed
              [Demo.watch1; Demo.unsplit] (Demo.start []))
    as (i & f & s' & H1 & H2 & _).
  - apply demo_never_faults.
  - apply demo_never_faults.
  - apply demo_calm; intros; discriminate.
  - exists i, f, s'. split; [exact H1 | exact H2].
Defined.

Lemma run_leaves_nothing_pending_witness :
  session (final (process_repositories Demo.w_b_down 10 1 3
                    [Demo.repo_a; Demo.repo_b; Demo.repo_c] (Demo.start [])))
  = committed (final (process_repositories Demo.w_b_down 10 1 3
                        [Demo.repo_a; Demo.repo_b; Demo.repo_c]
                        (Demo.start []))).
Proof.
  apply run_leaves_nothing_pending.
  - apply demo_never_faults.
  - apply demo_never_faults.
  - reflexivity.
Defined.

(** A 404 on the first page. *)
Lemma soft_stop_returns_collected_witness :
  exists s',
    paging Demo.w_not_found 1 "octo" "gone" 0 1 [] (Demo.start []) = Val [] s'
    /\ api_calls (stats s') = 1%nat
    /\ errors (stats s') = 0%nat.
Proof.
  destruct (soft_stop_returns_collected Demo.w_not_found 0 "octo" "gone" 0 1
              [] (Demo.start []) (mkResponse 404 None None))
    as (s' & H1 & _ & H3 & H4 & _).
  - apply Nat.leb_le. reflexivity.
  - reflexivity.
  - split; [discriminate | left; discriminate].
  - exists s'. split; [exact H1|]. split; [exact H3 | exact H4].
Defined.

(** One page, then an empty one. *)
Lemma end_of_feed_returns_all_pages_witness :
  exists s',
    get_repo_events Demo.w_one_page 10 "octo" "hello" 30 (Demo.start [])
    = Val [Demo.watch1] s'
    /\ List.length (exchanges s') = 2%nat.
Proof.
  destruct (end_of_feed_returns_all_pages Demo.w_one_page 10 "octo" "hello" 30
              (Demo.start []) [[Demo.watch1; Demo.push2]])
    as (s' & H1 & H2 & _).
  - intros i p k H. destruct i as [|i]; simpl in H.
    + inversion H. eexists. split; [reflexivity|]. split; reflexivity.
    + destruct i; discriminate.
  - simpl. lia.
  - simpl. lia.
  - constructor; [discriminate | constructor].
  - reflexivity.
  - intros k. eexists. split; [reflexivity|].
    split; [discriminate | right; reflexivity].
  - exists s'. split; [exact H1 | exact H2].
Defined.

(** The feed without end, ten pages of it. *)
Lemma ten_pages_are_all_witness :
  exists s',
    get_repo_events Demo.w_endless 10 "octo" "hello" 30 (Demo.start [])
    = Val (repeat Demo.watch1 10) s'
    /\ List.length (exchanges s') = 10%nat.
Proof.
  destruct (ten_pages_are_all Demo.w_endless 10 "octo" "hello" 30
              (Demo.start []) (repeat [Demo.watch1] 10))
    as (s' & H1 & H2 & _).
  - intros i p k H. apply nth_error_In in H. apply repeat_spec in H. subst p.
    eexists. split; [reflexivity|]. split; reflexivity.
  - reflexivity.
  - apply le_n.
  - apply Forall_forall. intros p Hp. apply repeat_spec in Hp. subst p.
    discriminate.
  - reflexivity.
  - exists s'. split; [exact H1 | exact H2].
Defined.

(** Two events on a database that works. *)
Lemma all_events_are_stored_witness :
  exists s',
    insert_events Demo.w_mixed [Demo.watch1; Demo.fork3] 0 0 (Demo.start [])
    = Val (2%nat, 0%nat) s'
    /\ In ("e3", Demo.recent)%string (keys (committed s')).
Proof.
  destruct (all_events_are_stored Demo.w_mixed [Demo.watch1; Demo.fork3]
              (Demo.start []))
    as (s' & H1 & _ & H3 & _).
  - apply demo_never_faults.
  - apply demo_never_faults.
  - repeat constructor.
  - discriminate.
  - exists s'. split; [exact H1|].
    apply (H3 Demo.fork3). right. left. reflexivity.
Defined.

(** An operator who interrupts the first request: status 0. *)
Lemma interrupt_is_not_an_error_witness :
  exit_status (main Demo.w_interrupted 10 Demo.config ["backfill.py"]%string
                 (Demo.start []))
  = Some 0
  \/ exit_status (main Demo.w_interrupted 10 Demo.config
                    ["backfill.py"]%string (Demo.start []))
     = None.
Proof.
  apply (interrupt_is_not_an_error Demo.w_interrupted 10 Demo.config
           ["backfill.py"]%string (Demo.start []));
    try reflexivity; apply demo_never_faults.
Defined.

(** That run: the first repository is interrupted, the second is not
    taken up, and the summary is still printed. *)
Example interrupted_run :
  exists s',
    main Demo.w_interrupted 10 Demo.config ["backfill.py"]%string
      (Demo.start [])
    = Val 0 s'
    /\ attempted (console s') = [("octo", "a")]%string
    /\ In LInterrupted (console s')
    /\ In (LTotal 0) (console s').
Proof.
  eexists. split; [vm_compute; reflexivity|].
  split; [reflexivity|]. split; simpl; auto 20.
Qed.

(** One page of two events, then the connection is lost: the watch event
    is returned and one error is counted. *)
Lemma transport_error_returns_collected_witness :
  exists s',
    get_repo_events Demo.w_drops 10 "octo" "hello" 30 (Demo.start [])
    = Val [Demo.watch1] s'
    /\ api_calls (stats s') = 1%nat
    /\ errors (stats s') = 1%nat
    /\ events_fetched (stats s') = 1%nat.
Proof.
  destruct (transport_error_returns_collected Demo.w_drops 10 "octo" "hello"
              30 (Demo.start []) [[Demo.watch1; Demo.push2]]
              "ConnectionError")
    as (s' & H1 & _ & H3 & H4 & H5 & _).
  - intros i p k H. destruct i as [|i]; simpl in H.
    + inversion H. eexists. split; [reflexivity|]. split; reflexivity.
    + destruct i; discriminate.
  - simpl. lia.
  - simpl. lia.
  - constructor; [discriminate | constructor].
  - reflexivity.
  - intros k. reflexivity.
  - exists s'. split; [exact H1|]. split; [exact H3|].
    split; [exact H4 | exact H5].
Defined.
